(** * Highway driving environments: reward, observation and staged-step core

    A shallow embedding of [sdriving/environments/highway.py]:
    [MultiAgentHighwayBicycleKinematicsModel] and its spline subclass
    [MultiAgentHighwaySplineAccelerationDiscreteModel].

    Conventions of the embedding.
    - A float tensor entry is an exact rational ([Q]); equality of computed
      values is [Qeq] ([==]).  Rounding, infinities and NaN are not modelled;
      [x / 0] is [0] as in [Q].
    - A tensor of shape [(N, 1)] (or [(N,)]) is the list of its [N] rows; a
      tensor of shape [(N, 2)] is a list of pairs; [(N, k)] a list of lists.
    - A binary tensor operation broadcasts over the batch dimension as torch
      does and raises [RuntimeError] on a shape mismatch.
    - Python [int]s are [Z].
    - Exceptions are the [Raise] results of the [result] monad. *)

From Stdlib Require Import QArith Qabs Qround Qminmax ZArith Lia Lqa Bool.
From stdpp Require Import base list.

Local Open Scope Q_scope.

(** ** Exceptions *)

Inductive error : Type :=
| AssertionError
| IndexError
| ValueError
| RuntimeError        (* torch shape errors *)
| FuelExhausted.      (* not a Python exception: a loop outran its fuel *)

Inductive result (A : Type) : Type :=
| Ok (a : A)
| Raise (err : error).

Arguments Ok {A} a.
Arguments Raise {A} err.

#[global] Instance result_ret : MRet result := fun A a => Ok a.
#[global] Instance result_bind : MBind result :=
  fun A B f m => match m with Ok a => f a | Raise err => Raise err end.

(** ** Tensor layer *)

(** [bool.float()] and the implicit promotion of a bool tensor in float
    arithmetic. *)
Definition b2q (b : bool) : Q := if b then 1 else 0.

(** An out-of-place binary operation [xs (op) ys] on the batch dimension:
    equal row counts combine row by row, a one-row operand is repeated,
    anything else is a shape error. *)
Definition bcast {A B C} (f : A -> B -> C) (xs : list A) (ys : list B)
  : result (list C) :=
  if decide (length xs = length ys) then Ok (zip_with f xs ys)
  else match xs, ys with
       | [x], _ => Ok (f x <$> ys)
       | _, [y] => Ok ((fun x => f x y) <$> xs)
       | _, _ => Raise RuntimeError
       end.

(** An in-place operation [xs (op)= ys]: the result must keep the shape of
    [xs], so only [ys] may be repeated. *)
Definition bcast_into {A B} (f : A -> B -> A) (xs : list A) (ys : list B)
  : result (list A) :=
  if decide (length xs = length ys) then Ok (zip_with f xs ys)
  else match ys with
       | [y] => Ok ((fun x => f x y) <$> xs)
       | _ => Raise RuntimeError
       end.

(** Points of the plane: one row of an [(N, 2)] tensor. *)
Definition point : Type := Q * Q.

Definition pt_scale (p : point) (c : Q) : point := (p.1 * c, p.2 * c).
Definition pt_add (p q : point) : point := (p.1 + q.1, p.2 + q.2).
Definition pt_eq (p q : point) : Prop := p.1 == q.1 /\ p.2 == q.2.

(** [t.clamp(min=m)] on one entry. *)
Definition clamp_min (m x : Q) : Q := if Qle_bool m x then x else m.

(** ** Data model *)

(** The fields of [BatchedVehicle] the environment reads and writes. *)
Record BatchedVehicle : Type := {
  position : list point;
  destination : list point;
  speed : list Q;
  dimensions : list point
}.

(** Modelled from the spec: the kinematics collaborators
    [BicycleKinematicsModel(dim, v_lim)] and [SplineModel(path, v_lim)] of
    [sdriving.tsim], whose classes are not part of this file.  Each binding
    is a reference to one model object and exposes, as [v_lim], the
    per-agent velocity limit it was constructed with (one row per agent). *)
Inductive Dynamics : Type :=
| BicycleKinematicsModel (dim : list Q) (v_lim : list Q)
| SplineModel (path : list (list point)) (v_lim : list Q).

Definition v_lim_of (d : Dynamics) : list Q :=
  match d with
  | BicycleKinematicsModel _ v => v
  | SplineModel _ v => v
  end.

(** [collections.deque(maxlen=...)]. *)
Record deque (A : Type) : Type := {
  maxlen : Z;
  items : list A
}.

Arguments maxlen {A} d.
Arguments items {A} d.

Definition deque_new {A} (m : Z) : deque A := {| maxlen := m; items := [] |}.

(** [deque.append]: push on the right, then drop from the left when the
    bound is exceeded. *)
Definition deque_append {A} (d : deque A) (x : A) : deque A :=
  let l := items d ++ [x] in
  {| maxlen := maxlen d;
     items := if (maxlen d <? Z.of_nat (length l))%Z then tail l else l |}.

Definition deque_len {A} (d : deque A) : Z := Z.of_nat (length (items d)).

(** The environment object.  [agent] is the single entry ["agent"] of
    [self.agents]. *)
Record Env : Type := {
  npoints : Z;
  history_len : Z;
  horizon : Z;
  nsteps : Z;
  nagents : nat;
  lidar_noise : Q;
  length_ : Q;
  width : Q;
  max_accln : Q;
  max_velocity : Q;
  agent : BatchedVehicle;
  accln_rating : list Q;
  vel_rating : list Q;
  original_distances : list Q;
  collision_vector : list bool;
  completion_vector : list bool;
  dynamics : Dynamics;
  queue1 : deque (list (list Q));
  queue2 : deque (list (list Q));
  got_spline_state : bool
}.

Definition set_agent (e : Env) (v : BatchedVehicle) : Env :=
  {| npoints := npoints e; history_len := history_len e;
     horizon := horizon e; nsteps := nsteps e; nagents := nagents e;
     lidar_noise := lidar_noise e; length_ := length_ e; width := width e;
     max_accln := max_accln e; max_velocity := max_velocity e;
     agent := v;
     accln_rating := accln_rating e; vel_rating := vel_rating e;
     original_distances := original_distances e;
     collision_vector := collision_vector e;
     completion_vector := completion_vector e;
     dynamics := dynamics e;
     queue1 := queue1 e; queue2 := queue2 e;
     got_spline_state := got_spline_state e |}.

Definition set_nsteps (e : Env) (n : Z) : Env :=
  {| npoints := npoints e; history_len := history_len e;
     horizon := horizon e; nsteps := n; nagents := nagents e;
     lidar_noise := lidar_noise e; length_ := length_ e; width := width e;
     max_accln := max_accln e; max_velocity := max_velocity e;
     agent := agent e;
     accln_rating := accln_rating e; vel_rating := vel_rating e;
     original_distances := original_distances e;
     collision_vector := collision_vector e;
     completion_vector := completion_vector e;
     dynamics := dynamics e;
     queue1 := queue1 e; queue2 := queue2 e;
     got_spline_state := got_spline_state e |}.

Definition set_dynamics (e : Env) (d : Dynamics) : Env :=
  {| npoints := npoints e; history_len := history_len e;
     horizon := horizon e; nsteps := nsteps e; nagents := nagents e;
     lidar_noise := lidar_noise e; length_ := length_ e; width := width e;
     max_accln := max_accln e; max_velocity := max_velocity e;
     agent := agent e;
     accln_rating := accln_rating e; vel_rating := vel_rating e;
     original_distances := original_distances e;
     collision_vector := collision_vector e;
     completion_vector := completion_vector e;
     dynamics := d;
     queue1 := queue1 e; queue2 := queue2 e;
     got_spline_state := got_spline_state e |}.

Definition set_queues (e : Env) (q1 q2 : deque (list (list Q))) : Env :=
  {| npoints := npoints e; history_len := history_len e;
     horizon := horizon e; nsteps := nsteps e; nagents := nagents e;
     lidar_noise := lidar_noise e; length_ := length_ e; width := width e;
     max_accln := max_accln e; max_velocity := max_velocity e;
     agent := agent e;
     accln_rating := accln_rating e; vel_rating := vel_rating e;
     original_distances := original_distances e;
     collision_vector := collision_vector e;
     completion_vector := completion_vector e;
     dynamics := dynamics e;
     queue1 := q1; queue2 := q2;
     got_spline_state := got_spline_state e |}.

Definition set_got_spline_state (e : Env) (b : bool) : Env :=
  {| npoints := npoints e; history_len := history_len e;
     horizon := horizon e; nsteps := nsteps e; nagents := nagents e;
     lidar_noise := lidar_noise e; length_ := length_ e; width := width e;
     max_accln := max_accln e; max_velocity := max_velocity e;
     agent := agent e;
     accln_rating := accln_rating e; vel_rating := vel_rating e;
     original_distances := original_distances e;
     collision_vector := collision_vector e;
     completion_vector := completion_vector e;
     dynamics := dynamics e;
     queue1 := queue1 e; queue2 := queue2 e;
     got_spline_state := b |}.

Definition set_flags (e : Env) (collided completed : list bool) : Env :=
  {| npoints := npoints e; history_len := history_len e;
     horizon := horizon e; nsteps := nsteps e; nagents := nagents e;
     lidar_noise := lidar_noise e; length_ := length_ e; width := width e;
     max_accln := max_accln e; max_velocity := max_velocity e;
     agent := agent e;
     accln_rating := accln_rating e; vel_rating := vel_rating e;
     original_distances := original_distances e;
     collision_vector := collided; completion_vector := completed;
     dynamics := dynamics e;
     queue1 := queue1 e; queue2 := queue2 e;
     got_spline_state := got_spline_state e |}.

Definition set_destination (v : BatchedVehicle) (d : list point) : BatchedVehicle :=
  {| position := position v; destination := d;
     speed := speed v; dimensions := dimensions v |}.

(** ** Reward engine *)

(** The four summands of the expression [get_reward] returns. *)
Record RewardTerms : Type := {
  distance_term : list Q;
  speed_term : list Q;
  penalty : list Q;
  goal_reach_bonus : list Q
}.

(** The attributes [get_reward] assigns: the vehicle's destination and the
    two flag vectors. *)
Definition reward_state (e : Env) (v : BatchedVehicle)
    (collided completed : list bool) : Env :=
  set_flags (set_agent e v) collided completed.

(** The body of [get_reward] up to its [return]: the state updates and the
    four summands.  The [action] argument of the source is never read. *)
Definition get_reward_terms (new_collisions : list bool) (e : Env)
  : result (Env * RewardTerms) :=
  let v := agent e in
  let hz := inject_Z (horizon e) in
  (* Distance from destination *)
  distances ← bcast Qminus (fst <$> destination v) (fst <$> position v);
  (* Agent Speeds *)
  let speeds := speed v in
  (* Goal Reach Bonus *)
  let reached_goal := (fun d => Qle_bool d 0) <$> distances in
  let distances := Qabs <$> distances in
  let not_completed := negb <$> completion_vector e in
  goal ← bcast andb not_completed reached_goal;
  let goal_reach_bonus := b2q <$> goal in
  completed ← bcast orb (completion_vector e) reached_goal;
  kept ← bcast (fun p c => pt_scale p (b2q c)) (position v) completed;
  old ← bcast (fun p c => pt_scale p (b2q c)) (destination v) (negb <$> completed);
  dest ← bcast pt_add kept old;
  weight ← bcast (fun b o => b2q b / o) not_completed (original_distances e);
  distances ← bcast_into Qmult distances weight;
  (* Collision *)
  new_collisions ← bcast andb (negb <$> collision_vector e) new_collisions;
  scaled ← bcast (fun c d => b2q c * d) new_collisions distances;
  let scaled :=
    (fun x => x * inject_Z (horizon e - nsteps e - 1) / hz) <$> scaled in
  penalty ← bcast Qplus (b2q <$> new_collisions) scaled;
  collided ← bcast_into orb (collision_vector e) new_collisions;
  dterm ← bcast (fun d c => - d * b2q c) distances (negb <$> collided);
  sterm ← bcast (fun s c => Qabs (s / 8) * b2q c) speeds completed;
  mret (reward_state e (set_destination v dest) collided completed,
        {| distance_term := (fun x => x / hz) <$> dterm;
           speed_term := (fun x => x / hz) <$> sterm;
           penalty := penalty;
           goal_reach_bonus := goal_reach_bonus |}).

(** [get_reward]: [distance - speed - penalty + bonus], left to right. *)
Definition get_reward (new_collisions : list bool) (e : Env)
  : result (Env * list Q) :=
  '(e', t) ← get_reward_terms new_collisions e;
  r ← bcast Qminus (distance_term t) (speed_term t);
  r ← bcast Qminus r (penalty t);
  r ← bcast Qplus r (goal_reach_bonus t);
  mret (e', r).

(** ** One agent's row of the reward computation

    The vectorised [get_reward_terms] acts on every row independently when
    all per-agent tensors have one row per agent.  [reward_row] is that
    action on a single row; [get_reward_terms_rows] below proves the two
    agree. *)

Record Row : Type := {
  row_position : point;
  row_destination : point;
  row_speed : Q;
  row_original : Q;
  row_collided : bool;
  row_completed : bool
}.

Record RowOut : Type := {
  out_destination : point;
  out_collided : bool;
  out_completed : bool;
  out_distance : Q;        (* the normalised distance [distances] *)
  out_new_collision : bool;
  out_distance_term : Q;
  out_speed_term : Q;
  out_penalty : Q;
  out_bonus : Q
}.

Definition reward_row (hz n : Z) (r : Row) (incoming : bool) : RowOut :=
  let d0 := (row_destination r).1 - (row_position r).1 in
  let reached_goal := Qle_bool d0 0 in
  let not_completed := negb (row_completed r) in
  let completed := row_completed r || reached_goal in
  let dist := Qabs d0 * (b2q not_completed / row_original r) in
  let nc := negb (row_collided r) && incoming in
  let collided := row_collided r || nc in
  {| out_destination :=
       pt_add (pt_scale (row_position r) (b2q completed))
              (pt_scale (row_destination r) (b2q (negb completed)));
     out_collided := collided;
     out_completed := completed;
     out_distance := dist;
     out_new_collision := nc;
     out_distance_term := - dist * b2q (negb collided) / inject_Z hz;
     out_speed_term := Qabs (row_speed r / 8) * b2q completed / inject_Z hz;
     out_penalty := b2q nc + b2q nc * dist * inject_Z (hz - n - 1) / inject_Z hz;
     out_bonus := b2q (not_completed && reached_goal) |}.

Definition row_at (e : Env) (i : nat) : option Row :=
  p ← position (agent e) !! i;
  d ← destination (agent e) !! i;
  s ← speed (agent e) !! i;
  o ← original_distances e !! i;
  c ← collision_vector e !! i;
  k ← completion_vector e !! i;
  Some {| row_position := p; row_destination := d; row_speed := s;
          row_original := o; row_collided := c; row_completed := k |}.

(** Every per-agent tensor of the environment has [n] rows. *)
Definition shaped (n : nat) (e : Env) : Prop :=
  length (position (agent e)) = n /\
  length (destination (agent e)) = n /\
  length (speed (agent e)) = n /\
  length (original_distances e) = n /\
  length (collision_vector e) = n /\
  length (completion_vector e) = n.

(** What [get_reward] leaves alone. *)
Definition reward_frame (e e' : Env) : Prop :=
  position (agent e') = position (agent e) /\
  speed (agent e') = speed (agent e) /\
  dimensions (agent e') = dimensions (agent e) /\
  original_distances e' = original_distances e /\
  horizon e' = horizon e /\ nsteps e' = nsteps e /\
  accln_rating e' = accln_rating e /\ vel_rating e' = vel_rating e /\
  max_velocity e' = max_velocity e /\ dynamics e' = dynamics e /\
  queue1 e' = queue1 e /\ queue2 e' = queue2 e.

(** ** The reward as the specification words it

    [spec_reward] follows the specification's formula, one agent at a time:
    [signed] is [destination.x - position.x], [collided] and [completed] are
    the flags after the call's update. *)

Definition spec_normalized_distance (signed orig : Q) (was_completed : bool) : Q :=
  Qabs signed * b2q (negb was_completed) / orig.

Definition spec_new_collision (incoming was_collided : bool) : bool :=
  incoming && negb was_collided.

Definition spec_collision_penalty (hz n : Z) (nd : Q) (new_collision : bool) : Q :=
  b2q new_collision * (1 + nd * inject_Z (hz - n - 1) / inject_Z hz).

Definition spec_goal_bonus (signed : Q) (was_completed : bool) : Q :=
  if negb was_completed && Qle_bool signed 0 then 1 else 0.

Definition spec_reward (hz n : Z) (signed spd orig : Q)
    (was_collided was_completed incoming collided completed : bool) : Q :=
  let nd := spec_normalized_distance signed orig was_completed in
  - nd * b2q (negb collided) / inject_Z hz
  - Qabs spd / 8 * b2q completed / inject_Z hz
  - spec_collision_penalty hz n nd (spec_new_collision incoming was_collided)
  + spec_goal_bonus signed was_completed.

(** ** Observation builder *)

(** What [get_state] returns: the rating channel (spline variant, first
    read) or the pair [(state, lidar)]. *)
Inductive Observation : Type :=
| ObsRating (rating : list Q)
| ObsHistory (state lidar : list (list Q)).

(** An [(N, 1)] column as a two-dimensional tensor. *)
Definition col (xs : list Q) : list (list Q) := (fun x => [x]) <$> xs.

(** [torch.cat(ts, dim=-1)] on two-dimensional tensors: the row counts must
    agree, rows are joined left to right. *)
Definition cat_last (ts : list (list (list Q))) : result (list (list Q)) :=
  match ts with
  | [] => Raise RuntimeError
  | t :: ts' =>
      if forallb (fun u => Nat.eqb (length u) (length t)) ts'
      then Ok (foldl (zip_with app) t ts')
      else Raise RuntimeError
  end.

(** [lidar *= torch.rand_like(lidar) > noise]; [rand i j] is the draw for
    entry [(i, j)]. *)
Definition lidar_mask (noise : Q) (rand : nat -> nat -> Q)
    (lidar : list (list Q)) : list (list Q) :=
  imap (fun i row =>
          imap (fun j x => x * b2q (negb (Qle_bool (rand i j) noise))) row)
       lidar.

(** [while len(self.queue1) <= self.history_len - 1: append; append]. *)
Fixpoint fill_queues (fuel : nat) (h : Z) (obs lidar : list (list Q))
    (q1 q2 : deque (list (list Q)))
  : option (deque (list (list Q)) * deque (list (list Q))) :=
  if (deque_len q1 <=? h - 1)%Z then
    match fuel with
    | O => None
    | S fuel' =>
        fill_queues fuel' h obs lidar (deque_append q1 obs) (deque_append q2 lidar)
    end
  else Some (q1, q2).

(** The history branch shared by both [get_state] methods. *)
Definition read_history (fuel : nat) (obs lidar : list (list Q)) (e : Env)
  : result (Env * Observation) :=
  if (1 <? history_len e)%Z then
    match fill_queues fuel (history_len e) obs lidar (queue1 e) (queue2 e) with
    | None => Raise FuelExhausted
    | Some (q1, q2) =>
        let q1 := deque_append q1 obs in
        let q2 := deque_append q2 lidar in
        s ← cat_last (items q1);
        l ← cat_last (items q2);
        mret (set_queues e q1 q2, ObsHistory s l)
    end
  else mret (e, ObsHistory obs lidar).

(** [1 / dist.clamp(min=1.0)] on one entry. *)
Definition inv_dist_of (dist : Q) : Q := 1 / clamp_min 1 dist.

(** The lidar features: the reciprocal of the scan [lidar_data] that
    [self.world.get_lidar_data_all_vehicles(self.npoints)] returned, masked
    by the noise draw when [lidar_noise > 0]. *)
Definition read_lidar (lidar_data : list (list Q)) (rand : nat -> nat -> Q)
    (e : Env) : list (list Q) :=
  let lidar : list (list Q) :=
    (fun row : list Q => (fun x => 1 / x) <$> row) <$> lidar_data in
  if negb (Qle_bool (lidar_noise e) 0)
  then lidar_mask (lidar_noise e) rand lidar
  else lidar.

(** The raw per-step features [obs] of the bicycle variants. *)
Definition raw_state (e : Env) : result (list (list Q)) :=
  let v := agent e in
  d ← bcast Qminus (fst <$> destination v) (fst <$> position v);
  let dist := Qabs <$> d in
  let inv_dist := inv_dist_of <$> dist in
  let speed := speed v in
  ratio ← bcast Qdiv speed (v_lim_of (dynamics e));
  cat_last [col inv_dist; col ratio; col (accln_rating e); col (vel_rating e)].

(** [get_state] of the bicycle variants; [fuel] bounds the fill loop. *)
Definition get_state (fuel : nat) (lidar_data : list (list Q))
    (rand : nat -> nat -> Q) (e : Env) : result (Env * Observation) :=
  obs ← raw_state e;
  let lidar := read_lidar lidar_data rand e in
  read_history fuel obs lidar e.

(** ** Episode set-up *)

(** [torch.cumsum(xs, dim=0)]. *)
Fixpoint cumsum_from (acc : Q) (xs : list Q) : list Q :=
  match xs with
  | [] => []
  | x :: xs' => (acc + x) :: cumsum_from (acc + x) xs'
  end.

Definition cumsum (xs : list Q) : list Q := cumsum_from 0 xs.

(** [torch.cat([xs, ys], dim=-1)] of two [(N, 1)] columns. *)
Definition cat_pair (xs ys : list Q) : result (list point) :=
  if decide (length xs = length ys) then Ok (zip xs ys) else Raise RuntimeError.

(** Modelled from the spec: [BatchedVehicle.distance_from_destination] is
    not part of this file; it yields the per-agent distance to the
    destination.  Start and destination lie on the line [y = 0] when it is
    called, so the distance is the absolute difference of the x
    coordinates. *)
Definition distance_from_destination (v : BatchedVehicle) : list Q :=
  zip_with (fun d p => Qabs (d.1 - p.1)) (destination v) (position v).

(** [store_dynamics]: bind a bicycle model with the rating-derived limit. *)
Definition store_dynamics (v : BatchedVehicle) (e : Env) : Env :=
  set_dynamics e
    (BicycleKinematicsModel (fst <$> dimensions v)
       ((fun r => r * max_velocity e) <$> vel_rating e)).

(** The configuration [generate_world_without_agents] returns: the road's
    length and width. *)
Definition generate_world_without_agents : Q * Q := (250, 25).

(** The float32 sum [x + 1] of a draw [0 <= x < 1] of [torch.rand]: the
    exact sum lies in [[1, 2)], where two neighbouring float32 values are
    [2^-23] apart, and is rounded to the nearest of them, a tie going to the
    one with an even significand.  So the largest draw, [1 - 2^-24], gives
    2. *)
Definition f32_one_plus (x : Q) : Q :=
  let s := (x + 1) * 8388608 in
  let f := Qfloor s in
  let k := match s - inject_Z f ?= 1 # 2 with
           | Lt => f
           | Gt => (f + 1)%Z
           | Eq => if Z.even f then f else (f + 1)%Z
           end in
  inject_Z k / 8388608.

(** [(torch.rand(n, 1) + 1) * 0.5]; [rand i] is the [i]-th entry of the
    draw.  The sum is rounded as float32 does; the product with [0.5] is
    exact. *)
Definition drawn_ratings (rand : nat -> Q) (n : nat) : list Q :=
  (fun i => f32_one_plus (rand i) * 0.5) <$> seq 0 n.

(** [rand] is the draw of [torch.rand(self.nagents, 1)]. *)
Definition add_vehicles_to_world (rand : nat -> Q) (e : Env) : result Env :=
  let n := nagents e in
  let dims := replicate n (4.48, 2.2) in
  let max_accln' := 3 in
  let max_velocity' := 16 in
  let diffs := cumsum (0 :: replicate (n - 1) 10) in
  diffs ← cat_pair diffs (replicate n 0);
  spos ← bcast pt_add [(- length_ e / 2 + 30, 0)] diffs;
  let epos := replicate n (length_ e / 2 - 50, 0) in
  let vehicle :=
    {| position := spos; destination := epos;
       speed := replicate n 0; dimensions := dims |} in
  let accln_rating' := drawn_ratings rand n in
  let vel_rating' := accln_rating' in
  let e1 :=
    {| npoints := npoints e; history_len := history_len e;
       horizon := horizon e; nsteps := nsteps e; nagents := nagents e;
       lidar_noise := lidar_noise e; length_ := length_ e; width := width e;
       max_accln := max_accln'; max_velocity := max_velocity';
       agent := agent e;
       accln_rating := accln_rating'; vel_rating := vel_rating';
       original_distances := original_distances e;
       collision_vector := collision_vector e;
       completion_vector := completion_vector e;
       dynamics := dynamics e;
       queue1 := queue1 e; queue2 := queue2 e;
       got_spline_state := got_spline_state e |} in
  let e2 := store_dynamics vehicle e1 in
  let e3 := set_agent e2 vehicle in
  mret
    {| npoints := npoints e3; history_len := history_len e3;
       horizon := horizon e3; nsteps := nsteps e3; nagents := nagents e3;
       lidar_noise := lidar_noise e3; length_ := length_ e3; width := width e3;
       max_accln := max_accln e3; max_velocity := max_velocity e3;
       agent := agent e3;
       accln_rating := accln_rating e3; vel_rating := vel_rating e3;
       original_distances := distance_from_destination vehicle;
       collision_vector := collision_vector e3;
       completion_vector := completion_vector e3;
       dynamics := dynamics e3;
       queue1 := queue1 e3; queue2 := queue2 e3;
       got_spline_state := got_spline_state e3 |}.

Definition set_config (e : Env) (cfg : Q * Q) : Env :=
  {| npoints := npoints e; history_len := history_len e;
     horizon := horizon e; nsteps := nsteps e; nagents := nagents e;
     lidar_noise := lidar_noise e; length_ := cfg.1; width := cfg.2;
     max_accln := max_accln e; max_velocity := max_velocity e;
     agent := agent e;
     accln_rating := accln_rating e; vel_rating := vel_rating e;
     original_distances := original_distances e;
     collision_vector := collision_vector e;
     completion_vector := completion_vector e;
     dynamics := dynamics e;
     queue1 := queue1 e; queue2 := queue2 e;
     got_spline_state := got_spline_state e |}.

(** [reset] up to its last line: the world configuration, the vehicles and
    two fresh queues. *)
Definition reset_own (rand : nat -> Q) (e : Env) : result Env :=
  let e := set_config e generate_world_without_agents in
  e ← add_vehicles_to_world rand e;
  if (history_len e <? 0)%Z then Raise ValueError
  else mret (set_queues e (deque_new (history_len e)) (deque_new (history_len e))).

(** [reset]: [super_reset] stands for the base class's [reset], which this
    method calls last and whose result it returns. *)
Definition reset {A} (super_reset : Env -> result A) (rand : nat -> Q) (e : Env)
  : result A :=
  e ← reset_own rand e;
  super_reset e.

(** ** The base class, as far as this file relies on it *)

(** Modelled from the spec: what the world and physics collaborators, which
    are not part of this file, report after one control step: where the
    vehicles are, how fast, who newly collided, and the lidar scan. *)
Record WorldOut : Type := {
  w_position : list point;
  w_speed : list Q;
  w_collisions : list bool;
  w_lidar : list (list Q)
}.

(** Modelled from the spec: the collaborators as one function of the
    active dynamics binding, the resolved control and the vehicles. *)
Definition World : Type := Dynamics -> list Q -> BatchedVehicle -> WorldOut.

(** The physics collaborators write the vehicles' positions and speeds. *)
Definition move_agent (e : Env) (pos : list point) (spd : list Q) : Env :=
  set_agent e
    {| position := pos; destination := destination (agent e);
       speed := spd; dimensions := dimensions (agent e) |}.

(** Modelled from the spec: the base class's termination test, which is
    not part of this file: an episode ends when [nsteps == horizon] or every
    agent is completed or collided. *)
Definition is_done (e : Env) : bool :=
  (nsteps e =? horizon e)%Z
  || forallb id (zip_with orb (completion_vector e) (collision_vector e)).

(** Modelled from the spec: the kinematics collaborators are not part of
    this file.  Both models are "advanceable by one control step given
    [steer?, accel]", and a stage-1 call "performs a normal control step
    (acceleration only) against the already-committed spline path": a
    control that carries an acceleration only advances a spline model along
    its path; the bicycle model, which has no path and needs a steering
    entry as well, does not take it, and the step fails. *)
Definition advance_dynamics (world : World) (d : Dynamics) (a : list Q)
    (v : BatchedVehicle) : result WorldOut :=
  match d with
  | SplineModel _ _ => Ok (world d a v)
  | BicycleKinematicsModel _ _ => Raise RuntimeError
  end.

(** Modelled from the spec: [BaseMultiAgentDrivingEnvironment.step] is not
    part of this file.  Per step the control flow is action resolver, then
    the dynamics binding advanced by the physics collaborators, then the
    observation builder, then the reward engine; the caller receives
    observation, reward and done flag.  [resolve] and [observe] are the
    subclass's [discrete_to_continuous_actions] and [get_state]; the
    resolved control is one acceleration per agent, as the spline variant
    resolves it. *)
Definition base_step
    (resolve : list Q -> Env -> result (list Q))
    (observe : list (list Q) -> Env -> result (Env * Observation))
    (world : World) (action : list Q) (e : Env)
  : result (Env * (Observation * list Q * bool)) :=
  a ← resolve action e;
  w ← advance_dynamics world (dynamics e) a (agent e);
  let e := set_nsteps (move_agent e (w_position w) (w_speed w)) (nsteps e + 1) in
  '(e, obs) ← observe (w_lidar w) e;
  '(e, rew) ← get_reward (w_collisions w) e;
  mret (e, (obs, rew, is_done e)).

(** Modelled from the spec: [BaseMultiAgentDrivingEnvironment.reset] is not
    part of this file.  It reinitialises the episode state (step counter and
    both flag vectors) and returns the first observation. *)
Definition base_reset
    (observe : Env -> result (Env * Observation)) (e : Env)
  : result (Env * Observation) :=
  let clear := replicate (nagents e) false in
  observe (set_nsteps (set_flags e clear clear) 0).

(** ** Spline variant *)

Module Spline.

(** [torch.arange(start, stop, step)]. *)
Definition arange (start stop step : Q) : list Q :=
  (fun k => start + inject_Z (Z.of_nat k) * step)
    <$> seq 0 (Z.to_nat (Qceiling ((stop - start) / step))).

(** [configure_action_space], with [self.max_accln = 3.0]. *)
Definition action_list : list Q := arange (- 3) (3 + 0.05) 0.25.

(** [t[k]] for one index entry; negative indices count from the end.  The
    dtype of a tensor is not modelled: an integer-valued entry is taken as
    a long, any other entry is refused as torch refuses a float index. *)
Definition index (l : list Q) (k : Q) : result Q :=
  let k := Qred k in
  if negb (Qden k =? 1)%positive then Raise IndexError
  else
    let n := Z.of_nat (length l) in
    let i := if (Qnum k <? 0)%Z then (Qnum k + n)%Z else Qnum k in
    if ((0 <=? i) && (i <? n))%Z
    then match l !! Z.to_nat i with
         | Some x => Ok x
         | None => Raise IndexError
         end
    else Raise IndexError.

(** [self.action_list[action] * self.max_accln * self.accln_rating]. *)
Definition discrete_to_continuous_actions (action : list Q) (e : Env)
  : result (list Q) :=
  action ← mapM (index action_list) action;
  bcast (fun a r => a * max_accln e * r) action (accln_rating e).

(** The stage-0 resolver passes the offset through. *)
Definition discrete_to_continuous_actions_v2 (action : list Q) : list Q :=
  action.

(** The raw per-step features [obs] of the spline variant: the ratings are
    not part of them. *)
Definition raw_state (e : Env) : result (list (list Q)) :=
  let v := agent e in
  d ← bcast Qminus (fst <$> destination v) (fst <$> position v);
  let dist := Qabs <$> d in
  let inv_dist := inv_dist_of <$> dist in
  let speed := speed v in
  ratio ← bcast Qdiv speed (v_lim_of (dynamics e));
  cat_last [col inv_dist; col ratio].

(** [get_state] of the spline variant: the first read of an episode
    returns the rating channel, every later one the history. *)
Definition get_state (fuel : nat) (lidar_data : list (list Q))
    (rand : nat -> nat -> Q) (e : Env) : result (Env * Observation) :=
  if negb (got_spline_state e)
  then mret (set_got_spline_state e true, ObsRating (accln_rating e))
  else
    obs ← raw_state e;
    let lidar := read_lidar lidar_data rand e in
    read_history fuel obs lidar e.

(** [torch.cat([x.unsqueeze(1) for x in [a, b, c, d]], dim=1)]. *)
Definition stack4 (a b c d : list point) : result (list (list point)) :=
  if decide (length b = length a /\ length c = length a /\ length d = length a)
  then Ok (zip_with (fun x y => x ++ y)
             (zip_with (fun p q => [p; q]) a b)
             (zip_with (fun p q => [p; q]) c d))
  else Raise RuntimeError.

(** The stage-0 branch of [step]: the four-point path of every agent. *)
Definition spline_path (action : list Q) (e : Env)
  : result (list (list point)) :=
  let vehicle := agent e in
  let pos := position vehicle in
  p0 ← match pos with [] => Raise IndexError | p :: _ => Ok p end;
  let farthest_pt := replicate (length action) (- length_ e / 2, p0.2) in
  let mid_point_x := (fun p : point => p.1 + 50) <$> pos in
  mid_point_y ← bcast (fun (p : point) a => p.2 + a * width e / 2) pos action;
  mid_point ← cat_pair mid_point_x mid_point_y;
  last_pt ← cat_pair (replicate (length pos) (length_ e / 2)) mid_point_y;
  stack4 pos mid_point last_pt farthest_pt.

(** [step]: [super_step] stands for the base class's [step], to which a
    stage-1 call is handed over. *)
Definition step {A} (super_step : list Q -> Env -> result (Env * A))
    (fuel : nat) (lidar_data : list (list Q)) (rand : nat -> nat -> Q)
    (stage : Z) (action : list Q) (e : Env)
  : result (Env * (A + Observation)) :=
  if negb (bool_decide (stage ∈ [0; 1]%Z)) then Raise AssertionError
  else if (stage =? 1)%Z then
    '(e, r) ← super_step action e; mret (e, inl r)
  else
    let action := discrete_to_continuous_actions_v2 action in
    path ← spline_path action e;
    let e :=
      set_dynamics e
        (SplineModel path ((fun r => r * max_velocity e) <$> vel_rating e)) in
    '(e, o) ← get_state fuel lidar_data rand e;
    mret (e, inr o).

(** [reset] of the spline variant: clear [got_spline_state], then the
    bicycle class's [reset]. *)
Definition reset {A} (super_reset : Env -> result A) (rand : nat -> Q)
    (e : Env) : result A :=
  reset super_reset rand (set_got_spline_state e false).

End Spline.

(** ** Episodes of the reward engine

    Between two [get_reward] calls the base class and the physics
    collaborators move the vehicles and advance the step counter; nothing
    else of the episode state is written outside [get_reward] until the
    next reset. *)

Record Tick : Type := {
  tick_position : list point;
  tick_speed : list Q;
  tick_nsteps : Z;
  tick_collisions : list bool
}.

Definition advance (t : Tick) (e : Env) : Env :=
  set_nsteps (move_agent e (tick_position t) (tick_speed t)) (tick_nsteps t).

(** The environment after each [get_reward] call of the episode, with the
    summands that call computed. *)
Fixpoint episode (e : Env) (ts : list Tick) : result (list (Env * RewardTerms)) :=
  match ts with
  | [] => mret []
  | t :: ts' =>
      '(e', r) ← get_reward_terms (tick_collisions t) (advance t e);
      rest ← episode e' ts';
      mret ((e', r) :: rest)
  end.

Definition tick_shaped (n : nat) (t : Tick) : Prop :=
  length (tick_position t) = n /\ length (tick_speed t) = n /\
  length (tick_collisions t) = n.

(** The trajectory of an episode: the start state followed by the state
    after each [get_reward] call. *)
Definition trajectory (e : Env) (outs : list (Env * RewardTerms)) : list Env :=
  e :: outs.*1.


(** ** States of an episode

    [reachable e0 e]: [e] is reached from [e0], the environment [reset_own]
    leaves, by the calls that can follow: [get_reward], [get_state] of
    either variant, a stage-0 [step] of the spline variant, and the writes
    of the base class and the physics collaborators (vehicle positions and
    speeds, the step counter, and the flag vectors the base [reset]
    clears). *)
Inductive reachable (e0 : Env) : Env -> Prop :=
| reach_start : reachable e0 e0
| reach_reward e nc e' r :
    reachable e0 e -> get_reward nc e = Ok (e', r) -> reachable e0 e'
| reach_state e fuel lidar_data rand e' o :
    reachable e0 e -> get_state fuel lidar_data rand e = Ok (e', o) ->
    reachable e0 e'
| reach_spline_state e fuel lidar_data rand e' o :
    reachable e0 e -> Spline.get_state fuel lidar_data rand e = Ok (e', o) ->
    reachable e0 e'
| reach_stage0 e (A : Type) (super_step : list Q -> Env -> result (Env * A))
    fuel lidar_data rand action e' o :
    reachable e0 e ->
    Spline.step super_step fuel lidar_data rand 0 action e = Ok (e', inr o) ->
    reachable e0 e'
| reach_base e pos spd n collided completed :
    reachable e0 e ->
    reachable e0
      (set_flags (set_nsteps (move_agent e pos spd) n) collided completed).


(** What no call of an episode writes. *)
Definition same_ratings (e e' : Env) : Prop :=
  accln_rating e' = accln_rating e /\ vel_rating e' = vel_rating e /\
  max_velocity e' = max_velocity e /\ nagents e' = nagents e /\
  history_len e' = history_len e /\ npoints e' = npoints e.

(** ** Reading the history over an episode *)

(** A tensor with [n] rows of [w] entries. *)
Definition tensor_shape (n w : nat) (t : list (list Q)) : Prop :=
  length t = n /\ Forall (fun r => length r = w) t.

(** What the collaborators present to one [get_state] call: the vehicles
    as they now are (moved by the physics, destinations as [get_reward] left
    them), the lidar scan and the noise draw. *)
Record Scan : Type := {
  scan_agent : BatchedVehicle;
  scan_lidar : list (list Q);
  scan_rand : nat -> nat -> Q
}.

Definition scan_shaped (n w : nat) (s : Scan) : Prop :=
  length (position (scan_agent s)) = n /\
  length (destination (scan_agent s)) = n /\
  length (speed (scan_agent s)) = n /\
  tensor_shape n w (scan_lidar s).

(** The state after, and the value returned by, each [get_state] call of a
    sequence. *)
Fixpoint observe (fuel : nat) (e : Env) (ss : list Scan)
  : result (list (Env * Observation)) :=
  match ss with
  | [] => mret []
  | s :: ss' =>
      '(e', o) ← get_state fuel (scan_lidar s) (scan_rand s)
                   (set_agent e (scan_agent s));
      rest ← observe fuel e' ss';
      mret ((e', o) :: rest)
  end.

(** The per-agent tensors [get_state] reads have [n] rows. *)
Definition obs_shaped (n : nat) (e : Env) : Prop :=
  length (position (agent e)) = n /\
  length (destination (agent e)) = n /\
  length (speed (agent e)) = n /\
  length (v_lim_of (dynamics e)) = n /\
  length (accln_rating e) = n /\ length (vel_rating e) = n.

(** The queue invariant: both queues are bounded by the history length,
    equally long, and hold tensors of one shape each ([k] state features,
    [w] lidar rays per agent). *)
Definition queues_ok (n k w : nat) (e : Env) : Prop :=
  maxlen (queue1 e) = history_len e /\ maxlen (queue2 e) = history_len e /\
  length (items (queue2 e)) = length (items (queue1 e)) /\
  (Z.of_nat (length (items (queue1 e))) <= history_len e)%Z /\
  Forall (tensor_shape n k) (items (queue1 e)) /\
  Forall (tensor_shape n w) (items (queue2 e)).

(** What [get_state] needs of the environment, call after call. *)
Definition hist_inv (n w : nat) (e : Env) : Prop :=
  (1 < history_len e)%Z /\ queues_ok n 4 w e /\
  length (v_lim_of (dynamics e)) = n /\
  length (accln_rating e) = n /\ length (vel_rating e) = n.

(** ** A small concrete environment

    Two agents, history length 3, two lidar rays, horizon 10, no lidar
    noise. *)

(** The object as [__init__] leaves it.  The per-agent tensors are only
    created by [reset], and the two queues, [None] until [reset] replaces
    them, are shown as empty queues. *)
Definition env_init (npoints history_len horizon : Z) (nagents : nat)
    (lidar_noise : Q) : Env :=
  {| npoints := npoints; history_len := history_len;
     horizon := horizon; nsteps := 0; nagents := nagents;
     lidar_noise := lidar_noise; length_ := 250; width := 25;
     max_accln := 3; max_velocity := 16;
     agent := {| position := []; destination := []; speed := []; dimensions := [] |};
     accln_rating := []; vel_rating := [];
     original_distances := [];
     collision_vector := []; completion_vector := [];
     dynamics := BicycleKinematicsModel [] [];
     queue1 := deque_new history_len; queue2 := deque_new history_len;
     got_spline_state := false |}.

Definition ex_draws (i : nat) : Q := if Nat.eqb i 0 then 0 else 1 # 2.
Definition ex_noise (i j : nat) : Q := 1 # 2.
Definition ex_lidar : list (list Q) := [[5; 8]; [4; 10]].

Definition ex_init : Env := env_init 2 3 10 2 0.

(** The environment after [reset]. *)
Definition ex_start : Env :=
  Eval vm_compute in
    match reset (base_reset (get_state 3 ex_lidar ex_noise)) ex_draws ex_init with
    | Ok (e, _) => e
    | Raise _ => ex_init
    end.

(** Agent 0 drives past its destination at the first step and keeps
    moving; agent 1 collides at the second step. *)
Definition ex_ticks : list Tick :=
  [ {| tick_position := [(80, 0); (-80, 0)]; tick_speed := [4; 2];
       tick_nsteps := 1; tick_collisions := [false; false] |};
    {| tick_position := [(81, 0); (-70, 0)]; tick_speed := [4; 2];
       tick_nsteps := 2; tick_collisions := [false; true] |};
    {| tick_position := [(82, 0); (-70, 0)]; tick_speed := [0; 0];
       tick_nsteps := 3; tick_collisions := [false; true] |} ].

Definition ex_tick1 : Tick :=
  {| tick_position := [(80, 0); (-80, 0)]; tick_speed := [4; 2];
     tick_nsteps := 1; tick_collisions := [false; false] |}.

Definition ex_tick2 : Tick :=
  {| tick_position := [(81, 0); (-70, 0)]; tick_speed := [4; 2];
     tick_nsteps := 2; tick_collisions := [false; true] |}.

(** The spline environment right after [reset], before any [step]. *)
Definition ex_spline_start : Env :=
  Eval vm_compute in
    match Spline.reset (base_reset (Spline.get_state 3 ex_lidar ex_noise))
            ex_draws ex_init with
    | Ok (e, _) => e
    | Raise _ => ex_init
    end.

(** A world in which every vehicle gains its control as speed, up to the
    velocity limit of the bound model, moves on by its new speed along the
    road, and nobody collides. *)
Definition ex_world : World :=
  fun d a v =>
    let spd := zip_with Qmin (zip_with Qplus (speed v) a) (v_lim_of d) in
    {| w_position := zip_with (fun (p : point) s => (p.1 + s, p.2)) (position v) spd;
       w_speed := spd;
       w_collisions := (fun _ => false) <$> position v;
       w_lidar := ex_lidar |}.

(** The base class's [step] of the spline environment. *)
Definition ex_super_step (action : list Q) (e : Env)
  : result (Env * (Observation * list Q * bool)) :=
  base_step Spline.discrete_to_continuous_actions
    (fun lidar_data => Spline.get_state 3 lidar_data ex_noise)
    ex_world action e.

(** The environment [reset_own] leaves, before the base class's [reset]. *)
Definition ex_own : Env :=
  Eval vm_compute in
    match reset_own ex_draws ex_init with
    | Ok e => e
    | Raise _ => ex_init
    end.

Definition ex_scans : list Scan :=
  [ {| scan_agent := agent ex_own; scan_lidar := ex_lidar;
       scan_rand := ex_noise |};
    {| scan_agent :=
         {| position := [(-90, 0); (-80, 0)];
            destination := destination (agent ex_own);
            speed := [4; 2]; dimensions := dimensions (agent ex_own) |};
       scan_lidar := [[6; 7]; [3; 9]]; scan_rand := ex_noise |} ].

(** The largest draw of [torch.rand]: [1 - 2^-24]. *)
Definition ex_top_draw (i : nat) : Q := 16777215 # 16777216.

(** * The rest of the environment classes *)

(** ** The collision mask built by [__init__] *)

(** [m[i : i + 4, i : i + 4] -= 1] on a matrix. *)
Definition sub_block (i : nat) (m : list (list Q)) : list (list Q) :=
  imap (fun r row =>
          imap (fun c x =>
                  if (Nat.leb i r && Nat.ltb r (i + 4)
                      && Nat.leb i c && Nat.ltb c (i + 4))%bool
                  then x - 1 else x) row) m.

(** [range(0, stop, 4)] for [stop = 4 * n]. *)
Definition block_starts (n : nat) : list nat := (fun k => 4 * k)%nat <$> seq 0 n.

(** [self.bool_buffer]: a matrix of ones, minus one on every diagonal
    [4 x 4] block, converted with [.bool()] (nonzero is true). *)
Definition bool_buffer (nagents : nat) : list (list bool) :=
  let ones := replicate (nagents * 4) (replicate (nagents * 4) 1) in
  let m := foldl (fun m i => sub_block i m) ones (block_starts nagents) in
  (fun row : list Q => (fun x => negb (Qeq_bool x 0)) <$> row) <$> m.

(** ** Observation and action spaces *)

(** [gym.spaces.Box]: per-entry bounds; [None] is [np.inf]. *)
Record Box : Type := {
  box_low : list Q;
  box_high : list (option Q)
}.

(** A row lies in a box: same length, every entry within its bounds. *)
Definition in_box (b : Box) (row : list Q) : Prop :=
  length row = length (box_low b) /\ length row = length (box_high b) /\
  forall i x lo hi,
    row !! i = Some x -> box_low b !! i = Some lo -> box_high b !! i = Some hi ->
    lo <= x /\ match hi with Some h => x <= h | None => True end.

(** A Python list repeated [k] times ([xs * k]; empty for [k <= 0]). *)
Definition list_times {A} (xs : list A) (k : Z) : list A :=
  concat (replicate (Z.to_nat k) xs).

(** [get_observation_space] of the bicycle variants: the state box and the
    lidar box of the [Tuple]. *)
Definition get_observation_space (e : Env) : Box * Box :=
  ({| box_low := list_times [0; -1; 0.5; 0.5] (history_len e);
      box_high := list_times [Some 1; Some 1; Some 1; Some 1] (history_len e) |},
   {| box_low := replicate (Z.to_nat (npoints e * history_len e)) 0;
      box_high := replicate (Z.to_nat (npoints e * history_len e)) None |}).

(** [get_action_space] of the continuous bicycle variant. *)
Definition get_action_space : Box :=
  {| box_low := [-0.1; -1]; box_high := [Some 0.1; Some 1] |}.

(** ** Action resolvers of the bicycle variants *)

(** [discrete_to_continuous_actions] of the continuous variant:
    [actions[:, 1:] = actions[:, 1:] * self.max_accln * self.accln_rating],
    written into the caller's tensor, which is returned. *)
Definition discrete_to_continuous_actions (actions : list (list Q)) (e : Env)
  : result (list (list Q)) :=
  scaled ← bcast (fun (row : list Q) r => (fun a => a * max_accln e * r) <$> row)
             (drop 1 <$> actions) (accln_rating e);
  bcast_into (fun (row : list Q) t => take 1 row ++ t) actions scaled.

Module DiscreteBicycle.

(** [itertools.product(xs, ys)]: the first factor varies slowest. *)
Definition product {A B} (xs : list A) (ys : list B) : list (A * B) :=
  x ← xs; (fun y => (x, y)) <$> ys.

Definition max_steering : Q := 0.1.

(** [configure_action_space]: the steering by acceleration grid. *)
Definition action_list : list (Q * Q) :=
  product (Spline.arange (- max_steering) (max_steering + 0.01) 0.05)
          (Spline.arange (- 1) (1 + 0.05) 0.25).

(** [get_action_space]: [Discrete(self.action_list.size(0))]. *)
Definition get_action_space : nat := length action_list.

(** [t[k]] for one index entry of a two-column table; as [Spline.index]. *)
Definition index (l : list (Q * Q)) (k : Q) : result (Q * Q) :=
  let k := Qred k in
  if negb (Qden k =? 1)%positive then Raise IndexError
  else
    let n := Z.of_nat (length l) in
    let i := if (Qnum k <? 0)%Z then (Qnum k + n)%Z else Qnum k in
    if ((0 <=? i) && (i <? n))%Z
    then match l !! Z.to_nat i with
         | Some x => Ok x
         | None => Raise IndexError
         end
    else Raise IndexError.

(** [discrete_to_continuous_actions]: look the indices up, then rescale the
    acceleration column of the looked-up copy. *)
Definition discrete_to_continuous_actions (actions : list Q) (e : Env)
  : result (list (Q * Q)) :=
  actions ← mapM (index action_list) actions;
  scaled ← bcast (fun (row : Q * Q) r => row.2 * max_accln e * r)
             actions (accln_rating e);
  bcast_into (fun (row : Q * Q) t => (row.1, t)) actions scaled.

End DiscreteBicycle.

(** ** Spaces of the spline variant *)

(** [get_observation_space] of the spline variant: the rating box, then the
    state box and the lidar box. *)
Definition spline_observation_space (e : Env) : Box * (Box * Box) :=
  ({| box_low := [0.5]; box_high := [Some 1] |},
   ({| box_low := list_times [0; -1] (history_len e);
       box_high := list_times [Some 1; Some 1] (history_len e) |},
    {| box_low := replicate (Z.to_nat (npoints e * history_len e)) 0;
       box_high := replicate (Z.to_nat (npoints e * history_len e)) None |})).

(** [get_action_space] of the spline variant: the offset box and
    [Discrete(self.action_list.size(0))]. *)
Definition spline_action_space : Box * nat :=
  ({| box_low := [-0.75]; box_high := [Some 0.75] |},
   length Spline.action_list).

(** ** Observations against the declared spaces *)

(** One step's slice of the declared state box of the bicycle variants. *)
Definition state_box4 : Box :=
  {| box_low := [0; -1; 0.5; 0.5];
     box_high := [Some 1; Some 1; Some 1; Some 1] |}.

(** What the physics and the world owe one [get_state] call for its result
    to lie in the declared space: speeds within the velocity limit of the
    binding, and lidar distances that are not negative. *)
Definition scan_bounded (e : Env) (s : Scan) : Prop :=
  (forall i x v,
      speed (scan_agent s) !! i = Some x ->
      v_lim_of (dynamics e) !! i = Some v -> - v <= x /\ x <= v) /\
  Forall (Forall (fun x => 0 <= x)) (scan_lidar s).

(** The environment [reset_own] leaves when there is no history
    ([history_len = 1]). *)
Definition ex_own_flat : Env :=
  Eval vm_compute in
    match reset_own ex_draws (env_init 2 1 10 2 0) with
    | Ok e => e
    | Raise _ => ex_init
    end.

(** One step's slice of the declared state box of the spline variant. *)
Definition state_box2 : Box :=
  {| box_low := [0; -1]; box_high := [Some 1; Some 1] |}.

(** What precedes one [get_state] call of the spline variant: the vehicles
    as the physics left them and the scan, and, when the call is made by a
    stage-0 [step], the path that call has just bound. *)
Record SplineScan : Type := {
  sscan : Scan;
  sscan_path : option (list (list point))
}.

Definition spline_present (e : Env) (s : SplineScan) : Env :=
  let e := set_agent e (scan_agent (sscan s)) in
  match sscan_path s with
  | Some path =>
      set_dynamics e
        (SplineModel path ((fun r => r * max_velocity e) <$> vel_rating e))
  | None => e
  end.

(** The state after, and the value returned by, each [get_state] call of a
    sequence, in the spline variant. *)
Fixpoint spline_observe (fuel : nat) (e : Env) (ss : list SplineScan)
  : result (list (Env * Observation)) :=
  match ss with
  | [] => mret []
  | s :: ss' =>
      '(e', o) ← Spline.get_state fuel (scan_lidar (sscan s)) (scan_rand (sscan s))
                   (spline_present e s);
      rest ← spline_observe fuel e' ss';
      mret ((e', o) :: rest)
  end.

(** The spline environment [reset] leaves before its first read, and the
    reads of a short episode: the rating, a stage-0 read, a read after one
    physics step. *)
Definition ex_spline_own : Env :=
  Eval vm_compute in
    match reset_own ex_draws (set_got_spline_state ex_init false) with
    | Ok e => e
    | Raise _ => ex_init
    end.

Definition ex_spline_scans : list SplineScan :=
  [ {| sscan := {| scan_agent := agent ex_spline_own; scan_lidar := ex_lidar;
                   scan_rand := ex_noise |};
       sscan_path := None |};
    {| sscan := {| scan_agent := agent ex_spline_own; scan_lidar := ex_lidar;
                   scan_rand := ex_noise |};
       sscan_path :=
         Some [ [(-95, 0); (-45, 25 # 4); (125, 25 # 4); (-125, 0)];
                [(-85, 0); (-35, 0); (125, 0); (-125, 0)] ] |};
    {| sscan :=
         {| scan_agent :=
              {| position := [(-90, 0); (-80, 0)];
                 destination := destination (agent ex_spline_own);
                 speed := [4; 2]; dimensions := dimensions (agent ex_spline_own) |};
            scan_lidar := [[6; 7]; [3; 9]]; scan_rand := ex_noise |};
       sscan_path := None |} ].

(** * The permutation-invariant waypoint critic (ppo_critic.py) *)

Module PPOWaypointPermutationInvariantCentralizedCritic.

(** Modelled from the spec: the networks that [mlp] builds are not part of
    this file; they are opaque function approximators.  Each maps every row
    of its input on its own, from [net_in] to [net_out] entries, and, as a
    linear layer does, refuses a row of another width. *)
Record Net : Type := {
  net_in : nat;
  net_out : nat;
  net_fn : list Q -> list Q
}.

Definition apply_row (net : Net) (row : list Q) : result (list Q) :=
  if Nat.eqb (length row) (net_in net) then Ok (net_fn net row)
  else Raise RuntimeError.

Definition apply_net (net : Net) (rows : list (list Q))
  : result (list (list Q)) :=
  mapM (apply_row net) rows.

(** [torch.cat(f_vecs, dim=0)] of the unsqueezed observations: the rows
    below each other, all of one width. *)
Definition cat_rows (vs : list (list Q)) : result (list (list Q)) :=
  match vs with
  | [] => Raise RuntimeError
  | v :: vs' =>
      if forallb (fun u => Nat.eqb (length u) (length v)) vs'
      then Ok (v :: vs') else Raise RuntimeError
  end.

(** [t.view(n, 1, -1).mean(0)] of an [(n, h)] tensor: the mean of every
    column, as one row. *)
Definition mean0 (rows : list (list Q)) : list Q :=
  match rows with
  | [] => []
  | r :: _ =>
      (fun j =>
         foldr Qplus 0 ((fun row : list Q => default 0 (row !! j)) <$> rows)
         / inject_Z (Z.of_nat (length rows)))
        <$> seq 0 (length r)
  end.

(** [forward] on unbatched observations, one vector per agent
    ([x.ndim == 1], so [bsize = 1] and [no_batch] holds).  The value
    estimate is returned as the list of the value head's outputs, a single
    entry for a head of width 1. *)
Definition forward (f_net v_net : Net) (obs_list : list (list Q))
  : result (list Q) :=
  match obs_list with
  | [] => Raise IndexError
  | _ :: _ =>
      f_vecs ← cat_rows obs_list;
      f ← apply_net f_net f_vecs;
      let state_vec := mean0 f in
      apply_row v_net state_vec
  end.

End PPOWaypointPermutationInvariantCentralizedCritic.

(** A feature network that doubles every entry and a value head that
    reads the first feature. *)
Definition ex_f_net : PPOWaypointPermutationInvariantCentralizedCritic.Net :=
  {| PPOWaypointPermutationInvariantCentralizedCritic.net_in := 2;
     PPOWaypointPermutationInvariantCentralizedCritic.net_out := 2;
     PPOWaypointPermutationInvariantCentralizedCritic.net_fn :=
       fun row => (fun x => 2 * x) <$> row |}.

Definition ex_v_net : PPOWaypointPermutationInvariantCentralizedCritic.Net :=
  {| PPOWaypointPermutationInvariantCentralizedCritic.net_in := 2;
     PPOWaypointPermutationInvariantCentralizedCritic.net_out := 1;
     PPOWaypointPermutationInvariantCentralizedCritic.net_fn := take 1 |}.

(** Two stage-0 calls in a row on the spline environment after [reset]:
    the second one changes the offsets. *)
Definition ex_stage0_first
  : Env * ((Observation * list Q * bool) + Observation) :=
  Eval vm_compute in
    match Spline.step ex_super_step 3 ex_lidar ex_noise 0 [1 # 2; - (1 # 2)]
            ex_spline_start with
    | Ok x => x
    | Raise _ => (ex_init, inr (ObsRating []))
    end.

Definition ex_stage0_second
  : Env * ((Observation * list Q * bool) + Observation) :=
  Eval vm_compute in
    match Spline.step ex_super_step 3 ex_lidar ex_noise 0 [0; 1 # 4]
            ex_stage0_first.1 with
    | Ok x => x
    | Raise _ => (ex_init, inr (ObsRating []))
    end.

(** * Properties *)

(** ** Tensor layer and the rows of the reward *)

Lemma bcast_same {A B C} (f : A -> B -> C) xs ys :
  length xs = length ys -> bcast f xs ys = Ok (zip_with f xs ys).
Proof. intros H. unfold bcast. destruct (decide _); [reflexivity | contradiction]. Qed.

Lemma bcast_into_same {A B} (f : A -> B -> A) xs ys :
  length xs = length ys -> bcast_into f xs ys = Ok (zip_with f xs ys).
Proof. intros H. unfold bcast_into. destruct (decide _); [reflexivity | contradiction]. Qed.

Lemma bind_Ok {A B} (a : A) (k : A -> result B) : (Ok a ≫= k) = k a.
Proof. reflexivity. Qed.

Ltac shape_tac :=
  change point with (Q * Q)%type in *;
  repeat (rewrite length_zip_with || rewrite length_fmap); lia.

Ltac run_bcast :=
  cbv beta zeta;
  repeat first
    [ rewrite bcast_same by shape_tac
    | rewrite bcast_into_same by shape_tac
    | progress (rewrite bind_Ok; cbv beta zeta) ].

Lemma row_at_Some n e i : shaped n e -> (i < n)%nat -> is_Some (row_at e i).
Proof.
  intros (Hp & Hd & Hs & Ho & Hc & Hk) Hi. unfold row_at.
  destruct (lookup_lt_is_Some_2 (position (agent e)) i) as [p ->]; [lia|].
  destruct (lookup_lt_is_Some_2 (destination (agent e)) i) as [d ->]; [lia|].
  destruct (lookup_lt_is_Some_2 (speed (agent e)) i) as [s ->]; [lia|].
  destruct (lookup_lt_is_Some_2 (original_distances e) i) as [o ->]; [lia|].
  destruct (lookup_lt_is_Some_2 (collision_vector e) i) as [c ->]; [lia|].
  destruct (lookup_lt_is_Some_2 (completion_vector e) i) as [k ->]; [lia|].
  simpl. eauto.
Qed.

Lemma row_at_inv e i r :
  row_at e i = Some r ->
  position (agent e) !! i = Some (row_position r) /\
  destination (agent e) !! i = Some (row_destination r) /\
  speed (agent e) !! i = Some (row_speed r) /\
  original_distances e !! i = Some (row_original r) /\
  collision_vector e !! i = Some (row_collided r) /\
  completion_vector e !! i = Some (row_completed r).
Proof.
  unfold row_at. intros H.
  destruct (position (agent e) !! i); [|discriminate].
  destruct (destination (agent e) !! i); [|discriminate].
  destruct (speed (agent e) !! i); [|discriminate].
  destruct (original_distances e !! i); [|discriminate].
  destruct (collision_vector e !! i); [|discriminate].
  destruct (completion_vector e !! i); [|discriminate].
  simpl in H. injection H as <-. simpl. repeat split; reflexivity.
Qed.

(** The vectorised computation is the row computation at every index. *)
Lemma get_reward_terms_rows n e nc :
  shaped n e -> length nc = n ->
  exists e' t,
    get_reward_terms nc e = Ok (e', t) /\
    shaped n e' /\ reward_frame e e' /\
    length (distance_term t) = n /\ length (speed_term t) = n /\
    length (penalty t) = n /\ length (goal_reach_bonus t) = n /\
    forall i r inc,
      row_at e i = Some r -> nc !! i = Some inc ->
      let o := reward_row (horizon e) (nsteps e) r inc in
      destination (agent e') !! i = Some (out_destination o) /\
      collision_vector e' !! i = Some (out_collided o) /\
      completion_vector e' !! i = Some (out_completed o) /\
      distance_term t !! i = Some (out_distance_term o) /\
      speed_term t !! i = Some (out_speed_term o) /\
      penalty t !! i = Some (out_penalty o) /\
      goal_reach_bonus t !! i = Some (out_bonus o).
Proof.
  intros (Hp & Hd & Hs & Ho & Hc & Hk) Hn.
  unfold get_reward_terms. run_bcast.
  eexists _, _. split; [reflexivity|].
  split; [|split]; [| |split; [|split; [|split; [|split]]]].
  - unfold shaped; simpl. repeat split; try assumption; shape_tac.
  - unfold reward_frame; simpl. repeat split; reflexivity.
  - simpl. shape_tac.
  - simpl. shape_tac.
  - simpl. shape_tac.
  - simpl. shape_tac.
  - intros i r inc Hr Hinc.
    apply row_at_inv in Hr as (Rp & Rd & Rs & Ro & Rc & Rk).
    simpl. change point with (Q * Q)%type in *.
    repeat rewrite ?lookup_zip_with, ?list_lookup_fmap,
      ?Rp, ?Rd, ?Rs, ?Ro, ?Rc, ?Rk, ?Hinc; simpl.
    repeat split; reflexivity.
Qed.

Lemma Qabs_div8 (s : Q) : Qabs (s / 8) == Qabs s / 8.
Proof.
  unfold Qdiv. rewrite Qabs_Qmult. rewrite (Qabs_pos (/ 8)); [reflexivity|].
  unfold Qle; simpl; lia.
Qed.

Lemma reward_row_total hz n r inc :
  let o := reward_row hz n r inc in
  out_distance_term o - out_speed_term o - out_penalty o + out_bonus o ==
  spec_reward hz n ((row_destination r).1 - (row_position r).1)
    (row_speed r) (row_original r) (row_collided r) (row_completed r) inc
    (out_collided o) (out_completed o).
Proof.
  unfold reward_row, spec_reward, spec_normalized_distance,
    spec_collision_penalty, spec_new_collision, spec_goal_bonus.
  cbn [out_distance_term out_speed_term out_penalty out_bonus
       out_collided out_completed].
  rewrite Qabs_div8. rewrite (andb_comm (negb (row_collided r)) inc).
  destruct (negb (row_completed r) && Qle_bool _ 0);
    cbn [b2q]; unfold Qdiv; ring.
Qed.

(** C1: on well-shaped inputs, with a horizon other than zero,
    [get_reward] returns, and the reward of every agent whose baseline
    distance is not zero (the code divides by both) is the specification's
    formula evaluated at that agent's signed distance, speed, baseline
    distance, previous flags and incoming collision signal, with the
    collided and completed flags of the distance and speed terms read after
    the call's update. *)
Theorem C1_get_reward_formula (n : nat) (e : Env) (nc : list bool) :
  shaped n e -> length nc = n -> (horizon e <> 0)%Z ->
  exists e' rs,
    get_reward nc e = Ok (e', rs) /\ length rs = n /\
    forall i r inc,
      row_at e i = Some r -> nc !! i = Some inc ->
      ~ row_original r == 0 ->
      exists x collided completed,
        rs !! i = Some x /\
        collision_vector e' !! i = Some collided /\
        completion_vector e' !! i = Some completed /\
        collided = (row_collided r || spec_new_collision inc (row_collided r)) /\
        completed = (row_completed r
                     || Qle_bool ((row_destination r).1 - (row_position r).1) 0) /\
        x == spec_reward (horizon e) (nsteps e)
               ((row_destination r).1 - (row_position r).1)
               (row_speed r) (row_original r)
               (row_collided r) (row_completed r) inc collided completed.
Proof.
  intros Hs Hn Hhz.
  destruct (get_reward_terms_rows n e nc Hs Hn)
    as (e' & t & Ht & Hs' & _ & L1 & L2 & L3 & L4 & Hrows).
  unfold get_reward. rewrite Ht. rewrite bind_Ok. run_bcast.
  eexists _, _. split; [reflexivity|]. split; [shape_tac|].
  intros i r inc Hr Hinc Horig.
  destruct (Hrows i r inc Hr Hinc) as (_ & Hc & Hk & Hd & Hsp & Hp & Hb).
  eexists _, _, _. split; [|split; [exact Hc|split; [exact Hk|]]].
  - rewrite !lookup_zip_with, Hd, Hsp, Hp, Hb. simpl. reflexivity.
  - split; [|split].
    + simpl. unfold spec_new_collision. rewrite andb_comm. reflexivity.
    + reflexivity.
    + apply reward_row_total.
Qed.

(** ** Episodes unrolled *)

Lemma advance_shaped n t e : shaped n e -> tick_shaped n t -> shaped n (advance t e).
Proof.
  intros (Hp & Hd & Hs & Ho & Hc & Hk) (Tp & Ts & Tc).
  unfold shaped, advance; simpl. repeat split; assumption.
Qed.

Lemma episode_unroll n ts : forall e,
  shaped n e -> Forall (tick_shaped n) ts ->
  exists outs,
    episode e ts = Ok outs /\ length outs = length ts /\
    forall j t,
      ts !! j = Some t ->
      exists sj sj' tj,
        trajectory e outs !! j = Some sj /\
        outs !! j = Some (sj', tj) /\
        shaped n sj /\
        get_reward_terms (tick_collisions t) (advance t sj) = Ok (sj', tj).
Proof.
  induction ts as [|t ts IH]; intros e He Hts.
  - exists []. split; [reflexivity|]. split; [reflexivity|].
    intros j t Hj. destruct j; discriminate.
  - inversion Hts as [|? ? Ht Hts']; subst.
    pose proof (advance_shaped n t e He Ht) as Ha.
    destruct Ht as (Tp & Ts & Tc).
    destruct (get_reward_terms_rows n (advance t e) (tick_collisions t) Ha Tc)
      as (e' & r & Hr & He' & _).
    destruct (IH e' He' Hts') as (outs & Ho & Hl & Hch).
    exists ((e', r) :: outs). split; [|split].
    + cbn [episode]. rewrite Hr. rewrite bind_Ok. cbn beta iota.
      rewrite Ho. reflexivity.
    + simpl. congruence.
    + intros j tj Hj. destruct j as [|j].
      * injection Hj as <-. exists e, e', r.
        split; [reflexivity|]. split; [reflexivity|]. split; [exact He | exact Hr].
      * simpl in Hj. destruct (Hch j tj Hj) as (sj & sj' & rj & H1 & H2 & H3 & H4).
        exists sj, sj', rj.
        split; [exact H1|]. split; [exact H2|]. split; [exact H3 | exact H4].
Qed.

(** One call never clears a flag. *)
Lemma get_reward_terms_flags n e nc e' t i :
  shaped n e -> length nc = n ->
  get_reward_terms nc e = Ok (e', t) ->
  (collision_vector e !! i = Some true -> collision_vector e' !! i = Some true) /\
  (completion_vector e !! i = Some true -> completion_vector e' !! i = Some true).
Proof.
  intros He Hn Hr.
  destruct (get_reward_terms_rows n e nc He Hn) as (e2 & t2 & Hr2 & _ & _ & _ & _ & _ & _ & Hrows).
  rewrite Hr in Hr2. injection Hr2 as <- <-.
  assert (Hi : forall (l : list bool), length l = n -> l !! i = Some true -> (i < n)%nat).
  { intros l Hl Hli. apply lookup_lt_Some in Hli. lia. }
  split; intros Hflag.
  - pose proof He as (_ & _ & _ & _ & Hc & _).
    destruct (row_at_Some n e i He (Hi _ Hc Hflag)) as [r Hrow].
    destruct (lookup_lt_is_Some_2 nc i) as [inc Hinc]; [rewrite Hn; eauto|].
    destruct (Hrows i r inc Hrow Hinc) as (_ & Hc' & _).
    apply row_at_inv in Hrow as (_ & _ & _ & _ & Rc & _).
    rewrite Hflag in Rc. injection Rc as Rc. rewrite Hc'. simpl. rewrite <- Rc.
    reflexivity.
  - pose proof He as (_ & _ & _ & _ & _ & Hk).
    destruct (row_at_Some n e i He (Hi _ Hk Hflag)) as [r Hrow].
    destruct (lookup_lt_is_Some_2 nc i) as [inc Hinc]; [rewrite Hn; eauto|].
    destruct (Hrows i r inc Hrow Hinc) as (_ & _ & Hk' & _).
    apply row_at_inv in Hrow as (_ & _ & _ & _ & _ & Rk).
    rewrite Hflag in Rk. injection Rk as Rk. rewrite Hk'. simpl. rewrite <- Rk.
    reflexivity.
Qed.

Lemma advance_flags t e :
  collision_vector (advance t e) = collision_vector e /\
  completion_vector (advance t e) = completion_vector e /\
  destination (agent (advance t e)) = destination (agent e) /\
  original_distances (advance t e) = original_distances e /\
  horizon (advance t e) = horizon e /\
  position (agent (advance t e)) = tick_position t /\
  speed (agent (advance t e)) = tick_speed t /\
  nsteps (advance t e) = tick_nsteps t.
Proof. repeat split; reflexivity. Qed.

(** Flags along a trajectory only ever rise. *)
Lemma trajectory_flags n e ts outs :
  shaped n e -> Forall (tick_shaped n) ts -> episode e ts = Ok outs ->
  forall d j sj sj' i,
    trajectory e outs !! j = Some sj ->
    trajectory e outs !! (j + d)%nat = Some sj' ->
    (collision_vector sj !! i = Some true -> collision_vector sj' !! i = Some true) /\
    (completion_vector sj !! i = Some true -> completion_vector sj' !! i = Some true).
Proof.
  intros He Hts Hep.
  destruct (episode_unroll n ts e He Hts) as (outs' & Ho & Hl & Hch).
  rewrite Hep in Ho. injection Ho as <-.
  induction d as [|d IH]; intros j sj sj' i Hj Hj'.
  - rewrite Nat.add_0_r in Hj'. rewrite Hj in Hj'. injection Hj' as <-. tauto.
  - replace (j + S d)%nat with (S (j + d)) in Hj' by lia.
    assert (Hlt : (j + d < length ts)%nat).
    { apply lookup_lt_Some in Hj'. unfold trajectory in Hj'. simpl in Hj'.
      rewrite length_fmap in Hj'. lia. }
    destruct (lookup_lt_is_Some_2 ts (j + d)) as [t Ht]; [exact Hlt|].
    destruct (Hch _ t Ht) as (sm & sm' & tm & Hm & Hom & Hsm & Hrm).
    assert (sm' = sj').
    { unfold trajectory in Hj'. simpl in Hj'. rewrite list_lookup_fmap, Hom in Hj'.
      simpl in Hj'. congruence. }
    subst sm'.
    destruct (IH j sj sm i Hj Hm) as (IHc & IHk).
    assert (Hts_t : tick_shaped n t).
    { rewrite Forall_lookup in Hts. eapply Hts; eauto. }
    pose proof (advance_shaped n t sm Hsm Hts_t) as Ha.
    destruct Hts_t as (_ & _ & Tc).
    destruct (get_reward_terms_flags n (advance t sm) _ sj' tm i Ha Tc Hrm) as (Fc & Fk).
    split; intros Hf; [apply Fc, IHc, Hf | apply Fk, IHk, Hf].
Qed.

(** The row a tick presents to [get_reward], from the lookups of its parts. *)
Lemma row_at_advance n t e i c k p d :
  shaped n e -> tick_shaped n t ->
  collision_vector e !! i = Some c -> completion_vector e !! i = Some k ->
  tick_position t !! i = Some p -> destination (agent e) !! i = Some d ->
  exists s o,
    tick_speed t !! i = Some s /\ original_distances e !! i = Some o /\
    row_at (advance t e) i =
      Some {| row_position := p; row_destination := d; row_speed := s;
              row_original := o; row_collided := c; row_completed := k |}.
Proof.
  intros (Hp & Hd & Hs & Ho & Hc & Hk) (Tp & Ts & Tc) Ec Ek Ep Ed.
  assert (Hi : (i < n)%nat) by (apply lookup_lt_Some in Ec; lia).
  destruct (lookup_lt_is_Some_2 (tick_speed t) i) as [s Es]; [lia|].
  destruct (lookup_lt_is_Some_2 (original_distances e) i) as [o Eo]; [lia|].
  exists s, o. split; [exact Es|]. split; [exact Eo|].
  unfold row_at. simpl. change point with (Q * Q)%type in *.
  rewrite Ep, Ed, Es, Eo, Ec, Ek. reflexivity.
Qed.

Lemma penalty_gated hz n r inc :
  out_penalty (reward_row hz n r inc) ==
  b2q (inc && negb (row_collided r)) *
  (1 + out_distance (reward_row hz n r inc) * inject_Z (hz - n - 1) / inject_Z hz).
Proof.
  unfold reward_row. cbn [out_penalty out_distance].
  rewrite (andb_comm (negb (row_collided r)) inc). unfold Qdiv. ring.
Qed.


(** ** Rows along an episode *)

Lemma trajectory_succ e outs j sj' tj :
  outs !! j = Some (sj', tj) -> trajectory e outs !! S j = Some sj'.
Proof.
  intros H. unfold trajectory. simpl. rewrite list_lookup_fmap, H. reflexivity.
Qed.

Lemma trajectory_pred e outs j sj :
  trajectory e outs !! S j = Some sj -> exists tj, outs !! j = Some (sj, tj).
Proof.
  unfold trajectory. simpl. rewrite list_lookup_fmap.
  destruct (outs !! j) as [[s t]|]; simpl; [|discriminate].
  intros H. injection H as <-. eauto.
Qed.

Lemma row_at_advance_flags t e i r :
  row_at (advance t e) i = Some r ->
  collision_vector e !! i = Some (row_collided r) /\
  completion_vector e !! i = Some (row_completed r) /\
  destination (agent e) !! i = Some (row_destination r) /\
  tick_position t !! i = Some (row_position r) /\
  original_distances e !! i = Some (row_original r).
Proof.
  intros H. apply row_at_inv in H as (Rp & Rd & _ & Ro & Rc & Rk).
  repeat split; assumption.
Qed.

Lemma b2q_nonneg b : 0 <= b2q b.
Proof. destruct b; unfold Qle; simpl; lia. Qed.

Lemma out_distance_nonneg hz n r inc :
  0 <= row_original r -> 0 <= out_distance (reward_row hz n r inc).
Proof.
  intros Ho. cbn [reward_row out_distance].
  apply Qmult_le_0_compat; [apply Qabs_nonneg|].
  unfold Qdiv. apply Qmult_le_0_compat; [apply b2q_nonneg|].
  destruct (Qle_lt_or_eq _ _ Ho) as [Hlt | Heq].
  - apply Qlt_le_weak. apply Qinv_lt_0_compat. exact Hlt.
  - rewrite <- Heq. unfold Qle; simpl; lia.
Qed.

Section Episode.

Context (n : nat) (e : Env) (ts : list Tick) (outs : list (Env * RewardTerms)).
Hypothesis He : shaped n e.
Hypothesis Hts : Forall (tick_shaped n) ts.
Hypothesis Hep : episode e ts = Ok outs.

(** Step [j] of the episode, seen at agent [i]: the row the call reads and
    what it writes and returns for that row. *)
Lemma episode_step_row :
  forall j sj' tj i,
    outs !! j = Some (sj', tj) -> (i < n)%nat ->
    exists t sj r inc,
      ts !! j = Some t /\ trajectory e outs !! j = Some sj /\
      shaped n sj /\ shaped n sj' /\
      row_at (advance t sj) i = Some r /\ tick_collisions t !! i = Some inc /\
      original_distances sj' = original_distances sj /\
      horizon sj' = horizon sj /\
      let o := reward_row (horizon sj) (tick_nsteps t) r inc in
      destination (agent sj') !! i = Some (out_destination o) /\
      collision_vector sj' !! i = Some (out_collided o) /\
      completion_vector sj' !! i = Some (out_completed o) /\
      distance_term tj !! i = Some (out_distance_term o) /\
      speed_term tj !! i = Some (out_speed_term o) /\
      penalty tj !! i = Some (out_penalty o) /\
      goal_reach_bonus tj !! i = Some (out_bonus o).
Proof.
  intros j sj' tj i Ho Hi.
  destruct (episode_unroll n ts e He Hts) as (outs' & Hep' & Hl & Hch).
  rewrite Hep in Hep'. injection Hep' as <-.
  destruct (lookup_lt_is_Some_2 ts j) as [t Ht].
  { apply lookup_lt_Some in Ho. lia. }
  destruct (Hch j t Ht) as (sj & sj0' & tj0 & Hj & Ho0 & Hs & Hr).
  rewrite Ho in Ho0. injection Ho0 as <- <-.
  assert (Hts_t : tick_shaped n t).
  { rewrite Forall_lookup in Hts. eapply Hts; eauto. }
  pose proof (advance_shaped n t sj Hs Hts_t) as Ha.
  destruct Hts_t as (_ & _ & Tc).
  destruct (get_reward_terms_rows n (advance t sj) _ Ha Tc)
    as (e2 & t2 & Hr2 & Hs2 & Hfr & _ & _ & _ & _ & Hrows).
  rewrite Hr in Hr2. injection Hr2 as <- <-.
  destruct (row_at_Some n (advance t sj) i Ha Hi) as [r Hrow].
  destruct (lookup_lt_is_Some_2 (tick_collisions t) i) as [inc Hinc]; [lia|].
  exists t, sj, r, inc.
  destruct Hfr as (_ & _ & _ & Fo & Fh & _).
  split; [exact Ht|]. split; [exact Hj|]. split; [exact Hs|].
  split; [exact Hs2|]. split; [exact Hrow|]. split; [exact Hinc|].
  split; [exact Fo|]. split; [exact Fh|].
  exact (Hrows i r inc Hrow Hinc).
Qed.

(** Until the first incoming collision the agent's flag stays down. *)
Lemma not_collided_before i k :
  collision_vector e !! i = Some false ->
  (forall j t, (j < k)%nat -> ts !! j = Some t ->
               tick_collisions t !! i = Some false) ->
  forall j sj, (j <= k)%nat -> trajectory e outs !! j = Some sj ->
               collision_vector sj !! i = Some false.
Proof.
  intros Hc0 Hquiet.
  assert (Hi : (i < n)%nat).
  { apply lookup_lt_Some in Hc0. destruct He as (_ & _ & _ & _ & Hc & _). lia. }
  induction j as [|j IH]; intros sj Hle Hj.
  - injection Hj as <-. exact Hc0.
  - destruct (trajectory_pred _ _ _ _ Hj) as [tj Ho].
    destruct (episode_step_row j sj tj i Ho Hi)
      as (t & sp & r & inc & Ht & Hp & _ & _ & Hrow & Hinc & _ & _ & Hout).
    destruct Hout as (_ & Hc' & _).
    apply row_at_advance_flags in Hrow as (Rc & _).
    rewrite (IH sp ltac:(lia) Hp) in Rc. injection Rc as Rc.
    rewrite (Hquiet j t ltac:(lia) Ht) in Hinc. injection Hinc as <-.
    rewrite Hc'. cbn [reward_row out_collided]. rewrite <- Rc. reflexivity.
Qed.

(** The baseline distances and the horizon are the same all episode long. *)
Lemma trajectory_frame :
  forall j sj, trajectory e outs !! j = Some sj ->
    original_distances sj = original_distances e /\ horizon sj = horizon e.
Proof.
  destruct (episode_unroll n ts e He Hts) as (outs' & Hep' & Hl & Hch).
  rewrite Hep in Hep'. injection Hep' as <-.
  induction j as [|j IH]; intros sj Hj.
  - injection Hj as <-. split; reflexivity.
  - destruct (trajectory_pred _ _ _ _ Hj) as [tj Ho].
    destruct (lookup_lt_is_Some_2 ts j) as [t Ht].
    { apply lookup_lt_Some in Ho. lia. }
    destruct (Hch j t Ht) as (sp & sj0 & tj0 & Hp & Ho0 & Hs & Hr).
    rewrite Ho in Ho0. injection Ho0 as <- <-.
    assert (Hts_t : tick_shaped n t).
    { rewrite Forall_lookup in Hts. eapply Hts; eauto. }
    pose proof (advance_shaped n t sp Hs Hts_t) as Ha.
    destruct Hts_t as (_ & _ & Tc).
    destruct (get_reward_terms_rows n (advance t sp) _ Ha Tc)
      as (e2 & t2 & Hr2 & _ & Hfr & _).
    rewrite Hr in Hr2. injection Hr2 as <- <-.
    destruct Hfr as (_ & _ & _ & Fo & Fh & _).
    destruct (IH sp Hp) as (IHo & IHh).
    split; [rewrite Fo | rewrite Fh]; simpl; assumption.
Qed.

End Episode.

Lemma out_distance_spec hz n r inc :
  out_distance (reward_row hz n r inc) ==
  spec_normalized_distance ((row_destination r).1 - (row_position r).1)
    (row_original r) (row_completed r).
Proof.
  unfold reward_row, spec_normalized_distance. cbn [out_distance].
  unfold Qdiv. ring.
Qed.

(** C5: along every episode the collision and completion vectors never
    lose a bit between two steps, and the events a call acts on are
    [incoming AND NOT previous flag]: the collision flag becomes
    [c OR (incoming AND NOT c)], the completion flag becomes
    [k OR (reached AND NOT k)] and the goal bonus is that new event; for an
    agent whose baseline distance is not zero, and a horizon other than
    zero, the collision penalty is the new collision event times
    [1 + normalized_distance * (horizon - nsteps - 1) / horizon], with the
    normalised distance [|destination.x - position.x| * NOT k / baseline]. *)
Theorem C5_flags_monotone_and_events (n : nat) (e : Env) (ts : list Tick) :
  shaped n e -> Forall (tick_shaped n) ts -> (horizon e <> 0)%Z ->
  exists outs,
    episode e ts = Ok outs /\
    (forall j j' sj sj' i,
        (j <= j')%nat ->
        trajectory e outs !! j = Some sj -> trajectory e outs !! j' = Some sj' ->
        (collision_vector sj !! i = Some true ->
         collision_vector sj' !! i = Some true) /\
        (completion_vector sj !! i = Some true ->
         completion_vector sj' !! i = Some true)) /\
    (forall j t sj sj' tj i c k inc p d,
        ts !! j = Some t ->
        trajectory e outs !! j = Some sj -> outs !! j = Some (sj', tj) ->
        collision_vector sj !! i = Some c -> completion_vector sj !! i = Some k ->
        tick_collisions t !! i = Some inc ->
        tick_position t !! i = Some p -> destination (agent sj) !! i = Some d ->
        let reached := Qle_bool (d.1 - p.1) 0 in
        horizon sj = horizon e /\
        collision_vector sj' !! i = Some (c || (inc && negb c)) /\
        completion_vector sj' !! i = Some (k || (reached && negb k)) /\
        goal_reach_bonus tj !! i = Some (b2q (reached && negb k)) /\
        exists o pen,
          original_distances sj !! i = Some o /\
          original_distances e !! i = Some o /\
          penalty tj !! i = Some pen /\
          (~ o == 0 ->
           pen == b2q (inc && negb c) *
                  (1 + spec_normalized_distance (d.1 - p.1) o k
                       * inject_Z (horizon e - tick_nsteps t - 1)
                       / inject_Z (horizon e)) /\
           (inc && negb c = false -> pen == 0))).
Proof.
  intros He Hts Hhz.
  destruct (episode_unroll n ts e He Hts) as (outs & Hep & Hl & Hch).
  exists outs. split; [exact Hep|]. split.
  - intros j j' sj sj' i Hle Hj Hj'.
    replace j' with (j + (j' - j))%nat in Hj' by lia.
    exact (trajectory_flags n e ts outs He Hts Hep _ j sj sj' i Hj Hj').
  - intros j t sj sj' tj i c k inc p d Ht Hj Ho Ec Ek Einc Ep Ed reached.
    destruct (Hch j t Ht) as (sj0 & sj0' & tj0 & Hj0 & Ho0 & Hs0 & Hr0).
    rewrite Hj in Hj0. injection Hj0 as <-.
    rewrite Ho in Ho0. injection Ho0 as <- <-.
    destruct (trajectory_frame n e ts outs He Hts Hep j sj Hj) as (Fo & Fh).
    assert (Hts_t : tick_shaped n t).
    { rewrite Forall_lookup in Hts. eapply Hts; eauto. }
    destruct (row_at_advance n t sj i c k p d Hs0 Hts_t Ec Ek Ep Ed)
      as (s & o & Es & Eo & Hrow).
    pose proof (advance_shaped n t sj Hs0 Hts_t) as Ha.
    destruct Hts_t as (_ & _ & Tc).
    destruct (get_reward_terms_rows n (advance t sj) _ Ha Tc)
      as (e2 & t2 & Hr2 & _ & _ & _ & _ & _ & _ & Hrows).
    rewrite Hr0 in Hr2. injection Hr2 as <- <-.
    destruct (Hrows i _ inc Hrow Einc) as (_ & Hc' & Hk' & _ & _ & Hp' & Hb').
    cbn [reward_row out_collided out_completed out_bonus row_collided
         row_completed row_destination row_position] in Hc', Hk', Hb'.
    split; [exact Fh|]. split; [|split; [|split]].
    + rewrite Hc'. f_equal. destruct c, inc; reflexivity.
    + rewrite Hk'. f_equal. fold reached. destruct k, reached; reflexivity.
    + rewrite Hb'. f_equal. fold reached. destruct k, reached; reflexivity.
    + eexists o, _. split; [exact Eo|]. split; [rewrite <- Fo; exact Eo|].
      split; [exact Hp'|]. intros Hnz.
      assert (Hpen : forall hz,
                 out_penalty
                   (reward_row hz (tick_nsteps t)
                      {| row_position := p; row_destination := d; row_speed := s;
                         row_original := o; row_collided := c; row_completed := k |}
                      inc)
                 == b2q (inc && negb c) *
                    (1 + spec_normalized_distance (d.1 - p.1) o k
                         * inject_Z (hz - tick_nsteps t - 1) / inject_Z hz)).
      { intros hz. rewrite penalty_gated, out_distance_spec. reflexivity. }
      cbn [horizon nsteps advance set_nsteps move_agent set_agent] in *.
      rewrite Hpen, Fh. split; [reflexivity|].
      intros ->. cbn [b2q]. ring.
Qed.

(** C2: when agent [i], whose baseline distance is not zero, enters the
    episode not collided and its incoming collision signal is first true at
    step [k], the episode (with a horizon other than zero) runs to its end
    and, for agent [i], the collision penalty is zero at every step other
    than [k], is the full charge
    [1 + normalized_distance * (horizon - nsteps - 1) / horizon] at step
    [k], with the normalised distance
    [|destination.x - position.x| * NOT completed / baseline] of that step
    (so at least 1 while [0 <= nsteps < horizon] and the baseline distance
    is positive), and the distance term of the reward is zero at every
    step from [k] on. *)
Theorem C2_single_collision_charge
    (n : nat) (e : Env) (ts : list Tick) (i k : nat) (tk : Tick) (o : Q) :
  shaped n e -> Forall (tick_shaped n) ts ->
  (horizon e <> 0)%Z ->
  original_distances e !! i = Some o -> ~ o == 0 ->
  collision_vector e !! i = Some false ->
  (forall j t, (j < k)%nat -> ts !! j = Some t ->
               tick_collisions t !! i = Some false) ->
  ts !! k = Some tk -> tick_collisions tk !! i = Some true ->
  exists outs,
    episode e ts = Ok outs /\ length outs = length ts /\
    forall j sj tj,
      outs !! j = Some (sj, tj) ->
      exists pen dterm,
        penalty tj !! i = Some pen /\ distance_term tj !! i = Some dterm /\
        (j <> k -> pen == 0) /\
        (j = k ->
         exists sp p d was_completed,
           trajectory e outs !! k = Some sp /\
           tick_position tk !! i = Some p /\
           destination (agent sp) !! i = Some d /\
           completion_vector sp !! i = Some was_completed /\
           let nd := spec_normalized_distance (d.1 - p.1) o was_completed in
           pen == 1 + nd * inject_Z (horizon e - tick_nsteps tk - 1)
                      / inject_Z (horizon e) /\
           (0 < o ->
            0 <= nd /\ ((0 <= tick_nsteps tk < horizon e)%Z -> 1 <= pen))) /\
        ((k <= j)%nat -> dterm == 0).
Proof.
  intros He Hts Hhz Eo Hnz Hc0 Hquiet Hk Hinck.
  destruct (episode_unroll n ts e He Hts) as (outs & Hep & Hl & _).
  exists outs. split; [exact Hep|]. split; [exact Hl|].
  assert (Hi : (i < n)%nat).
  { apply lookup_lt_Some in Hc0. destruct He as (_ & _ & _ & _ & Hc & _). lia. }
  pose proof (not_collided_before n e ts outs He Hts Hep i k Hc0 Hquiet) as Hbefore.
  (* the flag is up after step k *)
  assert (Hafter : forall j sj, (k < j)%nat -> trajectory e outs !! j = Some sj ->
                                collision_vector sj !! i = Some true).
  { intros j sj Hlt Hj.
    destruct (lookup_lt_is_Some_2 outs k) as [[sk' tk'] Hok]; [rewrite Hl; eapply lookup_lt_Some; eauto|].
    destruct (episode_step_row n e ts outs He Hts Hep k sk' tk' i Hok Hi)
      as (t & sp & r & inc & Ht & Hp & _ & _ & Hrow & Hinc & _ & _ & Hout).
    destruct Hout as (_ & Hc' & _).
    rewrite Hk in Ht. injection Ht as <-.
    rewrite Hinck in Hinc. injection Hinc as <-.
    apply row_at_advance_flags in Hrow as (Rc & _).
    rewrite (Hbefore k sp ltac:(lia) Hp) in Rc. injection Rc as Rc.
    cbn [reward_row out_collided] in Hc'. rewrite <- Rc in Hc'. simpl in Hc'.
    pose proof (trajectory_succ e outs k sk' tk' Hok) as Hsk.
    replace j with (S k + (j - S k))%nat in Hj by lia.
    exact (proj1 (trajectory_flags n e ts outs He Hts Hep _ _ sk' sj i Hsk Hj) Hc'). }
  intros j sj tj Ho.
  destruct (episode_step_row n e ts outs He Hts Hep j sj tj i Ho Hi)
    as (t & sp & r & inc & Ht & Hp & _ & _ & Hrow & Hinc & _ & _ & Hout).
  destruct Hout as (_ & Hc' & _ & Hd' & _ & Hp' & _).
  destruct (trajectory_frame n e ts outs He Hts Hep j sp Hp) as (Fo & Fh).
  apply row_at_advance_flags in Hrow as (Rc & Rk & Rd & Rp & Ro).
  assert (Horig : row_original r = o).
  { rewrite Fo, Eo in Ro. injection Ro as Ro. symmetry. exact Ro. }
  eexists _, _. split; [exact Hp'|]. split; [exact Hd'|].
  split; [|split].
  - intros Hne. rewrite penalty_gated.
    destruct (Nat.lt_ge_cases j k) as [Hlt | Hge].
    + rewrite (Hquiet j t Hlt Ht) in Hinc. injection Hinc as <-.
      cbn [b2q andb negb]. ring.
    + rewrite (Hafter j sp ltac:(lia) Hp) in Rc. injection Rc as <-.
      rewrite andb_false_r. cbn [b2q andb negb]. ring.
  - intros ->. rewrite Hk in Ht. injection Ht as <-.
    rewrite Hinck in Hinc. injection Hinc as <-.
    rewrite (Hbefore k sp ltac:(lia) Hp) in Rc. injection Rc as Rc.
    exists sp, (row_position r), (row_destination r), (row_completed r).
    split; [exact Hp|]. split; [exact Rp|]. split; [exact Rd|].
    split; [exact Rk|]. cbv zeta.
    assert (Hnd : out_distance (reward_row (horizon sp) (tick_nsteps tk) r true)
                  == spec_normalized_distance
                       ((row_destination r).1 - (row_position r).1) o
                       (row_completed r)).
    { rewrite out_distance_spec, Horig. reflexivity. }
    assert (Hpen : out_penalty (reward_row (horizon sp) (tick_nsteps tk) r true)
                   == 1 + spec_normalized_distance
                            ((row_destination r).1 - (row_position r).1) o
                            (row_completed r)
                          * inject_Z (horizon e - tick_nsteps tk - 1)
                          / inject_Z (horizon e)).
    { rewrite penalty_gated, Hnd. rewrite <- Rc. rewrite Fh.
      cbn [b2q andb negb]. ring. }
    split; [exact Hpen|].
    intros Hpos.
    assert (Hnn : 0 <= spec_normalized_distance
                         ((row_destination r).1 - (row_position r).1) o
                         (row_completed r)).
    { rewrite <- Hnd. apply out_distance_nonneg. rewrite Horig.
      apply Qlt_le_weak. exact Hpos. }
    split; [exact Hnn|].
    intros Hlt. rewrite Hpen.
    set (nd := spec_normalized_distance _ _ _) in *.
    assert (0 <= nd * inject_Z (horizon e - tick_nsteps tk - 1) / inject_Z (horizon e)).
    { unfold Qdiv. apply Qmult_le_0_compat.
      - apply Qmult_le_0_compat; [exact Hnn|].
        change 0 with (inject_Z 0). rewrite <- Zle_Qle. lia.
      - apply Qlt_le_weak, Qinv_lt_0_compat.
        change 0 with (inject_Z 0). rewrite <- Zlt_Qlt.
        lia. }
    lra.
  - intros Hge. cbn [reward_row out_distance_term].
    assert (Hup : row_collided r || negb (row_collided r) && inc = true).
    { destruct (Nat.eq_dec j k) as [-> | Hne].
      - rewrite Hk in Ht. injection Ht as <-.
        rewrite Hinck in Hinc. injection Hinc as <-.
        destruct (row_collided r); reflexivity.
      - rewrite (Hafter j sp ltac:(lia) Hp) in Rc. injection Rc as <-. reflexivity. }
    rewrite Hup. cbn [b2q negb]. unfold Qdiv. ring.
Qed.

Lemma out_destination_completed hz n r inc :
  out_completed (reward_row hz n r inc) = true ->
  pt_eq (out_destination (reward_row hz n r inc)) (row_position r).
Proof.
  cbn [reward_row out_completed out_destination]. intros ->.
  unfold pt_eq, pt_add, pt_scale. cbn [b2q negb fst snd]. split; ring.
Qed.

Lemma out_distance_term_completed hz n r inc :
  row_completed r = true -> out_distance_term (reward_row hz n r inc) == 0.
Proof.
  cbn [reward_row out_distance_term]. intros ->.
  cbn [b2q negb]. unfold Qdiv. ring.
Qed.

(** C3 as the code has it: once a call has set [completed[i]], every call
    from then on overwrites the stored destination of agent [i] with the
    agent's position at that call; and for an agent whose baseline distance
    is not zero, with a horizon other than zero (the code divides by both),
    the distance term of agent [i]'s reward is zero at every later call. *)
Theorem C3_destination_follows_position
    (n : nat) (e : Env) (ts : list Tick) (i : nat) :
  shaped n e -> Forall (tick_shaped n) ts ->
  exists outs,
    episode e ts = Ok outs /\ length outs = length ts /\
    forall k sk tk,
      outs !! k = Some (sk, tk) -> completion_vector sk !! i = Some true ->
      forall j sj tj t p,
        (k <= j)%nat -> outs !! j = Some (sj, tj) ->
        ts !! j = Some t -> tick_position t !! i = Some p ->
        exists d dterm,
          destination (agent sj) !! i = Some d /\ pt_eq d p /\
          distance_term tj !! i = Some dterm /\
          forall o,
            original_distances e !! i = Some o -> ~ o == 0 ->
            (horizon e <> 0)%Z ->
            (k < j)%nat -> dterm == 0.
Proof.
  intros He Hts.
  destruct (episode_unroll n ts e He Hts) as (outs & Hep & Hl & _).
  exists outs. split; [exact Hep|]. split; [exact Hl|].
  intros k sk tk Hok Hdone j sj tj t p Hle Hoj Ht Hp.
  assert (Hi : (i < n)%nat).
  { apply lookup_lt_Some in Hp.
    assert (Hts_t : tick_shaped n t) by (rewrite Forall_lookup in Hts; eapply Hts; eauto).
    destruct Hts_t as (Tp & _). lia. }
  pose proof (trajectory_succ e outs k sk tk Hok) as Hsk.
  destruct (episode_step_row n e ts outs He Hts Hep j sj tj i Hoj Hi)
    as (t' & sp & r & inc & Ht' & Hsp & _ & _ & Hrow & Hinc & _ & _ & Hout).
  rewrite Ht in Ht'. injection Ht' as <-.
  destruct Hout as (Hd' & _ & Hk' & Hdt' & _).
  apply row_at_advance_flags in Hrow as (_ & Rk & _ & Rp & _).
  rewrite Hp in Rp. injection Rp as Rp.
  (* the flag is still up after step j *)
  assert (Hdone_j : completion_vector sj !! i = Some true).
  { pose proof (trajectory_succ e outs j sj tj Hoj) as Hsj.
    replace (S j) with (S k + (j - k))%nat in Hsj by lia.
    exact (proj2 (trajectory_flags n e ts outs He Hts Hep _ _ sk sj i Hsk Hsj) Hdone). }
  rewrite Hk' in Hdone_j. injection Hdone_j as Hdone_j.
  eexists _, _. split; [exact Hd'|]. split; [|split; [exact Hdt'|]].
  - rewrite Rp. apply out_destination_completed. exact Hdone_j.
  - intros o Eo Hnz Hhz Hlt. apply out_distance_term_completed.
    assert (Hpre : completion_vector sp !! i = Some true).
    { replace j with (S k + (j - S k))%nat in Hsp by lia.
      exact (proj2 (trajectory_flags n e ts outs He Hts Hep _ _ sk sp i Hsk Hsp) Hdone). }
    rewrite Hpre in Rk. injection Rk as <-. reflexivity.
Qed.

(** ** Observation builder: raw features *)

Lemma clamp_min_ge m x : m <= clamp_min m x.
Proof.
  unfold clamp_min. destruct (Qle_bool m x) eqn:E.
  - apply Qle_bool_iff. exact E.
  - apply Qle_refl.
Qed.

Lemma clamp_min_max m x : clamp_min m x == Qmax x m.
Proof.
  unfold clamp_min. destruct (Qle_bool m x) eqn:E.
  - apply Qle_bool_iff in E. symmetry. apply Q.max_l. exact E.
  - assert (H : ~ m <= x) by (intros H; apply Qle_bool_iff in H; congruence).
    apply Qnot_le_lt in H. symmetry. apply Q.max_r. apply Qlt_le_weak. exact H.
Qed.

Lemma inv_dist_bounds dist : 0 < inv_dist_of dist /\ inv_dist_of dist <= 1.
Proof.
  unfold inv_dist_of. pose proof (clamp_min_ge 1 dist) as H.
  assert (Hpos : 0 < clamp_min 1 dist) by lra.
  split.
  - unfold Qdiv. rewrite Qmult_1_l. apply Qinv_lt_0_compat. exact Hpos.
  - apply Qle_shift_div_r; [exact Hpos|]. lra.
Qed.

Lemma cat_last_cols4 (a b c d : list Q) :
  length b = length a -> length c = length a -> length d = length a ->
  cat_last [col a; col b; col c; col d] =
  Ok (zip_with app (zip_with app (zip_with app (col a) (col b)) (col c)) (col d)).
Proof.
  intros Hb Hc Hd. unfold cat_last, col. cbn [forallb].
  rewrite !length_fmap, Hb, Hc, Hd, Nat.eqb_refl. reflexivity.
Qed.

(** The raw state, row by row. *)
Lemma raw_state_rows (n : nat) (e : Env) :
  obs_shaped n e ->
  exists obs,
    raw_state e = Ok obs /\ tensor_shape n 4 obs /\
    forall i p d s v a r,
      position (agent e) !! i = Some p ->
      destination (agent e) !! i = Some d ->
      speed (agent e) !! i = Some s ->
      v_lim_of (dynamics e) !! i = Some v ->
      accln_rating e !! i = Some a -> vel_rating e !! i = Some r ->
      obs !! i = Some [1 / clamp_min 1 (Qabs (d.1 - p.1)); s / v; a; r].
Proof.
  intros (Hp & Hd & Hs & Hv & Ha & Hr).
  unfold raw_state. run_bcast.
  rewrite cat_last_cols4 by shape_tac.
  eexists. split; [reflexivity|].
  assert (Hrows : forall i p d s v a r,
    position (agent e) !! i = Some p ->
    destination (agent e) !! i = Some d ->
    speed (agent e) !! i = Some s ->
    v_lim_of (dynamics e) !! i = Some v ->
    accln_rating e !! i = Some a -> vel_rating e !! i = Some r ->
    zip_with app
      (zip_with app
         (zip_with app
            (col (inv_dist_of <$> (Qabs <$> zip_with Qminus
                    (destination (agent e)).*1 (position (agent e)).*1)))
            (col (zip_with Qdiv (speed (agent e)) (v_lim_of (dynamics e)))))
         (col (accln_rating e))) (col (vel_rating e)) !! i
    = Some [1 / clamp_min 1 (Qabs (d.1 - p.1)); s / v; a; r]).
  { intros i p d s v a r Ep Ed Es Ev Ea Er.
    unfold col. change point with (Q * Q)%type in *.
    repeat rewrite ?lookup_zip_with, ?list_lookup_fmap,
      ?Ep, ?Ed, ?Es, ?Ev, ?Ea, ?Er; simpl.
    reflexivity. }
  split; [|exact Hrows].
  split; [unfold col; shape_tac|].
  apply Forall_lookup. intros i row Hrow.
  assert (Hi : (i < n)%nat).
  { apply lookup_lt_Some in Hrow. revert Hrow. unfold col.
    repeat (rewrite length_zip_with || rewrite length_fmap).
    change point with (Q * Q)%type in *. lia. }
  destruct (lookup_lt_is_Some_2 (position (agent e)) i) as [p Ep]; [lia|].
  destruct (lookup_lt_is_Some_2 (destination (agent e)) i) as [d Ed]; [lia|].
  destruct (lookup_lt_is_Some_2 (speed (agent e)) i) as [s Es]; [lia|].
  destruct (lookup_lt_is_Some_2 (v_lim_of (dynamics e)) i) as [v Ev]; [lia|].
  destruct (lookup_lt_is_Some_2 (accln_rating e) i) as [a Ea]; [lia|].
  destruct (lookup_lt_is_Some_2 (vel_rating e) i) as [r Er]; [lia|].
  rewrite (Hrows i p d s v a r Ep Ed Es Ev Ea Er) in Hrow.
  injection Hrow as <-. reflexivity.
Qed.

(** C8: on well-shaped inputs the raw state of the bicycle variants is, for
    every agent and in this order, [1 / max(distance, 1)], the speed over
    the velocity limit of the current dynamics binding, the acceleration
    rating and the velocity rating; the clamped distance is at least 1, so
    the inverse distance divides by a nonzero number and lies in (0, 1];
    without history ([history_len <= 1]) [get_state] returns these rows as
    they are. *)
Theorem C8_raw_state_features (n : nat) (e : Env) :
  obs_shaped n e ->
  exists obs,
    raw_state e = Ok obs /\ length obs = n /\
    (forall fuel lidar_data rand,
        (history_len e <= 1)%Z ->
        get_state fuel lidar_data rand e
        = Ok (e, ObsHistory obs (read_lidar lidar_data rand e))) /\
    forall i p d s v a r,
      position (agent e) !! i = Some p ->
      destination (agent e) !! i = Some d ->
      speed (agent e) !! i = Some s ->
      v_lim_of (dynamics e) !! i = Some v ->
      accln_rating e !! i = Some a -> vel_rating e !! i = Some r ->
      let dist := Qabs (d.1 - p.1) in
      obs !! i = Some [1 / clamp_min 1 dist; s / v; a; r] /\
      clamp_min 1 dist == Qmax dist 1 /\
      1 <= clamp_min 1 dist /\ ~ clamp_min 1 dist == 0 /\
      0 < 1 / clamp_min 1 dist /\ 1 / clamp_min 1 dist <= 1.
Proof.
  intros Hs.
  destruct (raw_state_rows n e Hs) as (obs & Eo & (Hl & _) & Hrows).
  exists obs. split; [exact Eo|]. split; [exact Hl|]. split.
  - intros fuel lidar_data rand Hh. unfold get_state. rewrite Eo.
    cbn [mbind result_bind]. unfold read_history.
    replace (1 <? history_len e)%Z with false by (symmetry; apply Z.ltb_ge; lia).
    reflexivity.
  - intros i p d s v a r Ep Ed Es Ev Ea Er dist.
    split; [exact (Hrows i p d s v a r Ep Ed Es Ev Ea Er)|].
    split; [apply clamp_min_max|]. split; [apply clamp_min_ge|].
    split.
    + pose proof (clamp_min_ge 1 dist) as H. intros H0. rewrite H0 in H. lra.
    + apply (inv_dist_bounds dist).
Qed.

(** ** What the calls of an episode leave alone *)

Lemma bind_Ok_inv {A B} (m : result A) (k : A -> result B) (b : B) :
  (m ≫= k) = Ok b -> exists a, m = Ok a /\ k a = Ok b.
Proof. destruct m as [a|err]; [eauto | discriminate]. Qed.

Ltac inv_binds H :=
  cbv beta zeta in H;
  repeat (let a := fresh "a" in
          let E := fresh "E" in
          apply bind_Ok_inv in H; destruct H as (a & E & H);
          cbv beta zeta in H).

Lemma same_ratings_refl e : same_ratings e e.
Proof. repeat split. Qed.

Lemma same_ratings_trans e1 e2 e3 :
  same_ratings e1 e2 -> same_ratings e2 e3 -> same_ratings e1 e3.
Proof.
  intros (A1 & B1 & C1 & D1 & E1 & F1) (A2 & B2 & C2 & D2 & E2 & F2).
  repeat split; congruence.
Qed.

Lemma get_reward_terms_ratings nc e e' t :
  get_reward_terms nc e = Ok (e', t) -> same_ratings e e'.
Proof.
  unfold get_reward_terms. intros H. inv_binds H.
  injection H as <- <-. repeat split.
Qed.

Lemma get_reward_ratings nc e e' r :
  get_reward nc e = Ok (e', r) -> same_ratings e e'.
Proof.
  unfold get_reward. intros H.
  apply bind_Ok_inv in H. destruct H as ([e1 t] & E & H).
  inv_binds H. injection H as <- <-.
  eapply get_reward_terms_ratings; eauto.
Qed.

Lemma read_history_ratings fuel obs lidar e e' o :
  read_history fuel obs lidar e = Ok (e', o) ->
  same_ratings e e' /\ dynamics e' = dynamics e /\ nsteps e' = nsteps e /\
  agent e' = agent e /\ got_spline_state e' = got_spline_state e.
Proof.
  unfold read_history. intros H.
  destruct (1 <? history_len e)%Z.
  - destruct (fill_queues _ _ _ _ _ _) as [[q1 q2]|]; [|discriminate].
    inv_binds H. injection H as <- <-. repeat split.
  - injection H as <- <-. repeat split.
Qed.

Lemma get_state_ratings fuel lidar_data rand e e' o :
  get_state fuel lidar_data rand e = Ok (e', o) ->
  same_ratings e e' /\ dynamics e' = dynamics e /\ nsteps e' = nsteps e /\
  agent e' = agent e.
Proof.
  unfold get_state. intros H.
  apply bind_Ok_inv in H. destruct H as (obs & E & H). cbv beta zeta in H.
  apply read_history_ratings in H. tauto.
Qed.

Lemma spline_get_state_ratings fuel lidar_data rand e e' o :
  Spline.get_state fuel lidar_data rand e = Ok (e', o) ->
  same_ratings e e' /\ dynamics e' = dynamics e /\ nsteps e' = nsteps e /\
  agent e' = agent e.
Proof.
  unfold Spline.get_state. intros H.
  destruct (negb (got_spline_state e)).
  - injection H as <- <-. repeat split.
  - apply bind_Ok_inv in H. destruct H as (obs & E & H). cbv beta zeta in H.
    apply read_history_ratings in H. tauto.
Qed.

Lemma get_reward_dynamics nc e e' rs :
  get_reward nc e = Ok (e', rs) -> dynamics e' = dynamics e.
Proof.
  unfold get_reward. intros H.
  apply bind_Ok_inv in H. destruct H as ([e1 t] & E & H).
  inv_binds H. injection H as <- <-.
  unfold get_reward_terms in E. inv_binds E. injection E as <- <-.
  reflexivity.
Qed.



(** A stage-0 call that returns has bound a spline model, built from
    [spline_path] and the rating-derived limit, and touched neither the
    ratings nor the step counter. *)
Lemma stage0_inv {A} (super_step : list Q -> Env -> result (Env * A))
    fuel lidar_data rand action e e' r :
  Spline.step super_step fuel lidar_data rand 0 action e = Ok (e', r) ->
  exists path o,
    Spline.spline_path action e = Ok path /\ r = inr o /\
    dynamics e' =
      SplineModel path ((fun x => x * max_velocity e) <$> vel_rating e) /\
    same_ratings e e' /\ nsteps e' = nsteps e /\ agent e' = agent e.
Proof.
  unfold Spline.step. cbn [negb bool_decide]. intros H.
  rewrite bool_decide_eq_true_2 in H by (apply list_elem_of_here).
  cbn [negb Z.eqb] in H. unfold Spline.discrete_to_continuous_actions_v2 in H.
  apply bind_Ok_inv in H. destruct H as (path & Ep & H). cbv beta zeta in H.
  apply bind_Ok_inv in H. destruct H as ([e1 o] & Es & H).
  injection H as <- <-.
  apply spline_get_state_ratings in Es as (R & D & N & G).
  exists path, o. split; [exact Ep|]. split; [reflexivity|].
  split; [exact D|]. split; [exact R|]. split; [exact N | exact G].
Qed.

Lemma reachable_ratings e0 e : reachable e0 e -> same_ratings e0 e.
Proof.
  induction 1 as [| e nc e' r _ IH H | e fuel l rnd e' o _ IH H
                  | e fuel l rnd e' o _ IH H
                  | e A super fuel l rnd a e' o _ IH H
                  | e pos spd n c k _ IH ].
  - apply same_ratings_refl.
  - eapply same_ratings_trans; [exact IH|]. eapply get_reward_ratings; eauto.
  - eapply same_ratings_trans; [exact IH|].
    apply get_state_ratings in H. tauto.
  - eapply same_ratings_trans; [exact IH|].
    apply spline_get_state_ratings in H. tauto.
  - eapply same_ratings_trans; [exact IH|].
    apply stage0_inv in H as (path & o' & _ & _ & _ & R & _). exact R.
  - eapply same_ratings_trans; [exact IH|]. repeat split.
Qed.

(** ** Episode set-up *)

Lemma length_cumsum_from acc xs : length (cumsum_from acc xs) = length xs.
Proof.
  revert acc. induction xs as [|x xs IH]; intros acc; simpl; [reflexivity|].
  rewrite IH. reflexivity.
Qed.

Lemma bcast_one_l {A B C} (f : A -> B -> C) (x : A) (ys : list B) :
  exists zs, bcast f [x] ys = Ok zs /\ length zs = length ys.
Proof.
  unfold bcast. destruct (decide _) as [E|E].
  - eexists. split; [reflexivity|]. rewrite length_zip_with, <- E. simpl. lia.
  - eexists. split; [reflexivity|]. apply length_fmap.
Qed.

Lemma reset_own_ok rand e :
  (0 < nagents e)%nat -> (0 <= history_len e)%Z ->
  exists e0,
    reset_own rand e = Ok e0 /\
    accln_rating e0 = drawn_ratings rand (nagents e) /\
    vel_rating e0 = drawn_ratings rand (nagents e) /\
    max_velocity e0 = 16 /\ nagents e0 = nagents e /\
    history_len e0 = history_len e /\ npoints e0 = npoints e /\
    nsteps e0 = nsteps e /\
    dynamics e0 =
      BicycleKinematicsModel (replicate (nagents e) 4.48)
        ((fun r => r * 16) <$> drawn_ratings rand (nagents e)) /\
    queue1 e0 = deque_new (history_len e) /\
    queue2 e0 = deque_new (history_len e) /\
    length (position (agent e0)) = nagents e /\
    length (destination (agent e0)) = nagents e /\
    length (speed (agent e0)) = nagents e /\
    length (original_distances e0) = nagents e.
Proof.
  intros Hn Hh. unfold reset_own, add_vehicles_to_world. cbv beta zeta.
  unfold cat_pair.
  destruct (decide _) as [E|E].
  2:{ exfalso. apply E. unfold cumsum. rewrite length_cumsum_from.
      cbn [length nagents set_config]. rewrite !length_replicate. lia. }
  rewrite bind_Ok. cbv beta.
  match goal with |- context [bcast ?f [?x] ?ys] =>
    destruct (bcast_one_l f x ys) as (spos & Es & Hspos) end.
  change point with (Q * Q)%type in *. rewrite Es.
  rewrite !bind_Ok. cbv beta.
  cbn [history_len set_config store_dynamics set_dynamics set_agent].
  replace (history_len e <? 0)%Z with false by (symmetry; apply Z.ltb_ge; lia).
  eexists. split; [reflexivity|].
  assert (Hlen : length spos = nagents e).
  { rewrite Hspos, length_zip. unfold cumsum.
    rewrite length_cumsum_from. cbn [length nagents set_config].
    rewrite !length_replicate. lia. }
  cbn. repeat split; try reflexivity.
  - rewrite fmap_replicate. reflexivity.
  - exact Hlen.
  - apply length_replicate.
  - apply length_replicate.
  - unfold distance_from_destination. cbn.
    rewrite length_zip_with, length_replicate, Hlen. lia.
Qed.

(** The rounded sum of a draw in [[0, 1)] lies in [[1, 2]]. *)
Lemma f32_one_plus_bounds (x : Q) :
  0 <= x -> x < 1 -> 1 <= f32_one_plus x /\ f32_one_plus x <= 2.
Proof.
  intros H0 H1. unfold f32_one_plus. cbv zeta.
  set (s := (x + 1) * 8388608).
  assert (Hs0 : 8388608 <= s) by (unfold s; lra).
  assert (Hs1 : s < 16777216) by (unfold s; lra).
  assert (Hf0 : (8388608 <= Qfloor s)%Z).
  { change 8388608%Z with (Qfloor (inject_Z 8388608)).
    apply Qfloor_resp_le. exact Hs0. }
  assert (Hf1 : (Qfloor s < 16777216)%Z).
  { rewrite Zlt_Qlt. eapply Qle_lt_trans; [apply Qfloor_le | exact Hs1]. }
  set (f := Qfloor s) in *.
  assert (Hk : forall k, (f <= k <= f + 1)%Z ->
                         1 <= inject_Z k / 8388608 /\ inject_Z k / 8388608 <= 2).
  { intros k Hk.
    assert (K0 : inject_Z 8388608 <= inject_Z k) by (rewrite <- Zle_Qle; lia).
    assert (K1 : inject_Z k <= inject_Z 16777216) by (rewrite <- Zle_Qle; lia).
    change (inject_Z 8388608) with 8388608 in K0.
    change (inject_Z 16777216) with 16777216 in K1.
    split.
    - apply Qle_shift_div_l; [reflexivity | lra].
    - apply Qle_shift_div_r; [reflexivity | lra]. }
  destruct (s - inject_Z f ?= 1 # 2); [destruct (Z.even f)| |]; apply Hk; lia.
Qed.

Lemma drawn_ratings_lookup rand n i a :
  drawn_ratings rand n !! i = Some a ->
  a = f32_one_plus (rand i) * 0.5 /\ (i < n)%nat.
Proof.
  unfold drawn_ratings. rewrite list_lookup_fmap.
  destruct (seq 0 n !! i) as [j|] eqn:E; [|discriminate].
  apply lookup_seq in E as (-> & Hlt). simpl. intros H. injection H as <-.
  split; [reflexivity | exact Hlt].
Qed.

(** The ratings [reset] draws from draws in [[0, 1)] lie in [[0.5, 1]]. *)
Lemma drawn_ratings_range rand n i a :
  0 <= rand i -> rand i < 1 ->
  drawn_ratings rand n !! i = Some a -> 0.5 <= a /\ a <= 1.
Proof.
  intros H0 H1 Ha. apply drawn_ratings_lookup in Ha as (-> & _).
  destruct (f32_one_plus_bounds (rand i) H0 H1) as (B0 & B1).
  split; lra.
Qed.

(** C9 as the code has it: [reset] draws one rating per agent,
    [(rand + 1) * 0.5] in float32, and stores that same tensor as
    acceleration rating and as velocity rating; no call of the episode
    writes either, so in every state of the episode the two ratings of
    every agent are equal, and lie in the closed interval [[0.5, 1]] when
    the draw lies in [[0, 1)]. *)
Theorem C9_single_rating_draw (rand : nat -> Q) (e : Env) :
  (0 < nagents e)%nat -> (0 <= history_len e)%Z ->
  exists e0,
    reset_own rand e = Ok e0 /\
    accln_rating e0 = drawn_ratings rand (nagents e) /\
    vel_rating e0 = accln_rating e0 /\
    forall e',
      reachable e0 e' ->
      vel_rating e' = accln_rating e' /\
      length (accln_rating e') = nagents e /\
      forall i a v,
        accln_rating e' !! i = Some a -> vel_rating e' !! i = Some v ->
        v = a /\ a = f32_one_plus (rand i) * 0.5 /\
        (0 <= rand i /\ rand i < 1 -> 0.5 <= a /\ a <= 1).
Proof.
  intros Hn Hh.
  destruct (reset_own_ok rand e Hn Hh) as (e0 & Hr & Ha & Hv & _).
  exists e0. split; [exact Hr|]. split; [exact Ha|]. split; [congruence|].
  intros e' Hreach.
  destruct (reachable_ratings e0 e' Hreach) as (Ra & Rv & _).
  split; [congruence|]. split.
  - rewrite Ra, Ha. unfold drawn_ratings. rewrite length_fmap. apply length_seq.
  - intros i a v Ea Ev. rewrite Ra, Ha in Ea. rewrite Rv, Hv in Ev.
    assert (v = a) by congruence. subst v.
    split; [reflexivity|]. split.
    + apply drawn_ratings_lookup in Ea as (-> & _). reflexivity.
    + intros (H0 & H1). exact (drawn_ratings_range rand _ i a H0 H1 Ea).
Qed.

(** ** Spline variant: the stage-0 path *)

Lemma cat_pair_same xs ys :
  length xs = length ys -> cat_pair xs ys = Ok (zip xs ys).
Proof. intros H. unfold cat_pair. destruct (decide _); [reflexivity|contradiction]. Qed.

Lemma stack4_same (a b c d : list point) :
  length b = length a -> length c = length a -> length d = length a ->
  Spline.stack4 a b c d =
  Ok (zip_with (fun x y => x ++ y)
        (zip_with (fun p q => [p; q]) a b)
        (zip_with (fun p q => [p; q]) c d)).
Proof.
  intros Hb Hc Hd. unfold Spline.stack4.
  destruct (decide _) as [|N]; [reflexivity|]. exfalso. apply N. auto.
Qed.

Ltac shape_tac2 :=
  change point with (Q * Q)%type in *;
  repeat (rewrite length_zip_with || rewrite length_fmap
          || rewrite length_replicate || rewrite length_zip);
  cbn [length] in *; change point with (Q * Q)%type in *; lia.

(** The path of a stage-0 call, row by row. *)
Lemma spline_path_rows (n : nat) (action : list Q) (e : Env) :
  length (position (agent e)) = n -> length action = n -> (0 < n)%nat ->
  exists path p0,
    position (agent e) !! 0%nat = Some p0 /\
    Spline.spline_path action e = Ok path /\ length path = n /\
    forall i p a,
      position (agent e) !! i = Some p -> action !! i = Some a ->
      path !! i =
        Some [ p;
               (p.1 + 50, p.2 + a * width e / 2);
               (length_ e / 2, p.2 + a * width e / 2);
               (- length_ e / 2, p0.2) ].
Proof.
  intros Hp Ha Hn. unfold Spline.spline_path. cbv beta zeta.
  destruct (position (agent e)) as [|p0 rest] eqn:Epos.
  { simpl in Hp. lia. }
  eexists _, p0. split; [reflexivity|]. split.
  { cbn [mbind result_bind].
    rewrite bcast_same by shape_tac2. cbn [mbind result_bind].
    rewrite cat_pair_same by shape_tac2. cbn [mbind result_bind].
    rewrite cat_pair_same by shape_tac2. cbn [mbind result_bind].
    rewrite stack4_same by shape_tac2.
    reflexivity. }
  clear Epos. remember (p0 :: rest) as pos eqn:Epos. clear Epos.
  split; [shape_tac2|].
  intros i p a Ep Ei.
  assert (Hi : (i < length action)%nat) by (eapply lookup_lt_Some; eauto).
  change point with (Q * Q)%type in *.
  repeat rewrite ?lookup_zip_with, ?list_lookup_fmap, ?Ep, ?Ei; simpl.
  rewrite !lookup_replicate_2 by lia. simpl.
  rewrite ?Ep; simpl. rewrite ?Ei; simpl. reflexivity.
Qed.

(** ** History queues *)

Lemma deque_append_room {A} (d : deque A) (x : A) :
  (Z.of_nat (length (items d)) < maxlen d)%Z ->
  deque_append d x = {| maxlen := maxlen d; items := items d ++ [x] |}.
Proof.
  intros H. unfold deque_append. cbv zeta.
  replace (maxlen d <? Z.of_nat (length (items d ++ [x])))%Z with false; [reflexivity|].
  symmetry. apply Z.ltb_ge. rewrite length_app. simpl. lia.
Qed.

Lemma deque_append_full {A} (d : deque A) (x : A) :
  Z.of_nat (length (items d)) = maxlen d ->
  deque_append d x = {| maxlen := maxlen d; items := tail (items d ++ [x]) |}.
Proof.
  intros H. unfold deque_append. cbv zeta.
  replace (maxlen d <? Z.of_nat (length (items d ++ [x])))%Z with true; [reflexivity|].
  symmetry. apply Z.ltb_lt. rewrite length_app. simpl. lia.
Qed.

(** The loop stops once it has topped the queues up to the history length;
    any fuel of at least the number of missing entries gives this result. *)
Lemma fill_queues_spec (h : Z) (obs lidar : list (list Q)) :
  forall (k fuel : nat) (q1 q2 : deque (list (list Q))),
    maxlen q1 = h -> maxlen q2 = h ->
    (Z.of_nat (length (items q1) + k) = h)%Z ->
    length (items q2) = length (items q1) ->
    (k <= fuel)%nat ->
    fill_queues fuel h obs lidar q1 q2 =
    Some ({| maxlen := h; items := items q1 ++ replicate k obs |},
          {| maxlen := h; items := items q2 ++ replicate k lidar |}).
Proof.
  induction k as [|k IH]; intros fuel q1 q2 M1 M2 Hlen H12 Hfuel.
  - assert (Hstop : (deque_len q1 <=? h - 1)%Z = false).
    { apply Z.leb_gt. unfold deque_len. lia. }
    destruct q1 as [m1 i1], q2 as [m2 i2]. simpl in *. subst m1 m2.
    destruct fuel; simpl; unfold deque_len in *; simpl in *;
      rewrite Hstop, !app_nil_r; reflexivity.
  - assert (Hgo : (deque_len q1 <=? h - 1)%Z = true).
    { apply Z.leb_le. unfold deque_len. lia. }
    destruct fuel as [|fuel]; [lia|].
    cbn [fill_queues]. rewrite Hgo.
    rewrite (deque_append_room q1) by lia.
    rewrite (deque_append_room q2) by lia.
    rewrite (IH fuel); cbn [maxlen items]; try assumption; try lia.
    + rewrite <- !app_assoc. reflexivity.
    + rewrite length_app. simpl. lia.
    + rewrite !length_app. simpl. lia.
Qed.

(** Rows of a concatenation along the last dimension. *)
Lemma foldl_zip_app_rows (n : nat) (ts : list (list (list Q))) :
  forall (t : list (list Q)),
    length t = n -> Forall (fun u => length u = n) ts ->
    length (foldl (zip_with app) t ts) = n /\
    forall i r rows,
      t !! i = Some r -> Forall2 (fun u x => u !! i = Some x) ts rows ->
      foldl (zip_with app) t ts !! i = Some (r ++ concat rows).
Proof.
  induction ts as [|u ts IH]; intros t Ht Hts.
  - split; [exact Ht|]. intros i r rows Hr Hrows.
    inversion Hrows; subst. simpl. rewrite app_nil_r. exact Hr.
  - inversion Hts as [|? ? Hu Hts']; subst.
    assert (Hz : length (zip_with app t u) = length t).
    { rewrite length_zip_with. lia. }
    destruct (IH (zip_with app t u) Hz Hts') as (L & R).
    split; [exact L|].
    intros i r rows Hr Hrows.
    inversion Hrows as [|? x ? rows' Hx Hrows']; subst.
    cbn [foldl]. rewrite (R i (r ++ x) rows').
    + simpl. rewrite app_assoc. reflexivity.
    + rewrite lookup_zip_with, Hr. simpl. rewrite Hx. reflexivity.
    + exact Hrows'.
Qed.

Lemma forallb_rows (n : nat) (t : list (list Q)) (ts : list (list (list Q))) :
  length t = n -> Forall (fun u => length u = n) ts ->
  forallb (fun u => Nat.eqb (length u) (length t)) ts = true.
Proof.
  intros Ht Hts. apply forallb_forall. intros u Hu.
  rewrite Forall_forall in Hts. apply Nat.eqb_eq. rewrite Ht.
  apply Hts. apply list_elem_of_In. exact Hu.
Qed.

(** [cat_last] on tensors of [n] rows of [w] entries each. *)
Lemma cat_last_shape (n w : nat) (ts : list (list (list Q))) :
  ts <> [] -> Forall (tensor_shape n w) ts ->
  exists out,
    cat_last ts = Ok out /\ tensor_shape n (w * length ts) out /\
    forall i rows,
      Forall2 (fun u x => u !! i = Some x) ts rows ->
      out !! i = Some (concat rows).
Proof.
  intros Hne Hts. destruct ts as [|t ts]; [contradiction|].
  inversion Hts as [|? ? (Ht & Hrt) Hts']; subst.
  assert (Hn : Forall (fun u : list (list Q) => length u = length t) ts).
  { eapply Forall_impl; [exact Hts'|]. intros u (Hu & _). exact Hu. }
  unfold cat_last. rewrite (forallb_rows (length t) t ts eq_refl Hn).
  destruct (foldl_zip_app_rows (length t) ts t eq_refl Hn) as (L & R).
  eexists. split; [reflexivity|]. split; [split; [exact L|]|].
  - apply Forall_lookup. intros i row Hrow.
    assert (Hi : (i < length t)%nat) by (apply lookup_lt_Some in Hrow; lia).
    destruct (lookup_lt_is_Some_2 t i Hi) as [r Hr].
    assert (Hrows : exists rows,
               Forall2 (fun u x => u !! i = Some x) ts rows /\
               Forall (fun x => length x = w) rows).
    { clear - Hts' Hi. induction ts as [|u ts IH].
      - exists []. split; constructor.
      - inversion Hts' as [|? ? (Hu & Hru) Hts'']; subst.
        destruct (IH Hts'') as (rows & F2 & F).
        destruct (lookup_lt_is_Some_2 u i) as [x Hx]; [lia|].
        exists (x :: rows). split; constructor; try assumption.
        rewrite Forall_lookup in Hru. eapply Hru; eauto. }
    destruct Hrows as (rows & F2 & F).
    rewrite (R i r rows Hr F2) in Hrow. injection Hrow as <-.
    rewrite length_app.
    assert (Hr_len : length r = w).
    { rewrite Forall_lookup in Hrt. eapply Hrt; eauto. }
    assert (Hc : length (concat rows) = (w * length rows)%nat).
    { clear - F. induction F as [|x rows Hx _ IH]; simpl; [lia|].
      rewrite length_app, IH, Hx. lia. }
    rewrite Hr_len, Hc. apply Forall2_length in F2. simpl. lia.
  - intros i rows Hrows.
    inversion Hrows as [|? x ? rows' Hx Hrows']; subst.
    rewrite (R i x rows' Hx Hrows'). reflexivity.
Qed.

Lemma tail_app_cons_shape {A} (P : A -> Prop) (l : list A) :
  Forall P l -> Forall P (tail l).
Proof. intros H. destruct l; [exact H|]. inversion H; assumption. Qed.

(** One read of the history, from queues holding [m <= H] entries: the
    queues are topped up with the new observation, the new observation is
    pushed, the oldest entry leaves. *)
Lemma read_history_spec (n k w fuel : nat) (obs lidar : list (list Q)) (e : Env) :
  (1 < history_len e)%Z -> queues_ok n k w e ->
  tensor_shape n k obs -> tensor_shape n w lidar ->
  (Z.to_nat (history_len e) <= fuel)%nat ->
  exists q1 q2 s l,
    read_history fuel obs lidar e = Ok (set_queues e q1 q2, ObsHistory s l) /\
    maxlen q1 = history_len e /\ maxlen q2 = history_len e /\
    items q1 =
      tail (items (queue1 e)
            ++ replicate (Z.to_nat (history_len e) - length (items (queue1 e))) obs
            ++ [obs]) /\
    items q2 =
      tail (items (queue2 e)
            ++ replicate (Z.to_nat (history_len e) - length (items (queue2 e))) lidar
            ++ [lidar]) /\
    Z.of_nat (length (items q1)) = history_len e /\
    Z.of_nat (length (items q2)) = history_len e /\
    queues_ok n k w (set_queues e q1 q2) /\
    cat_last (items q1) = Ok s /\ cat_last (items q2) = Ok l /\
    tensor_shape n (k * Z.to_nat (history_len e)) s /\
    tensor_shape n (w * Z.to_nat (history_len e)) l.
Proof.
  intros Hh (M1 & M2 & L12 & Lh & S1 & S2) Hobs Hlidar Hfuel.
  set (h := history_len e) in *.
  set (m := (Z.to_nat h - length (items (queue1 e)))%nat).
  unfold read_history. fold h.
  replace (1 <? h)%Z with true by (symmetry; apply Z.ltb_lt; exact Hh).
  rewrite (fill_queues_spec h obs lidar m fuel (queue1 e) (queue2 e))
    by (try assumption; unfold m; lia).
  cbv beta iota zeta.
  rewrite (deque_append_full {| maxlen := h; items := items (queue1 e) ++ replicate m obs |})
    by (cbn [items maxlen]; rewrite length_app, length_replicate; unfold m; lia).
  rewrite (deque_append_full {| maxlen := h; items := items (queue2 e) ++ replicate m lidar |})
    by (cbn [items maxlen]; rewrite length_app, length_replicate; unfold m; lia).
  cbn [items maxlen].
  set (i1 := tail ((items (queue1 e) ++ replicate m obs) ++ [obs])).
  set (i2 := tail ((items (queue2 e) ++ replicate m lidar) ++ [lidar])).
  assert (Hl1 : length i1 = Z.to_nat h).
  { unfold i1. rewrite length_tl, !length_app, length_replicate. simpl.
    unfold m. lia. }
  assert (Hl2 : length i2 = Z.to_nat h).
  { unfold i2. rewrite length_tl, !length_app, length_replicate. simpl.
    unfold m. lia. }
  assert (F1 : Forall (tensor_shape n k) i1).
  { unfold i1. apply tail_app_cons_shape. rewrite !Forall_app.
    split; [split; [exact S1 | apply Forall_replicate; exact Hobs]|].
    constructor; [exact Hobs | constructor]. }
  assert (F2 : Forall (tensor_shape n w) i2).
  { unfold i2. apply tail_app_cons_shape. rewrite !Forall_app.
    split; [split; [exact S2 | apply Forall_replicate; exact Hlidar]|].
    constructor; [exact Hlidar | constructor]. }
  assert (N1 : i1 <> []) by (intros E; rewrite E in Hl1; simpl in Hl1; lia).
  assert (N2 : i2 <> []) by (intros E; rewrite E in Hl2; simpl in Hl2; lia).
  destruct (cat_last_shape n k i1 N1 F1) as (s & Es & Ss & _).
  destruct (cat_last_shape n w i2 N2 F2) as (l & El & Sl & _).
  rewrite Es, El. cbn [mbind result_bind].
  exists {| maxlen := h; items := i1 |}, {| maxlen := h; items := i2 |}, s, l.
  cbn [items maxlen].
  split; [reflexivity|]. split; [reflexivity|]. split; [reflexivity|].
  split; [unfold i1; rewrite <- app_assoc; reflexivity|].
  split; [unfold i2, m; rewrite L12, <- app_assoc; reflexivity|].
  split; [lia|]. split; [lia|].
  split.
  { unfold queues_ok. cbn. fold h. repeat split; try assumption; try lia;
      try (apply Forall_forall; intros x Hx; rewrite Forall_forall in F1; apply F1, Hx);
      try (apply Forall_forall; intros x Hx; rewrite Forall_forall in F2; apply F2, Hx). }
  split; [exact Es|]. split; [exact El|].
  rewrite Hl1 in Ss. rewrite Hl2 in Sl. split; assumption.
Qed.

Lemma read_lidar_shape (n w : nat) lidar_data rand e :
  tensor_shape n w lidar_data -> tensor_shape n w (read_lidar lidar_data rand e).
Proof.
  intros (Hl & Hr). unfold read_lidar. cbv zeta.
  assert (H1 : tensor_shape n w
                 ((fun row : list Q => (fun x => 1 / x) <$> row) <$> lidar_data)).
  { split; [rewrite length_fmap; exact Hl|].
    apply Forall_fmap. eapply Forall_impl; [exact Hr|].
    intros row Hrow. simpl. rewrite length_fmap. exact Hrow. }
  destruct (negb (Qle_bool (lidar_noise e) 0)); [|exact H1].
  destruct H1 as (Hl1 & Hr1). unfold lidar_mask. split.
  - rewrite length_imap. exact Hl1.
  - apply Forall_lookup. intros i row Hrow.
    rewrite list_lookup_imap in Hrow.
    destruct (_ !! i) as [row0|] eqn:E; [|discriminate].
    simpl in Hrow. injection Hrow as <-. rewrite length_imap.
    rewrite Forall_lookup in Hr1. eapply Hr1; eauto.
Qed.

(** One [get_state] call with history. *)
Lemma get_state_spec (n w fuel : nat) lidar_data rand (e : Env) :
  (1 < history_len e)%Z -> obs_shaped n e -> queues_ok n 4 w e ->
  tensor_shape n w lidar_data ->
  (Z.to_nat (history_len e) <= fuel)%nat ->
  exists obs q1 q2 s l,
    raw_state e = Ok obs /\
    get_state fuel lidar_data rand e = Ok (set_queues e q1 q2, ObsHistory s l) /\
    maxlen q1 = history_len e /\ maxlen q2 = history_len e /\
    items q1 =
      tail (items (queue1 e)
            ++ replicate (Z.to_nat (history_len e) - length (items (queue1 e))) obs
            ++ [obs]) /\
    items q2 =
      tail (items (queue2 e)
            ++ replicate (Z.to_nat (history_len e) - length (items (queue2 e)))
                 (read_lidar lidar_data rand e)
            ++ [read_lidar lidar_data rand e]) /\
    Z.of_nat (length (items q1)) = history_len e /\
    Z.of_nat (length (items q2)) = history_len e /\
    queues_ok n 4 w (set_queues e q1 q2) /\
    cat_last (items q1) = Ok s /\ cat_last (items q2) = Ok l /\
    tensor_shape n (4 * Z.to_nat (history_len e)) s /\
    tensor_shape n (w * Z.to_nat (history_len e)) l.
Proof.
  intros Hh Hs Hq Hlidar Hfuel.
  destruct (raw_state_rows n e Hs) as (obs & Eo & Hobs & _).
  pose proof (read_lidar_shape n w lidar_data rand e Hlidar) as Hl.
  destruct (read_history_spec n 4 w fuel obs _ e Hh Hq Hobs Hl Hfuel)
    as (q1 & q2 & s & l & Er & Rest).
  exists obs, q1, q2, s, l. split; [exact Eo|]. split; [|exact Rest].
  unfold get_state. rewrite Eo. cbn [mbind result_bind]. exact Er.
Qed.

Lemma hist_inv_scan (n w : nat) (e : Env) (sc : Scan) :
  hist_inv n w e -> scan_shaped n w sc ->
  obs_shaped n (set_agent e (scan_agent sc)) /\
  queues_ok n 4 w (set_agent e (scan_agent sc)).
Proof.
  intros (Hh & Hq & Hv & Ha & Hr) (Sp & Sd & Ss & _).
  split; [|exact Hq]. unfold obs_shaped. cbn. repeat split; assumption.
Qed.

(** A sequence of [get_state] calls, unrolled. *)
Lemma observe_spec (n w fuel : nat) (ss : list Scan) : forall (e : Env),
  hist_inv n w e -> Forall (scan_shaped n w) ss ->
  (Z.to_nat (history_len e) <= fuel)%nat ->
  exists outs,
    observe fuel e ss = Ok outs /\ length outs = length ss /\
    forall j sc ej o,
      ss !! j = Some sc -> outs !! j = Some (ej, o) ->
      exists prev obs s l,
        (e :: outs.*1) !! j = Some prev /\ hist_inv n w prev /\
        history_len prev = history_len e /\
        raw_state (set_agent prev (scan_agent sc)) = Ok obs /\
        o = ObsHistory s l /\
        items (queue1 ej) =
          tail (items (queue1 prev)
                ++ replicate (Z.to_nat (history_len e)
                              - length (items (queue1 prev))) obs
                ++ [obs]) /\
        items (queue2 ej) =
          (let lidar :=
             read_lidar (scan_lidar sc) (scan_rand sc)
               (set_agent prev (scan_agent sc)) in
           tail (items (queue2 prev)
                 ++ replicate (Z.to_nat (history_len e)
                               - length (items (queue2 prev))) lidar
                 ++ [lidar])) /\
        Z.of_nat (length (items (queue1 ej))) = history_len e /\
        Z.of_nat (length (items (queue2 ej))) = history_len e /\
        cat_last (items (queue1 ej)) = Ok s /\
        cat_last (items (queue2 ej)) = Ok l /\
        tensor_shape n (4 * Z.to_nat (history_len e)) s /\
        tensor_shape n (w * Z.to_nat (history_len e)) l.
Proof.
  induction ss as [|sc ss IH]; intros e He Hss Hfuel.
  - exists []. split; [reflexivity|]. split; [reflexivity|].
    intros j sc ej o Hj. destruct j; discriminate.
  - inversion Hss as [|? ? Hsc Hss']; subst.
    destruct (hist_inv_scan n w e sc He Hsc) as (Ho & Hq).
    pose proof He as (Hh & _ & Hv & Ha & Hr).
    destruct Hsc as (_ & _ & _ & Hlid).
    destruct (get_state_spec n w fuel (scan_lidar sc) (scan_rand sc)
                (set_agent e (scan_agent sc)) Hh Ho Hq Hlid Hfuel)
      as (obs & q1 & q2 & s & l & Eo & Eg & M1 & M2 & I1 & I2 & L1 & L2 & Hq' & C1 & C2 & S1 & S2).
    set (e' := set_queues (set_agent e (scan_agent sc)) q1 q2) in *.
    assert (He' : hist_inv n w e').
    { unfold hist_inv. split; [exact Hh|]. split; [exact Hq'|].
      cbn. repeat split; assumption. }
    destruct (IH e' He' Hss' Hfuel) as (outs & Eobs & Hlen & Hch).
    exists ((e', ObsHistory s l) :: outs).
    split; [|split].
    + cbn [observe]. rewrite Eg. cbn [mbind result_bind]. rewrite Eobs. reflexivity.
    + simpl. congruence.
    + intros j scj ej o Hj Hoj. destruct j as [|j].
      * injection Hj as <-. injection Hoj as <- <-.
        exists e, obs, s, l.
        split; [reflexivity|]. split; [exact He|]. split; [reflexivity|].
        split; [exact Eo|]. split; [reflexivity|].
        cbn [e' queue1 queue2 set_queues].
        split; [exact I1|]. split; [exact I2|].
        split; [exact L1|]. split; [exact L2|].
        split; [exact C1|]. split; [exact C2|]. split; assumption.
      * simpl in Hj, Hoj.
        destruct (Hch j scj ej o Hj Hoj)
          as (prev & obsj & sj & lj & P1 & P2 & P3 & Rest).
        exists prev, obsj, sj, lj.
        split; [exact P1|]. split; [exact P2|]. split; [exact P3|].
        exact Rest.
Qed.

(** Reading a queue joins, for every agent, that agent's rows of the
    entries in queue order. *)
Lemma cat_last_rows (ts : list (list (list Q))) (out : list (list Q)) :
  cat_last ts = Ok out ->
  forall i rows,
    Forall2 (fun u x => u !! i = Some x) ts rows ->
    out !! i = Some (concat rows).
Proof.
  unfold cat_last. destruct ts as [|t ts]; [discriminate|].
  destruct (forallb _ ts) eqn:E; [|discriminate].
  intros H. injection H as <-. intros i rows Hrows.
  assert (Hn : Forall (fun u : list (list Q) => length u = length t) ts).
  { apply Forall_forall. intros u Hu.
    rewrite forallb_forall in E. apply Nat.eqb_eq. apply E.
    apply list_elem_of_In. exact Hu. }
  destruct (foldl_zip_app_rows (length t) ts t eq_refl Hn) as (_ & R).
  inversion Hrows as [|? x ? rows' Hx Hrows']; subst.
  rewrite (R i x rows' Hx Hrows'). reflexivity.
Qed.

Lemma tail_replicate_app {A} (k : nat) (x : A) :
  tail (replicate k x ++ [x]) = replicate k x.
Proof.
  destruct k as [|k]; [reflexivity|].
  rewrite <- replicate_S_end. reflexivity.
Qed.

(** C7: in the bicycle variants with history length [H > 1], [reset] leaves
    both queues empty; the first [get_state] call fills them with [H]
    copies of the first observation; every later call drops the oldest entry and appends the
    newest; after every call each queue holds exactly [H] entries, the
    returned state and lidar are the queue entries joined per agent from
    oldest to newest, and their per-agent rows have [4 * H] and
    [npoints * H] entries at every step.  Any fuel of at least [H] for the
    fill loop gives this result. *)
Theorem C7_history_fifo
    (fuel : nat) (rand : nat -> Q) (e_init e0 : Env) (ss : list Scan) :
  (1 < history_len e_init)%Z -> (0 < nagents e_init)%nat ->
  reset_own rand e_init = Ok e0 ->
  Forall (scan_shaped (nagents e_init) (Z.to_nat (npoints e_init))) ss ->
  (Z.to_nat (history_len e_init) <= fuel)%nat ->
  items (queue1 e0) = [] /\ items (queue2 e0) = [] /\
  exists outs,
    observe fuel e0 ss = Ok outs /\ length outs = length ss /\
    forall j sc ej o,
      ss !! j = Some sc -> outs !! j = Some (ej, o) ->
      exists prev obs s l,
        (e0 :: outs.*1) !! j = Some prev /\
        raw_state (set_agent prev (scan_agent sc)) = Ok obs /\
        o = ObsHistory s l /\
        let lidar :=
          read_lidar (scan_lidar sc) (scan_rand sc)
            (set_agent prev (scan_agent sc)) in
        let H := Z.to_nat (history_len e_init) in
        (j = 0%nat ->
         items (queue1 ej) = replicate H obs /\
         items (queue2 ej) = replicate H lidar) /\
        ((0 < j)%nat ->
         items (queue1 ej) = drop 1 (items (queue1 prev)) ++ [obs] /\
         items (queue2 ej) = drop 1 (items (queue2 prev)) ++ [lidar]) /\
        length (items (queue1 ej)) = H /\ length (items (queue2 ej)) = H /\
        cat_last (items (queue1 ej)) = Ok s /\
        cat_last (items (queue2 ej)) = Ok l /\
        (forall i rows,
            Forall2 (fun u x => u !! i = Some x) (items (queue1 ej)) rows ->
            s !! i = Some (concat rows)) /\
        (forall i rows,
            Forall2 (fun u x => u !! i = Some x) (items (queue2 ej)) rows ->
            l !! i = Some (concat rows)) /\
        tensor_shape (nagents e_init) (4 * H) s /\
        tensor_shape (nagents e_init) (Z.to_nat (npoints e_init) * H) l.
Proof.
  intros Hh Hn Hreset Hss Hfuel.
  destruct (reset_own_ok rand e_init Hn ltac:(lia))
    as (e0' & Hr' & Ha & Hv & _ & _ & Hhl & Hnp & _ & Hd & Hq1 & Hq2 & _).
  rewrite Hreset in Hr'. injection Hr' as <-.
  split; [rewrite Hq1; reflexivity|]. split; [rewrite Hq2; reflexivity|].
  set (n := nagents e_init) in *. set (w := Z.to_nat (npoints e_init)) in *.
  assert (Hinv : hist_inv n w e0).
  { unfold hist_inv, queues_ok. rewrite Hq1, Hq2, Hhl, Hd, Ha, Hv.
    cbn [maxlen items deque_new v_lim_of length].
    unfold drawn_ratings. rewrite !length_fmap, length_seq.
    repeat split; try reflexivity; try lia; constructor. }
  rewrite <- Hhl in Hfuel.
  destruct (observe_spec n w fuel ss e0 Hinv Hss Hfuel) as (outs & Eo & Hlen & Hch).
  exists outs. split; [exact Eo|]. split; [exact Hlen|].
  intros j sc ej o Hj Hoj.
  destruct (Hch j sc ej o Hj Hoj)
    as (prev & obs & s & l & P & Pinv & Ph & Er & -> & I1 & I2 & L1 & L2 & C1 & C2 & S1 & S2).
  rewrite Hhl in *.
  exists prev, obs, s, l.
  split; [exact P|]. split; [exact Er|]. split; [reflexivity|].
  cbv zeta in *.
  split; [|split].
  - intros ->. injection P as <-. rewrite Hq1 in I1. rewrite Hq2 in I2.
    cbn [items deque_new length app] in I1, I2. rewrite Nat.sub_0_r in I1, I2.
    rewrite tail_replicate_app in I1, I2. split; assumption.
  - intros Hpos. destruct j as [|j]; [lia|].
    assert (Hprev : exists op, outs !! j = Some (prev, op)).
    { simpl in P. rewrite list_lookup_fmap in P.
      destruct (outs !! j) as [[x op]|]; [|discriminate].
      simpl in P. injection P as <-. eauto. }
    destruct Hprev as (op & Hop).
    destruct (lookup_lt_is_Some_2 ss j) as [scp Hscp].
    { apply lookup_lt_Some in Hj. lia. }
    destruct (Hch j scp prev op Hscp Hop)
      as (pp & po & ps & pl & _ & _ & _ & _ & _ & _ & _ & Lp1 & Lp2 & _).
    rewrite ?Hhl in *.
    assert (K1 : (Z.to_nat (history_len e_init) - length (items (queue1 prev)) = 0)%nat) by lia.
    assert (K2 : (Z.to_nat (history_len e_init) - length (items (queue2 prev)) = 0)%nat) by lia.
    rewrite K1 in I1. rewrite K2 in I2. cbn [replicate app] in I1, I2.
    assert (T : forall (x : list (list Q)) (q : list (list (list Q))),
               q <> [] -> tail (q ++ [x]) = drop 1 q ++ [x]).
    { intros x q Hq. destruct q; [contradiction|]. simpl. rewrite drop_0. reflexivity. }
    rewrite T in I1 by (intros E; rewrite E in Lp1; simpl in Lp1; lia).
    rewrite T in I2 by (intros E; rewrite E in Lp2; simpl in Lp2; lia).
    split; assumption.
  - split; [lia|]. split; [lia|]. split; [exact C1|]. split; [exact C2|].
    split; [exact (cat_last_rows _ _ C1)|]. split; [exact (cat_last_rows _ _ C2)|].
    split; assumption.
Qed.

(** ** Spline variant: the staged step *)

Lemma cat_last_cols2 (a b : list Q) :
  length b = length a ->
  cat_last [col a; col b] = Ok (zip_with app (col a) (col b)).
Proof.
  intros Hb. unfold cat_last, col. cbn [forallb].
  rewrite !length_fmap, Hb, Nat.eqb_refl. reflexivity.
Qed.

Lemma spline_raw_state_ok (n : nat) (e : Env) :
  obs_shaped n e ->
  exists obs, Spline.raw_state e = Ok obs /\ tensor_shape n 2 obs.
Proof.
  intros (Hp & Hd & Hs & Hv & Ha & Hr).
  unfold Spline.raw_state. run_bcast.
  rewrite cat_last_cols2 by shape_tac.
  eexists. split; [reflexivity|].
  split; [unfold col; shape_tac|].
  apply Forall_lookup. intros i row Hrow.
  unfold col in Hrow.
  apply lookup_zip_with_Some in Hrow as (x & y & -> & Hx & Hy).
  apply list_lookup_fmap_Some in Hx as (x' & -> & _).
  apply list_lookup_fmap_Some in Hy as (y' & -> & _).
  reflexivity.
Qed.

(** A read returns whenever the queues are in order and the fill loop has
    fuel for the history length. *)
Lemma read_history_total (n k w fuel : nat) (obs lidar : list (list Q)) (e : Env) :
  queues_ok n k w e -> tensor_shape n k obs -> tensor_shape n w lidar ->
  (Z.to_nat (history_len e) <= fuel)%nat ->
  exists e' s l, read_history fuel obs lidar e = Ok (e', ObsHistory s l).
Proof.
  intros Hq Ho Hl Hfuel.
  destruct (Z.ltb_spec 1 (history_len e)) as [Hh | Hh].
  - destruct (read_history_spec n k w fuel obs lidar e Hh Hq Ho Hl Hfuel)
      as (q1 & q2 & s & l & E & _).
    eauto.
  - unfold read_history.
    replace (1 <? history_len e)%Z with false by (symmetry; apply Z.ltb_ge; lia).
    eauto.
Qed.

Lemma spline_get_state_total (n w fuel : nat) lidar_data rand (e : Env) :
  obs_shaped n e -> queues_ok n 2 w e -> tensor_shape n w lidar_data ->
  (Z.to_nat (history_len e) <= fuel)%nat ->
  exists e' o,
    Spline.get_state fuel lidar_data rand e = Ok (e', o) /\
    (o = ObsRating (accln_rating e) \/ exists s l, o = ObsHistory s l).
Proof.
  intros Hs Hq Hl Hfuel. unfold Spline.get_state.
  destruct (negb (got_spline_state e)).
  - eexists _, _. split; [reflexivity|]. left. reflexivity.
  - destruct (spline_raw_state_ok n e Hs) as (obs & Eo & So).
    rewrite Eo. cbn [mbind result_bind].
    destruct (read_history_total n 2 w fuel obs
                (read_lidar lidar_data rand e) e Hq So
                (read_lidar_shape n w lidar_data rand e Hl) Hfuel)
      as (e' & s & l & E).
    exists e', (ObsHistory s l). split; [exact E|]. right. eauto.
Qed.

(** C10: in a stage-0 call the path of agent [i] is its position, the
    midpoint [(x + 50, y + offset * width / 2)], the endpoint
    [(length / 2, y + offset * width / 2)] and the far anchor
    [(- length / 2, pos[0, 1])]: the anchor's y is agent 0's, whatever the
    agent's own y and offset; this path is what the call binds. *)
Theorem C10_far_anchor_is_first_agents {A}
    (super_step : list Q -> Env -> result (Env * A))
    (fuel : nat) (lidar_data : list (list Q)) (rand : nat -> nat -> Q)
    (n : nat) (action : list Q) (e : Env) :
  length (position (agent e)) = n -> length action = n -> (0 < n)%nat ->
  exists path p0,
    position (agent e) !! 0%nat = Some p0 /\
    Spline.spline_path action e = Ok path /\ length path = n /\
    (forall e' r,
        Spline.step super_step fuel lidar_data rand 0 action e = Ok (e', r) ->
        exists vl, dynamics e' = SplineModel path vl) /\
    forall i p a,
      position (agent e) !! i = Some p -> action !! i = Some a ->
      exists mid last far,
        path !! i = Some [p; mid; last; far] /\
        mid = (p.1 + 50, p.2 + a * width e / 2) /\
        last = (length_ e / 2, p.2 + a * width e / 2) /\
        far = (- length_ e / 2, p0.2).
Proof.
  intros Hp Ha Hn.
  destruct (spline_path_rows n action e Hp Ha Hn) as (path & p0 & E0 & Ep & Hl & Hrows).
  exists path, p0. split; [exact E0|]. split; [exact Ep|]. split; [exact Hl|].
  split.
  - intros e' r Hstep.
    apply stage0_inv in Hstep as (path' & o & Ep' & _ & D & _).
    rewrite Ep in Ep'. injection Ep' as <-. eauto.
  - intros i p a Ei Eai. eexists _, _, _.
    split; [exact (Hrows i p a Ei Eai)|]. repeat split.
Qed.

(** C6: a stage-0 call on a well-shaped environment of an episode returns
    an observation; it rebinds the dynamics to a [SplineModel] built from
    the four-point path of every agent: its position, the midpoint
    [(x + 50, y + offset * width / 2)], the endpoint
    [(length / 2, y + offset * width / 2)] and the far anchor
    [(- length / 2, pos[0, 1])]; the model is an object other than the
    [BicycleKinematicsModel] bound at [reset]; the new binding's velocity
    limit is [vel_rating * max_velocity], equal to the limit of the binding
    made at [reset]; the step counter is unchanged. *)
Theorem C6_stage0_rebinds {A}
    (super_step : list Q -> Env -> result (Env * A))
    (fuel : nat) (lidar_data : list (list Q)) (rand : nat -> nat -> Q)
    (draw : nat -> Q) (e_init e0 e : Env) (w : nat) (action : list Q) :
  (0 < nagents e_init)%nat -> (0 <= history_len e_init)%Z ->
  reset_own draw e_init = Ok e0 -> reachable e0 e ->
  length (position (agent e)) = nagents e_init ->
  length (destination (agent e)) = nagents e_init ->
  length (speed (agent e)) = nagents e_init ->
  length action = nagents e_init ->
  queues_ok (nagents e_init) 2 w e ->
  tensor_shape (nagents e_init) w lidar_data ->
  (Z.to_nat (history_len e_init) <= fuel)%nat ->
  exists path e' o,
    Spline.step super_step fuel lidar_data rand 0 action e = Ok (e', inr o) /\
    (o = ObsRating (accln_rating e) \/ exists s l, o = ObsHistory s l) /\
    Spline.spline_path action e = Ok path /\
    length path = nagents e_init /\
    (forall i pts, path !! i = Some pts -> length pts = 4%nat) /\
    (exists p0,
        position (agent e) !! 0%nat = Some p0 /\
        forall i p a,
          position (agent e) !! i = Some p -> action !! i = Some a ->
          path !! i =
            Some [ p;
                   (p.1 + 50, p.2 + a * width e / 2);
                   (length_ e / 2, p.2 + a * width e / 2);
                   (- length_ e / 2, p0.2) ]) /\
    dynamics e' =
      SplineModel path ((fun r => r * max_velocity e) <$> vel_rating e) /\
    v_lim_of (dynamics e') = v_lim_of (dynamics e0) /\
    (exists dim vl, dynamics e0 = BicycleKinematicsModel dim vl) /\
    dynamics e' <> dynamics e0 /\
    nsteps e' = nsteps e.
Proof.
  intros Hn Hh Hreset Hreach Hp Hd Hs Ha Hq Hlid Hfuel.
  destruct (reset_own_ok draw e_init Hn Hh)
    as (e0' & Hr' & Ra & Rv & Rm & _ & Rh & _ & _ & Rd & _).
  rewrite Hreset in Hr'. injection Hr' as <-.
  destruct (reachable_ratings e0 e Hreach) as (Fa & Fv & Fm & _ & Fh & _).
  destruct (spline_path_rows (nagents e_init) action e Hp Ha Hn)
    as (path & p0 & E0 & Ep & Hl & Hrows).
  set (vl := (fun r => r * max_velocity e) <$> vel_rating e).
  set (e1 := set_dynamics e (SplineModel path vl)).
  assert (Hvl : length vl = nagents e_init).
  { unfold vl. rewrite length_fmap, Fv, Rv. unfold drawn_ratings.
    rewrite length_fmap. apply length_seq. }
  assert (Ho1 : obs_shaped (nagents e_init) e1).
  { unfold obs_shaped. cbn. rewrite Fa, Fv, Ra, Rv. unfold drawn_ratings.
    rewrite !length_fmap, length_seq. repeat split; assumption. }
  assert (Hfuel1 : (Z.to_nat (history_len e1) <= fuel)%nat).
  { cbn. rewrite Fh, Rh. exact Hfuel. }
  destruct (spline_get_state_total (nagents e_init) w fuel lidar_data rand e1
              Ho1 Hq Hlid Hfuel1) as (e' & o & Eg & Hobs).
  assert (Hstep : Spline.step super_step fuel lidar_data rand 0 action e
                  = Ok (e', inr o)).
  { unfold Spline.step.
    rewrite bool_decide_eq_true_2 by (apply list_elem_of_here).
    cbn [negb Z.eqb]. unfold Spline.discrete_to_continuous_actions_v2.
    rewrite Ep. cbn [mbind result_bind]. fold vl. fold e1. rewrite Eg.
    reflexivity. }
  exists path, e', o. split; [exact Hstep|]. split; [exact Hobs|].
  split; [exact Ep|]. split; [exact Hl|].
  apply spline_get_state_ratings in Eg as (_ & D & N & _).
  split.
  { intros i pts Hi.
    assert (Hlt : (i < nagents e_init)%nat) by (apply lookup_lt_Some in Hi; lia).
    destruct (lookup_lt_is_Some_2 (position (agent e)) i) as [p Ei]; [lia|].
    destruct (lookup_lt_is_Some_2 action i) as [a Eai]; [lia|].
    pose proof (Hrows i p a Ei Eai) as Hr.
    assert (E : Some pts = Some [p; (p.1 + 50, p.2 + a * width e / 2);
                                 (length_ e / 2, p.2 + a * width e / 2);
                                 (- length_ e / 2, p0.2)]).
    { transitivity (path !! i); [symmetry; exact Hi | exact Hr]. }
    injection E as ->. reflexivity. }
  split; [exists p0; split; [exact E0 | exact Hrows]|].
  split; [exact D|]. split.
  { rewrite D. cbn [e1 dynamics set_dynamics v_lim_of]. unfold vl.
    rewrite Rd, Fv, Fm, Rv, Rm. reflexivity. }
  split; [rewrite Rd; eauto|]. split.
  { rewrite D, Rd. cbn. discriminate. }
  exact N.
Qed.


(** ** The theorems at the concrete episode *)

Lemma ex_start_shaped : shaped 2 ex_start.
Proof. repeat split. Qed.

Lemma ex_ticks_shaped : Forall (tick_shaped 2) ex_ticks.
Proof. repeat constructor. Qed.

Lemma ex_reset_runs :
  exists obs,
    reset (base_reset (get_state 3 ex_lidar ex_noise)) ex_draws ex_init
    = Ok (ex_start, obs).
Proof. eexists. vm_compute. reflexivity. Qed.

(** The flags after each of the three calls: agent 0 completes at the
    first, agent 1 collides at the second, nothing is ever cleared. *)
Example ex_episode_flags :
  match episode ex_start ex_ticks with
  | Ok outs => (fun p => (collision_vector p.1, completion_vector p.1)) <$> outs
  | Raise _ => []
  end
  = [ ([false; false], [true; false]);
      ([false; true], [true; false]);
      ([false; true], [true; false]) ].
Proof. vm_compute. reflexivity. Qed.

(** Agent 1 is charged once, at the second call:
    [1 + 145/160 * (10 - 2 - 1) / 10]. *)
Example ex_episode_penalty :
  match episode ex_start ex_ticks with
  | Ok outs => (fun p => Qred <$> penalty p.2) <$> outs
  | Raise _ => []
  end
  = [ [0; 0]; [0; 523 # 320]; [0; 0] ].
Proof. vm_compute. reflexivity. Qed.

(** The action table of the spline variant has 25 entries, from -3 to 3. *)
Example ex_action_list :
  length Spline.action_list = 25%nat /\
  Qred <$> Spline.action_list !! 0%nat = Some (- 3) /\
  Qred <$> Spline.action_list !! 24%nat = Some 3.
Proof. vm_compute. repeat split. Qed.

Lemma C1_witness :
  shaped 2 (advance ex_tick2 ex_start) /\
  (horizon (advance ex_tick2 ex_start) <> 0)%Z /\
  exists e' rs,
    get_reward [false; true] (advance ex_tick2 ex_start) = Ok (e', rs) /\
    length rs = 2%nat.
Proof.
  assert (Hs : shaped 2 (advance ex_tick2 ex_start)) by (repeat split).
  assert (Hz : (horizon (advance ex_tick2 ex_start) <> 0)%Z) by (cbn; lia).
  split; [exact Hs|]. split; [exact Hz|].
  destruct (C1_get_reward_formula 2 (advance ex_tick2 ex_start) [false; true]
              Hs eq_refl Hz)
    as (e' & rs & H & L & _).
  exists e', rs. split; [exact H | exact L].
Defined.

Lemma C2_witness :
  collision_vector ex_start !! 1%nat = Some false /\
  original_distances ex_start !! 1%nat = Some (640 # 4) /\
  ex_ticks !! 1%nat = Some ex_tick2 /\
  tick_collisions ex_tick2 !! 1%nat = Some true /\
  exists outs, episode ex_start ex_ticks = Ok outs /\ length outs = 3%nat.
Proof.
  split; [reflexivity|]. split; [reflexivity|].
  split; [reflexivity|]. split; [reflexivity|].
  destruct (C2_single_collision_charge 2 ex_start ex_ticks 1 1 ex_tick2 (640 # 4))
    as (outs & H & L & _).
  - exact ex_start_shaped.
  - exact ex_ticks_shaped.
  - cbn. lia.
  - reflexivity.
  - intros H. vm_compute in H. discriminate H.
  - reflexivity.
  - intros j t Hj Ht. destruct j as [|j]; [|lia].
    injection Ht as <-. reflexivity.
  - reflexivity.
  - reflexivity.
  - exists outs. split; [exact H | exact L].
Defined.

Lemma C3_witness :
  shaped 2 ex_start /\ Forall (tick_shaped 2) ex_ticks /\
  original_distances ex_start !! 0%nat = Some (680 # 4) /\
  exists outs, episode ex_start ex_ticks = Ok outs /\ length outs = 3%nat.
Proof.
  split; [exact ex_start_shaped|]. split; [exact ex_ticks_shaped|].
  split; [reflexivity|].
  destruct (C3_destination_follows_position 2 ex_start ex_ticks 0
              ex_start_shaped ex_ticks_shaped) as (outs & H & L & _).
  exists outs. split; [exact H | exact L].
Defined.

(** C3 as it is worded fails: agent 0 completes at the first call, where
    its destination becomes its position [(80, 0)]; it keeps moving, and the
    second call stores [(81, 0)]. *)
Lemma C3_counterexample :
  exists outs s1 t1 s2 t2 d1 d2,
    episode ex_start ex_ticks = Ok outs /\
    outs !! 0%nat = Some (s1, t1) /\ outs !! 1%nat = Some (s2, t2) /\
    completion_vector s1 !! 0%nat = Some true /\
    destination (agent s1) !! 0%nat = Some d1 /\
    destination (agent s2) !! 0%nat = Some d2 /\
    ~ pt_eq d1 d2.
Proof.
  eexists _, _, _, _, _, _, _.
  split; [vm_compute; reflexivity|].
  split; [reflexivity|]. split; [reflexivity|].
  split; [reflexivity|]. split; [reflexivity|]. split; [reflexivity|].
  intros [H _]. vm_compute in H. discriminate H.
Qed.

Lemma C5_witness :
  shaped 2 ex_start /\ Forall (tick_shaped 2) ex_ticks /\
  (horizon ex_start <> 0)%Z /\
  exists outs, episode ex_start ex_ticks = Ok outs.
Proof.
  assert (Hz : (horizon ex_start <> 0)%Z) by (cbn; lia).
  split; [exact ex_start_shaped|]. split; [exact ex_ticks_shaped|].
  split; [exact Hz|].
  destruct (C5_flags_monotone_and_events 2 ex_start ex_ticks
              ex_start_shaped ex_ticks_shaped Hz) as (outs & H & _).
  exists outs. exact H.
Defined.

Lemma ex_own_runs : reset_own ex_draws ex_init = Ok ex_own.
Proof. vm_compute. reflexivity. Qed.

Lemma ex_spline_reset_runs :
  Spline.reset (base_reset (Spline.get_state 3 ex_lidar ex_noise))
    ex_draws ex_init
  = Ok (ex_spline_start, ObsRating (accln_rating ex_spline_start)).
Proof. vm_compute. reflexivity. Qed.

Lemma ex_spline_start_reachable : reachable ex_own ex_spline_start.
Proof.
  eapply (reach_spline_state ex_own
            (set_flags (set_nsteps
                          (move_agent ex_own (position (agent ex_own))
                             (speed (agent ex_own))) 0)
               [false; false] [false; false])
            3 ex_lidar ex_noise).
  - apply reach_base. apply reach_start.
  - vm_compute. reflexivity.
Qed.




(** After a stage-0 call has committed a path, the same stage-1 call
    returns. *)
Example ex_stage1_after_stage0 :
  match Spline.step ex_super_step 3 ex_lidar ex_noise 0 [1 # 2; - (1 # 2)]
          ex_spline_start with
  | Ok (e1, _) =>
      match Spline.step ex_super_step 3 ex_lidar ex_noise 1 [12; 14] e1 with
      | Ok (_, inl (_, rew, done)) => Some (length rew, done)
      | _ => None
      end
  | Raise _ => None
  end = Some (2%nat, false).
Proof. vm_compute. reflexivity. Qed.

Lemma C6_witness :
  reset_own ex_draws ex_init = Ok ex_own /\
  reachable ex_own ex_spline_start /\
  exists path e' o,
    Spline.step ex_super_step 3 ex_lidar ex_noise 0 [1 # 2; - (1 # 2)]
      ex_spline_start = Ok (e', inr o) /\
    Spline.spline_path [1 # 2; - (1 # 2)] ex_spline_start = Ok path /\
    v_lim_of (dynamics e') = v_lim_of (dynamics ex_own) /\
    nsteps e' = nsteps ex_spline_start.
Proof.
  split; [exact ex_own_runs|]. split; [exact ex_spline_start_reachable|].
  destruct (C6_stage0_rebinds ex_super_step 3 ex_lidar ex_noise ex_draws
              ex_init ex_own ex_spline_start 2 [1 # 2; - (1 # 2)])
    as (path & e' & o & Hs & _ & Hp & _ & _ & _ & _ & Hv & _ & _ & Hn).
  - cbn. lia.
  - cbn. lia.
  - exact ex_own_runs.
  - exact ex_spline_start_reachable.
  - reflexivity.
  - reflexivity.
  - reflexivity.
  - reflexivity.
  - unfold queues_ok. cbn. repeat split; try lia; constructor.
  - split; [reflexivity|]. repeat constructor.
  - cbn. lia.
  - exists path, e', o. repeat split; assumption.
Defined.

Lemma C7_witness :
  reset_own ex_draws ex_init = Ok ex_own /\
  exists outs, observe 3 ex_own ex_scans = Ok outs /\ length outs = 2%nat.
Proof.
  split; [exact ex_own_runs|].
  destruct (C7_history_fifo 3 ex_draws ex_init ex_own ex_scans)
    as (_ & _ & outs & Ho & Hl & _).
  - cbn. lia.
  - cbn. lia.
  - exact ex_own_runs.
  - repeat constructor.
  - cbn. lia.
  - exists outs. split; [exact Ho | exact Hl].
Defined.

Lemma C8_witness :
  obs_shaped 2 ex_start /\
  exists obs, raw_state ex_start = Ok obs /\ length obs = 2%nat.
Proof.
  assert (Hs : obs_shaped 2 ex_start) by (repeat split).
  split; [exact Hs|].
  destruct (C8_raw_state_features 2 ex_start Hs) as (obs & Ho & Hl & _).
  exists obs. split; [exact Ho | exact Hl].
Defined.

Lemma C9_witness :
  exists e0,
    reset_own ex_draws ex_init = Ok e0 /\ vel_rating e0 = accln_rating e0.
Proof.
  destruct (C9_single_rating_draw ex_draws ex_init) as (e0 & Hr & _ & Hv & _).
  - cbn. lia.
  - cbn. lia.
  - exists e0. split; [exact Hr | exact Hv].
Defined.

(** C9 as it is worded fails at the upper end: the largest draw,
    [1 - 2^-24], lies in [0, 1), its float32 sum with 1 rounds up to 2, and
    the rating is exactly 1, not below it. *)
Lemma C9_counterexample :
  (0 <= ex_top_draw 0 /\ ex_top_draw 0 < 1) /\
  exists e0 a,
    reset_own ex_top_draw (env_init 2 3 10 1 0) = Ok e0 /\
    accln_rating e0 !! 0%nat = Some a /\
    vel_rating e0 !! 0%nat = Some a /\
    a == 1 /\ ~ a < 1.
Proof.
  split; [split; [discriminate | reflexivity]|].
  eexists _, _. split; [vm_compute; reflexivity|].
  split; [reflexivity|]. split; [reflexivity|].
  split; [reflexivity|]. intros H. vm_compute in H. discriminate H.
Qed.

Lemma C10_witness :
  exists path p0,
    position (agent ex_spline_start) !! 0%nat = Some p0 /\
    Spline.spline_path [1 # 2; - (1 # 2)] ex_spline_start = Ok path.
Proof.
  destruct (C10_far_anchor_is_first_agents ex_super_step 3 ex_lidar ex_noise
              2 [1 # 2; - (1 # 2)] ex_spline_start)
    as (path & p0 & H0 & Hp & _).
  - reflexivity.
  - reflexivity.
  - lia.
  - exists path, p0. split; [exact H0 | exact Hp].
Defined.

(** * Further properties of the environment classes *)

(** ** The collision mask *)

Lemma sub_block_lookup (i : nat) (m : list (list Q)) (r c : nat) row x :
  m !! r = Some row -> row !! c = Some x ->
  exists row',
    sub_block i m !! r = Some row' /\ length row' = length row /\
    row' !! c =
      Some (if (Nat.leb i r && Nat.ltb r (i + 4)
                && Nat.leb i c && Nat.ltb c (i + 4))%bool
            then x - 1 else x).
Proof.
  intros Hr Hc. unfold sub_block. rewrite list_lookup_imap, Hr. simpl.
  eexists. split; [reflexivity|]. split; [apply length_imap|].
  rewrite list_lookup_imap, Hc. reflexivity.
Qed.

Lemma sub_block_length (i : nat) (m : list (list Q)) :
  length (sub_block i m) = length m.
Proof. unfold sub_block. apply length_imap. Qed.

Lemma in_block_div (k r c : nat) :
  (Nat.leb (4 * k) r && Nat.ltb r (4 * k + 4)
   && Nat.leb (4 * k) c && Nat.ltb c (4 * k + 4))%bool
  = (Nat.eqb (r / 4) k && Nat.eqb (c / 4) k)%bool.
Proof.
  assert (D : forall x, (4 * k <= x < 4 * k + 4 <-> x / 4 = k)%nat).
  { intros x. pose proof (Nat.div_mod_eq x 4) as E.
    pose proof (Nat.mod_upper_bound x 4 ltac:(lia)) as B. lia. }
  apply Bool.eq_iff_eq_true.
  rewrite !andb_true_iff, !Nat.leb_le, !Nat.ltb_lt, !Nat.eqb_eq.
  rewrite <- (D r), <- (D c). lia.
Qed.

(** After the first [k] blocks have been cleared, an entry is [1 - 1] in
    those blocks and [1] elsewhere. *)
Lemma cleared_blocks (n k : nat) :
  (k <= n)%nat ->
  let m := foldl (fun m i => sub_block i m)
             (replicate (n * 4) (replicate (n * 4) 1)) (block_starts k) in
  length m = (n * 4)%nat /\
  forall r c, (r < n * 4)%nat -> (c < n * 4)%nat ->
    exists row,
      m !! r = Some row /\ length row = (n * 4)%nat /\
      row !! c =
        Some (if (Nat.eqb (r / 4) (c / 4) && Nat.ltb (r / 4) k)%bool
              then 1 - 1 else 1).
Proof.
  induction k as [|k IH]; intros Hk m.
  - subst m. cbn [block_starts seq fmap list_fmap foldl].
    split; [apply length_replicate|].
    intros r c Hr Hc. exists (replicate (n * 4) 1).
    split; [apply lookup_replicate_2; exact Hr|].
    split; [apply length_replicate|].
    rewrite andb_false_r. apply lookup_replicate_2; exact Hc.
  - subst m. unfold block_starts. rewrite seq_S, fmap_app, foldl_app.
    cbn [fmap list_fmap foldl Nat.add].
    destruct (IH ltac:(lia)) as (Hl & Hrows). fold (block_starts k).
    split; [rewrite sub_block_length; exact Hl|].
    intros r c Hr Hc.
    destruct (Hrows r c Hr Hc) as (row & Er & Lr & Ec).
    destruct (sub_block_lookup (4 * k) _ r c row _ Er Ec) as (row' & Er' & Lr' & Ec').
    exists row'. split; [exact Er'|]. split; [lia|].
    rewrite Ec'. f_equal. rewrite in_block_div.
    destruct (Nat.eqb_spec (r / 4) k) as [E1|E1];
      destruct (Nat.eqb_spec (c / 4) k) as [E2|E2]; cbn [andb].
    + rewrite E1, E2, Nat.eqb_refl.
      replace (k <? k)%nat with false by (symmetry; apply Nat.ltb_ge; lia).
      replace (k <? S k)%nat with true by (symmetry; apply Nat.ltb_lt; lia).
      reflexivity.
    + rewrite E1.
      replace (k =? c / 4)%nat with false
        by (symmetry; apply Nat.eqb_neq; congruence).
      reflexivity.
    + destruct (Nat.eqb_spec (r / 4) (c / 4)) as [E3|E3]; [congruence|].
      reflexivity.
    + destruct (Nat.eqb_spec (r / 4) (c / 4)) as [E3|E3]; cbn [andb]; [|reflexivity].
      destruct (Nat.ltb_spec (r / 4) k), (Nat.ltb_spec (r / 4) (S k));
        try reflexivity; lia.
Qed.

(** X1: the mask [__init__] builds is square of side [4 * nagents]; its
    entry [(i, j)] is false exactly when [i] and [j] fall in the same block
    of four, so the mask is symmetric and false on the diagonal. *)
Theorem X1_bool_buffer_blocks (n i j : nat) :
  (i < n * 4)%nat -> (j < n * 4)%nat ->
  length (bool_buffer n) = (n * 4)%nat /\
  exists row row',
    bool_buffer n !! i = Some row /\ length row = (n * 4)%nat /\
    row !! j = Some (negb (Nat.eqb (i / 4) (j / 4))) /\
    bool_buffer n !! j = Some row' /\ row' !! i = row !! j /\
    row !! i = Some false.
Proof.
  intros Hi Hj.
  destruct (cleared_blocks n n (Nat.le_refl n)) as (Hl & Hrows).
  assert (Hd : forall r, (r < n * 4)%nat -> (r / 4 <? n)%nat = true).
  { intros r Hr. apply Nat.ltb_lt. apply Nat.Div0.div_lt_upper_bound. lia. }
  assert (Hent : forall r c, (r < n * 4)%nat -> (c < n * 4)%nat ->
            exists row, bool_buffer n !! r = Some row /\
                        length row = (n * 4)%nat /\
                        row !! c = Some (negb (Nat.eqb (r / 4) (c / 4)))).
  { intros r c Hr Hc. destruct (Hrows r c Hr Hc) as (row & Er & Lr & Ec).
    unfold bool_buffer. cbv zeta. rewrite list_lookup_fmap, Er.
    cbn [fmap option_fmap option_map].
    eexists. split; [reflexivity|]. split; [rewrite length_fmap; exact Lr|].
    rewrite list_lookup_fmap, Ec. cbn [fmap option_fmap option_map]. f_equal.
    rewrite (Hd r Hr), andb_true_r.
    destruct (r / 4 =? c / 4)%nat; reflexivity. }
  split.
  { unfold bool_buffer. cbv zeta. rewrite length_fmap. exact Hl. }
  destruct (Hent i j Hi Hj) as (row & Er & Lr & Ec).
  destruct (Hent j i Hj Hi) as (row' & Er' & _ & Ec').
  destruct (Hent i i Hi Hi) as (row2 & Er2 & _ & Ec2).
  rewrite Er in Er2. injection Er2 as <-.
  exists row, row'. split; [exact Er|]. split; [exact Lr|]. split; [exact Ec|].
  split; [exact Er'|]. split.
  - rewrite Ec, Ec'. rewrite (Nat.eqb_sym (j / 4)). reflexivity.
  - rewrite Ec2, Nat.eqb_refl. reflexivity.
Qed.

Lemma X1_witness :
  exists row, bool_buffer 2 !! 5%nat = Some row /\ row !! 2%nat = Some true.
Proof.
  destruct (X1_bool_buffer_blocks 2 5 2) as (_ & row & _ & Er & _ & Ec & _);
    [lia | lia |].
  exists row. split; [exact Er | exact Ec].
Defined.

(** ** The reward engine, further *)

(** [get_reward] row by row: the reward is the combination of the row's
    four summands. *)
Lemma get_reward_rows (n : nat) (e : Env) (nc : list bool) :
  shaped n e -> length nc = n ->
  exists e' t rs,
    get_reward_terms nc e = Ok (e', t) /\
    get_reward nc e = Ok (e', rs) /\ length rs = n /\ shaped n e' /\
    forall i r inc,
      row_at e i = Some r -> nc !! i = Some inc ->
      let o := reward_row (horizon e) (nsteps e) r inc in
      rs !! i = Some (out_distance_term o - out_speed_term o
                      - out_penalty o + out_bonus o) /\
      destination (agent e') !! i = Some (out_destination o) /\
      collision_vector e' !! i = Some (out_collided o) /\
      completion_vector e' !! i = Some (out_completed o) /\
      penalty t !! i = Some (out_penalty o) /\
      goal_reach_bonus t !! i = Some (out_bonus o).
Proof.
  intros Hs Hn.
  destruct (get_reward_terms_rows n e nc Hs Hn)
    as (e' & t & Ht & Hs' & _ & L1 & L2 & L3 & L4 & Hrows).
  unfold get_reward. rewrite Ht. rewrite bind_Ok. run_bcast.
  eexists e', t, _. split; [reflexivity|]. split; [reflexivity|].
  split; [shape_tac|]. split; [exact Hs'|].
  intros i r inc Hr Hinc.
  destruct (Hrows i r inc Hr Hinc) as (Hd' & Hc & Hk & Hd & Hsp & Hp & Hb).
  split; [|split; [exact Hd'|split; [exact Hc|split; [exact Hk|split; [exact Hp|exact Hb]]]]].
  rewrite !lookup_zip_with, Hd, Hsp, Hp, Hb. reflexivity.
Qed.

Lemma out_penalty_nonneg hz n r inc :
  (0 <= n < hz)%Z -> 0 <= row_original r ->
  0 <= out_penalty (reward_row hz n r inc).
Proof.
  intros Hn Ho. rewrite penalty_gated.
  pose proof (out_distance_nonneg hz n r inc Ho) as Hd.
  set (nd := out_distance _) in *.
  assert (0 <= nd * inject_Z (hz - n - 1) / inject_Z hz).
  { unfold Qdiv. apply Qmult_le_0_compat.
    - apply Qmult_le_0_compat; [exact Hd|].
      change 0 with (inject_Z 0). rewrite <- Zle_Qle. lia.
    - apply Qlt_le_weak, Qinv_lt_0_compat.
      change 0 with (inject_Z 0). rewrite <- Zlt_Qlt. lia. }
  apply Qmult_le_0_compat; [apply b2q_nonneg | lra].
Qed.

Lemma out_terms_sign hz n r inc :
  (0 < hz)%Z -> 0 <= row_original r ->
  out_distance_term (reward_row hz n r inc) <= 0 /\
  0 <= out_speed_term (reward_row hz n r inc).
Proof.
  intros Hh Ho.
  pose proof (out_distance_nonneg hz n r inc Ho) as Hd.
  assert (Hi : 0 <= / inject_Z hz).
  { apply Qlt_le_weak, Qinv_lt_0_compat.
    change 0 with (inject_Z 0). rewrite <- Zlt_Qlt. lia. }
  cbn [reward_row out_distance_term out_speed_term out_distance] in *.
  set (nd := Qabs _ * _) in *. split.
  - unfold Qdiv.
    assert (0 <= nd * b2q (negb (row_collided r || negb (row_collided r) && inc)) * / inject_Z hz).
    { apply Qmult_le_0_compat; [|exact Hi].
      apply Qmult_le_0_compat; [exact Hd | apply b2q_nonneg]. }
    lra.
  - unfold Qdiv. apply Qmult_le_0_compat; [|exact Hi].
    apply Qmult_le_0_compat; [apply Qabs_nonneg | apply b2q_nonneg].
Qed.

(** X3: while [0 <= nsteps < horizon], the reward of every agent whose
    baseline distance is positive is at most its goal bonus: it is at most
    1, and it is at most 0 when the agent does not newly reach its goal at
    this call. *)
Theorem X3_reward_at_most_goal_bonus (n : nat) (e : Env) (nc : list bool) :
  shaped n e -> length nc = n ->
  (0 <= nsteps e < horizon e)%Z ->
  exists e' rs,
    get_reward nc e = Ok (e', rs) /\ length rs = n /\
    forall i x p d k o,
      rs !! i = Some x ->
      position (agent e) !! i = Some p ->
      destination (agent e) !! i = Some d ->
      completion_vector e !! i = Some k ->
      original_distances e !! i = Some o -> 0 < o ->
      x <= 1 /\
      (negb k && Qle_bool (d.1 - p.1) 0 = false -> x <= 0).
Proof.
  intros Hs Hn Hstep.
  destruct (get_reward_rows n e nc Hs Hn) as (e' & t & rs & _ & Hr & Hl & _ & Hrows).
  exists e', rs. split; [exact Hr|]. split; [exact Hl|].
  intros i x p d k o Hx Hp Hd Hk Eo Hpos.
  assert (Hi : (i < n)%nat) by (apply lookup_lt_Some in Hx; lia).
  destruct (row_at_Some n e i Hs Hi) as [r Hrow].
  destruct (lookup_lt_is_Some_2 nc i) as [inc Hinc]; [lia|].
  destruct (Hrows i r inc Hrow Hinc) as (Hx' & _). cbv zeta in Hx'.
  rewrite Hx in Hx'. apply (inj Some) in Hx'. subst x.
  apply row_at_inv in Hrow as (Rp & Rd & _ & Ro & _ & Rk).
  change point with (Q * Q)%type in *.
  rewrite Hp in Rp. injection Rp as Rp. rewrite Hd in Rd. injection Rd as Rd.
  rewrite Hk in Rk. injection Rk as Rk.
  assert (Ho : 0 <= row_original r).
  { rewrite Eo in Ro. injection Ro as <-. apply Qlt_le_weak. exact Hpos. }
  destruct (out_terms_sign (horizon e) (nsteps e) r inc ltac:(lia) Ho) as (T1 & T2).
  pose proof (out_penalty_nonneg (horizon e) (nsteps e) r inc Hstep Ho) as T3.
  assert (Hb : out_bonus (reward_row (horizon e) (nsteps e) r inc)
               = b2q (negb k && Qle_bool (d.1 - p.1) 0)).
  { cbn [reward_row out_bonus]. rewrite <- Rp, <- Rd, <- Rk. reflexivity. }
  rewrite Hb.
  set (a := out_distance_term _) in *. set (b := out_speed_term _) in *.
  set (c := out_penalty _) in *.
  split.
  - destruct (negb k && Qle_bool (d.1 - p.1) 0); cbn [b2q]; lra.
  - intros ->. cbn [b2q]. lra.
Qed.

(** X4: a collision costs more the earlier it happens: with a positive
    horizon, the collision penalty computed at step [n1] is at least the
    one computed at a later step [n2], for every agent whose baseline
    distance is positive. *)
Theorem X4_penalty_decreases_with_nsteps
    (n : nat) (e : Env) (nc : list bool) (n1 n2 : Z) :
  shaped n e -> length nc = n ->
  (0 < horizon e)%Z -> (n1 <= n2)%Z ->
  exists e1 t1 e2 t2,
    get_reward_terms nc (set_nsteps e n1) = Ok (e1, t1) /\
    get_reward_terms nc (set_nsteps e n2) = Ok (e2, t2) /\
    forall i x1 x2 o,
      penalty t1 !! i = Some x1 -> penalty t2 !! i = Some x2 ->
      original_distances e !! i = Some o -> 0 < o ->
      x2 <= x1.
Proof.
  intros Hs Hn Hh Hle.
  assert (S1 : shaped n (set_nsteps e n1)) by exact Hs.
  assert (S2 : shaped n (set_nsteps e n2)) by exact Hs.
  destruct (get_reward_terms_rows n _ nc S1 Hn)
    as (e1 & t1 & E1 & _ & _ & _ & _ & L1 & _ & R1).
  destruct (get_reward_terms_rows n _ nc S2 Hn)
    as (e2 & t2 & E2 & _ & _ & _ & _ & L2 & _ & R2).
  exists e1, t1, e2, t2. split; [exact E1|]. split; [exact E2|].
  intros i x1 x2 o H1 H2 Eo Hpos.
  assert (Hi : (i < n)%nat) by (apply lookup_lt_Some in H1; lia).
  destruct (row_at_Some n e i Hs Hi) as [r Hrow].
  destruct (lookup_lt_is_Some_2 nc i) as [inc Hinc]; [lia|].
  destruct (R1 i r inc Hrow Hinc) as (_ & _ & _ & _ & _ & P1 & _).
  destruct (R2 i r inc Hrow Hinc) as (_ & _ & _ & _ & _ & P2 & _).
  rewrite H1 in P1. apply (inj Some) in P1. subst x1.
  rewrite H2 in P2. apply (inj Some) in P2. subst x2.
  apply row_at_inv in Hrow as (_ & _ & _ & Ro & _ & _).
  assert (Ho : 0 <= row_original r).
  { rewrite Eo in Ro. injection Ro as <-. apply Qlt_le_weak. exact Hpos. }
  cbn [horizon nsteps set_nsteps].
  rewrite !penalty_gated.
  pose proof (out_distance_nonneg (horizon e) n1 r inc Ho) as Hd.
  cbn [reward_row out_distance] in *. set (nd := Qabs _ * _) in *.
  assert (Hi' : 0 < / inject_Z (horizon e)).
  { apply Qinv_lt_0_compat. change 0 with (inject_Z 0). rewrite <- Zlt_Qlt. lia. }
  assert (Hk : inject_Z (horizon e - n2 - 1) <= inject_Z (horizon e - n1 - 1)).
  { rewrite <- Zle_Qle. lia. }
  assert (Hm : nd * inject_Z (horizon e - n2 - 1) / inject_Z (horizon e)
               <= nd * inject_Z (horizon e - n1 - 1) / inject_Z (horizon e)).
  { unfold Qdiv. apply Qmult_le_compat_r; [|lra].
    rewrite !(Qmult_comm nd). apply Qmult_le_compat_r; assumption. }
  pose proof (b2q_nonneg (inc && negb (row_collided r))) as Hb.
  set (b := b2q _) in *.
  set (u := nd * inject_Z (horizon e - n2 - 1) / inject_Z (horizon e)) in *.
  set (v := nd * inject_Z (horizon e - n1 - 1) / inject_Z (horizon e)) in *.
  nra.
Qed.

Lemma bcast_row_r {A B C} (f : A -> B -> C) (xs : list A) (y : B) :
  bcast f xs [y] = Ok ((fun x => f x y) <$> xs).
Proof.
  unfold bcast. destruct (decide _) as [E|E].
  - destruct xs as [|x [|x' xs]]; try discriminate E. reflexivity.
  - destruct xs as [|x [|x' xs]]; reflexivity.
Qed.

Lemma bcast_row_l {A B C} (f : A -> B -> C) (x : A) (ys : list B) :
  bcast f [x] ys = Ok (f x <$> ys).
Proof.
  unfold bcast. destruct (decide _) as [E|E]; [|reflexivity].
  destruct ys as [|y [|y' ys]]; try discriminate E. reflexivity.
Qed.

Lemma bcast_mismatch {A B C} (f : A -> B -> C) (xs : list A) (ys : list B) :
  length xs <> length ys -> length xs <> 1%nat -> length ys <> 1%nat ->
  bcast f xs ys = Raise RuntimeError.
Proof.
  intros H Hx Hy. unfold bcast. destruct (decide _) as [E|E]; [contradiction|].
  destruct xs as [|x [|x' xs]]; destruct ys as [|y [|y' ys]];
    simpl in *; try reflexivity; lia.
Qed.

Lemma bcast_into_mismatch {A B} (f : A -> B -> A) (xs : list A) (ys : list B) :
  length xs <> length ys -> length ys <> 1%nat ->
  bcast_into f xs ys = Raise RuntimeError.
Proof.
  intros H Hy. unfold bcast_into. destruct (decide _) as [E|E]; [contradiction|].
  destruct ys as [|y [|y' ys]]; simpl in *; try reflexivity; lia.
Qed.

(** X5: a collision signal of one row is applied to every agent:
    [get_reward] on [[b]] does what it does on [b] repeated once per agent,
    whatever the environment. *)
Theorem X5_one_row_signal_is_broadcast (e : Env) (b : bool) :
  get_reward [b] e = get_reward (replicate (length (collision_vector e)) b) e.
Proof.
  unfold get_reward, get_reward_terms. cbv zeta.
  rewrite (bcast_row_r andb (negb <$> collision_vector e) b).
  rewrite (bcast_same andb (negb <$> collision_vector e)
             (replicate (length (collision_vector e)) b))
    by (rewrite length_fmap, length_replicate; reflexivity).
  rewrite zip_with_replicate_r_eq by (rewrite length_fmap; reflexivity).
  reflexivity.
Qed.

Ltac run_bcast_each :=
  cbv beta zeta;
  repeat first
    [ match goal with
      | |- context [bcast ?f ?xs ?ys] =>
          rewrite (bcast_same f xs ys) by shape_tac
      end
    | match goal with
      | |- context [bcast_into ?f ?xs ?ys] =>
          rewrite (bcast_into_same f xs ys) by shape_tac
      end
    | progress cbn [mbind result_bind] ].

(** X6: a collision signal whose row count is neither the number of agents
    nor one is a shape error: [get_reward] raises and returns no reward. *)
Theorem X6_signal_shape_error (n : nat) (e : Env) (nc : list bool) :
  shaped n e -> length nc <> n -> length nc <> 1%nat ->
  get_reward nc e = Raise RuntimeError.
Proof.
  intros Hs Hn H1. pose proof Hs as (Hp & Hd & Hsp & Ho & Hc & Hk).
  unfold get_reward, get_reward_terms. run_bcast_each.
  destruct (Nat.eq_dec n 1%nat) as [-> | Hn1].
  - destruct (collision_vector e) as [|c [|c' cv]] eqn:Ecv; try discriminate Hc.
    cbn [fmap list_fmap]. rewrite bcast_row_l. cbn [mbind result_bind].
    match goal with
    | |- context [bcast ?f (andb (negb c) <$> nc) ?ds] =>
        assert (Hdist : length ds = 1%nat) by shape_tac;
        destruct ds as [|d [|d' ds']]; try discriminate Hdist
    end.
    rewrite bcast_row_r. cbn [mbind result_bind].
    rewrite bcast_same by (rewrite !length_fmap; reflexivity).
    cbn [mbind result_bind].
    rewrite bcast_into_mismatch; [reflexivity | |].
    + rewrite length_fmap. simpl. lia.
    + rewrite length_fmap. exact H1.
  - rewrite bcast_mismatch; [reflexivity | | |].
    + rewrite length_fmap. lia.
    + rewrite length_fmap. lia.
    + exact H1.
Qed.

Lemma X6_witness :
  get_reward [true; false; true] ex_start = Raise RuntimeError.
Proof.
  apply (X6_signal_shape_error 2 ex_start [true; false; true]).
  - exact ex_start_shaped.
  - simpl. lia.
  - simpl. lia.
Defined.

Lemma out_destination_kept hz n r inc :
  out_completed (reward_row hz n r inc) = false ->
  pt_eq (out_destination (reward_row hz n r inc)) (row_destination r).
Proof.
  cbn [reward_row out_completed out_destination]. intros ->.
  unfold pt_eq, pt_add, pt_scale. cbn [b2q negb fst snd]. split; ring.
Qed.

(** X7: [get_reward] writes the stored destinations and the two flag
    vectors and nothing else; and on well-shaped inputs the destination of
    every agent that is still not completed after the call is the one it
    had before. *)
Theorem X7_get_reward_frame (nc : list bool) (e e' : Env) (rs : list Q) :
  get_reward nc e = Ok (e', rs) ->
  e' = set_flags
         (set_agent e (set_destination (agent e) (destination (agent e'))))
         (collision_vector e') (completion_vector e') /\
  forall n i d d',
    shaped n e -> length nc = n ->
    completion_vector e' !! i = Some false ->
    destination (agent e) !! i = Some d ->
    destination (agent e') !! i = Some d' ->
    pt_eq d' d.
Proof.
  intros H. split.
  - unfold get_reward in H.
    apply bind_Ok_inv in H. destruct H as ([e1 t] & E & H).
    inv_binds H. injection H as <- <-.
    unfold get_reward_terms in E. inv_binds E. injection E as <- <-.
    reflexivity.
  - intros n i d d' Hs Hn Hk Hd Hd'.
    destruct (get_reward_rows n e nc Hs Hn) as (e2 & t & rs2 & _ & Hr & _ & _ & Hrows).
    rewrite H in Hr. injection Hr as <- <-.
    assert (Hi : (i < n)%nat).
    { apply lookup_lt_Some in Hd. destruct Hs as (_ & Hl & _). lia. }
    destruct (row_at_Some n e i Hs Hi) as [r Hrow].
    destruct (lookup_lt_is_Some_2 nc i) as [inc Hinc]; [lia|].
    destruct (Hrows i r inc Hrow Hinc) as (_ & D' & _ & K' & _).
    apply row_at_inv in Hrow as (_ & Rd & _).
    change point with (Q * Q)%type in *.
    rewrite Hd in Rd. apply (inj Some) in Rd. subst d.
    rewrite Hd' in D'. apply (inj Some) in D'. subst d'.
    rewrite Hk in K'. apply (inj Some) in K'.
    apply out_destination_kept. symmetry. exact K'.
Qed.

Lemma X7_witness :
  exists e' rs, get_reward [false; true] (advance ex_tick2 ex_start) = Ok (e', rs) /\
    e' = set_flags
           (set_agent (advance ex_tick2 ex_start)
              (set_destination (agent (advance ex_tick2 ex_start))
                 (destination (agent e'))))
           (collision_vector e') (completion_vector e').
Proof.
  eexists _, _. split; [vm_compute; reflexivity|].
  eapply (proj1 (X7_get_reward_frame [false; true] (advance ex_tick2 ex_start) _ _ _)).
  Unshelve. all: try (vm_compute; reflexivity).
Defined.

(** Until its goal is first reached the agent stays not completed and its
    stored destination stays where it was. *)
Lemma not_completed_before (n : nat) (e : Env) (ts : list Tick)
    (outs : list (Env * RewardTerms)) (i k : nat) (d0 : point) :
  shaped n e -> Forall (tick_shaped n) ts -> episode e ts = Ok outs ->
  completion_vector e !! i = Some false ->
  destination (agent e) !! i = Some d0 ->
  (forall j t p, (j < k)%nat -> ts !! j = Some t -> tick_position t !! i = Some p ->
                 Qle_bool (d0.1 - p.1) 0 = false) ->
  forall j sj, (j <= k)%nat -> trajectory e outs !! j = Some sj ->
    completion_vector sj !! i = Some false /\
    exists d, destination (agent sj) !! i = Some d /\ pt_eq d d0.
Proof.
  intros He Hts Hep Hk0 Hd0 Hfar.
  assert (Hi : (i < n)%nat).
  { apply lookup_lt_Some in Hk0. destruct He as (_ & _ & _ & _ & _ & Hk). lia. }
  induction j as [|j IH]; intros sj Hle Hj.
  - injection Hj as <-. split; [exact Hk0|].
    exists d0. split; [exact Hd0 | split; reflexivity].
  - destruct (trajectory_pred _ _ _ _ Hj) as [tj Ho].
    destruct (episode_step_row n e ts outs He Hts Hep j sj tj i Ho Hi)
      as (t & sp & r & inc & Ht & Hp & _ & _ & Hrow & Hinc & _ & _ & Hout).
    destruct Hout as (Hd' & _ & Hk' & _).
    apply row_at_advance_flags in Hrow as (_ & Rk & Rd & Rp & _).
    destruct (IH sp ltac:(lia) Hp) as (IHk & d & IHd & (Hd1 & Hd2)).
    rewrite IHk in Rk. apply (inj Some) in Rk.
    change point with (Q * Q)%type in *.
    rewrite IHd in Rd. apply (inj Some) in Rd.
    assert (Hnot : out_completed (reward_row (horizon sp) (tick_nsteps t) r inc) = false).
    { cbn [reward_row out_completed]. rewrite <- Rk, <- Rd. cbn [orb].
      rewrite Hd1. exact (Hfar j t (row_position r) ltac:(lia) Ht Rp). }
    split; [rewrite Hk', Hnot; reflexivity|].
    eexists. split; [exact Hd'|].
    destruct (out_destination_kept _ _ _ _ Hnot) as (K1 & K2).
    rewrite <- Rd in K1, K2. split; [rewrite K1; exact Hd1 | rewrite K2; exact Hd2].
Qed.

(** X2: the goal bonus is paid once.  For an agent that enters the episode
    not completed and first has [destination.x - position.x <= 0] at step
    [k], the goal bonus is 1 at step [k] and 0 at every other step, and the
    agent is completed from step [k] on and not before. *)
Theorem X2_goal_bonus_once
    (n : nat) (e : Env) (ts : list Tick) (i k : nat) (d0 pk : point) (tk : Tick) :
  shaped n e -> Forall (tick_shaped n) ts ->
  completion_vector e !! i = Some false ->
  destination (agent e) !! i = Some d0 ->
  (forall j t p, (j < k)%nat -> ts !! j = Some t -> tick_position t !! i = Some p ->
                 Qle_bool (d0.1 - p.1) 0 = false) ->
  ts !! k = Some tk -> tick_position tk !! i = Some pk ->
  Qle_bool (d0.1 - pk.1) 0 = true ->
  exists outs,
    episode e ts = Ok outs /\ length outs = length ts /\
    forall j sj tj,
      outs !! j = Some (sj, tj) ->
      goal_reach_bonus tj !! i = Some (if Nat.eqb j k then 1 else 0) /\
      completion_vector sj !! i = Some (Nat.leb k j).
Proof.
  intros He Hts Hk0 Hd0 Hfar Htk Hpk Hreach.
  destruct (episode_unroll n ts e He Hts) as (outs & Hep & Hl & _).
  exists outs. split; [exact Hep|]. split; [exact Hl|].
  assert (Hi : (i < n)%nat).
  { apply lookup_lt_Some in Hk0. destruct He as (_ & _ & _ & _ & _ & Hk). lia. }
  pose proof (not_completed_before n e ts outs i k d0 He Hts Hep Hk0 Hd0 Hfar) as Hbefore.
  (* completed after step k *)
  assert (Hat : forall sk tk', outs !! k = Some (sk, tk') ->
                  completion_vector sk !! i = Some true /\
                  goal_reach_bonus tk' !! i = Some 1).
  { intros sk tk' Hok.
    destruct (episode_step_row n e ts outs He Hts Hep k sk tk' i Hok Hi)
      as (t & sp & r & inc & Ht & Hp & _ & _ & Hrow & Hinc & _ & _ & Hout).
    destruct Hout as (_ & _ & Hk' & _ & _ & _ & Hb').
    rewrite Htk in Ht. apply (inj Some) in Ht. subst t.
    apply row_at_advance_flags in Hrow as (_ & Rk & Rd & Rp & _).
    destruct (Hbefore k sp ltac:(lia) Hp) as (Bk & d & Bd & (Hd1 & _)).
    rewrite Bk in Rk. apply (inj Some) in Rk.
    change point with (Q * Q)%type in *.
    rewrite Bd in Rd. apply (inj Some) in Rd.
    rewrite Hpk in Rp. apply (inj Some) in Rp.
    assert (Hr : Qle_bool ((row_destination r).1 - (row_position r).1) 0 = true).
    { rewrite <- Rd, <- Rp, Hd1. exact Hreach. }
    cbn [reward_row out_completed out_bonus] in Hk', Hb'.
    rewrite <- Rk, Hr in Hk', Hb'. split; [exact Hk' | exact Hb']. }
  intros j sj tj Ho.
  destruct (episode_step_row n e ts outs He Hts Hep j sj tj i Ho Hi)
    as (t & sp & r & inc & Ht & Hp & _ & _ & Hrow & Hinc & _ & _ & Hout).
  destruct Hout as (_ & _ & Hk' & _ & _ & _ & Hb').
  destruct (Nat.lt_trichotomy j k) as [Hlt | [-> | Hgt]].
  - replace (j =? k)%nat with false by (symmetry; apply Nat.eqb_neq; lia).
    replace (k <=? j)%nat with false by (symmetry; apply Nat.leb_gt; lia).
    pose proof (trajectory_succ e outs j sj tj Ho) as Hsj.
    destruct (Hbefore (S j) sj ltac:(lia) Hsj) as (Bk & _).
    split; [|exact Bk].
    rewrite Hb'. f_equal. cbn [reward_row out_bonus].
    rewrite Hk' in Bk. apply (inj Some) in Bk.
    cbn [reward_row out_completed] in Bk.
    destruct (row_completed r); [discriminate Bk|]. cbn [orb negb andb] in *.
    rewrite Bk. reflexivity.
  - rewrite Nat.eqb_refl, Nat.leb_refl.
    destruct (Hat sj tj Ho) as (A1 & A2). split; assumption.
  - replace (j =? k)%nat with false by (symmetry; apply Nat.eqb_neq; lia).
    replace (k <=? j)%nat with true by (symmetry; apply Nat.leb_le; lia).
    destruct (lookup_lt_is_Some_2 outs k) as [[sk tk'] Hok].
    { apply lookup_lt_Some in Ho. lia. }
    destruct (Hat sk tk' Hok) as (A1 & _).
    pose proof (trajectory_succ e outs k sk tk' Hok) as Hsk.
    assert (Hpre : completion_vector sp !! i = Some true).
    { replace j with (S k + (j - S k))%nat in Hp by lia.
      exact (proj2 (trajectory_flags n e ts outs He Hts Hep _ _ sk sp i Hsk Hp) A1). }
    apply row_at_advance_flags in Hrow as (_ & Rk & _).
    rewrite Hpre in Rk. apply (inj Some) in Rk.
    split.
    + rewrite Hb'. cbn [reward_row out_bonus]. rewrite <- Rk. reflexivity.
    + rewrite Hk'. cbn [reward_row out_completed]. rewrite <- Rk. reflexivity.
Qed.

Lemma X2_witness :
  exists outs, episode ex_start ex_ticks = Ok outs /\ length outs = 3%nat.
Proof.
  destruct (X2_goal_bonus_once 2 ex_start ex_ticks 0 0 (150 # 2, 0) (80, 0) ex_tick1)
    as (outs & H & L & _).
  - exact ex_start_shaped.
  - exact ex_ticks_shaped.
  - reflexivity.
  - reflexivity.
  - intros j t p Hj. lia.
  - reflexivity.
  - reflexivity.
  - reflexivity.
  - exists outs. split; [exact H | exact L].
Defined.

Lemma X3_witness :
  exists e' rs,
    get_reward [false; true] (advance ex_tick2 ex_start) = Ok (e', rs) /\
    length rs = 2%nat.
Proof.
  destruct (X3_reward_at_most_goal_bonus 2 (advance ex_tick2 ex_start) [false; true])
    as (e' & rs & H & L & _).
  - repeat split.
  - reflexivity.
  - cbn. lia.
  - exists e', rs. split; [exact H | exact L].
Defined.

Lemma X4_witness :
  exists e1 t1 e2 t2,
    get_reward_terms [false; true] (set_nsteps ex_start 1) = Ok (e1, t1) /\
    get_reward_terms [false; true] (set_nsteps ex_start 5) = Ok (e2, t2).
Proof.
  destruct (X4_penalty_decreases_with_nsteps 2 ex_start [false; true] 1 5)
    as (e1 & t1 & e2 & t2 & H1 & H2 & _).
  - exact ex_start_shaped.
  - reflexivity.
  - cbn. lia.
  - lia.
  - exists e1, t1, e2, t2. split; [exact H1 | exact H2].
Defined.

(** ** Episode set-up, further *)

Lemma cumsum_from_tens (m : nat) : forall (acc : Q) (j : nat),
  (j < m)%nat ->
  exists x, cumsum_from acc (replicate m 10) !! j = Some x /\
            x == acc + 10 * inject_Z (Z.of_nat (S j)).
Proof.
  induction m as [|m IH]; intros acc j Hj; [lia|].
  cbn [replicate cumsum_from]. destruct j as [|j].
  - eexists. split; [reflexivity|]. simpl. ring.
  - destruct (IH (acc + 10) j ltac:(lia)) as (x & Hx & Ex).
    exists x. split; [exact Hx|]. rewrite Ex.
    rewrite (Nat2Z.inj_succ (S j)), <- Z.add_1_r, inject_Z_plus.
    change (inject_Z 1) with 1. ring.
Qed.

Lemma cumsum_spacing (n i : nat) :
  (i < n)%nat ->
  exists x, cumsum (0 :: replicate (n - 1) 10) !! i = Some x /\
            x == 10 * inject_Z (Z.of_nat i).
Proof.
  intros Hi. unfold cumsum. cbn [cumsum_from]. destruct i as [|i].
  - eexists. split; [reflexivity|]. simpl. ring.
  - destruct (cumsum_from_tens (n - 1) (0 + 0) i ltac:(lia)) as (x & Hx & Ex).
    exists x. split; [exact Hx|]. rewrite Ex. ring.
Qed.

(** The vehicles [reset] creates. *)
Lemma reset_own_agent (rand : nat -> Q) (e : Env) :
  (0 < nagents e)%nat -> (0 <= history_len e)%Z ->
  exists e0,
    reset_own rand e = Ok e0 /\
    position (agent e0) =
      pt_add (- 250 / 2 + 30, 0)
        <$> zip (cumsum (0 :: replicate (nagents e - 1) 10))
                (replicate (nagents e) 0) /\
    destination (agent e0) = replicate (nagents e) (250 / 2 - 50, 0) /\
    speed (agent e0) = replicate (nagents e) 0 /\
    dimensions (agent e0) = replicate (nagents e) (4.48, 2.2).
Proof.
  intros Hn Hh. unfold reset_own, add_vehicles_to_world. cbv beta zeta.
  unfold cat_pair.
  destruct (decide _) as [E|E].
  2:{ exfalso. apply E. unfold cumsum. rewrite length_cumsum_from.
      cbn [length nagents set_config]. rewrite !length_replicate. lia. }
  cbn [mbind result_bind]. rewrite bcast_row_l.
  cbn [mbind result_bind mret result_ret].
  cbn [history_len set_config store_dynamics set_dynamics set_agent].
  replace (history_len e <? 0)%Z with false by (symmetry; apply Z.ltb_ge; lia).
  eexists. split; [reflexivity|]. cbn. repeat split.
Qed.

(** X8: [reset] lines the agents up on the road's centre line, ten units
    apart from [x = -95], at rest, all bound for [(75, 0)]; so agent [i]
    starts short of its destination exactly when [i < 17]. *)
Theorem X8_reset_places_agents (rand : nat -> Q) (e : Env) (i : nat) :
  (0 < nagents e)%nat -> (0 <= history_len e)%Z -> (i < nagents e)%nat ->
  exists e0 p,
    reset_own rand e = Ok e0 /\
    length (position (agent e0)) = nagents e /\
    position (agent e0) !! i = Some p /\
    p.1 == -95 + 10 * inject_Z (Z.of_nat i) /\ p.2 == 0 /\
    destination (agent e0) !! i = Some (250 / 2 - 50, 0) /\
    speed (agent e0) !! i = Some 0 /\
    dimensions (agent e0) !! i = Some (4.48, 2.2) /\
    (Qle_bool ((250 / 2 - 50) - p.1) 0 = true <-> (17 <= i)%nat).
Proof.
  intros Hn Hh Hi.
  destruct (reset_own_agent rand e Hn Hh) as (e0 & Hr & Hp & Hd & Hs & Hdim).
  destruct (cumsum_spacing (nagents e) i Hi) as (x & Hx & Ex).
  exists e0, (pt_add (- 250 / 2 + 30, 0) (x, 0)).
  split; [exact Hr|]. split.
  { rewrite Hp, length_fmap, length_zip_with. unfold cumsum.
    rewrite length_cumsum_from. cbn [length]. rewrite !length_replicate. lia. }
  split.
  { assert (Hz : zip (cumsum (0 :: replicate (nagents e - 1) 10))
                      (replicate (nagents e) 0) !! i = Some (x, 0)).
    { apply lookup_zip_Some. split; [exact Hx|].
      apply lookup_replicate_2; exact Hi. }
    rewrite Hp, list_lookup_fmap. change point with (Q * Q)%type.
    rewrite Hz. reflexivity. }
  cbn [pt_add fst snd].
  split; [rewrite Ex; field|]. split; [ring|].
  split; [rewrite Hd; apply lookup_replicate_2; exact Hi|].
  split; [rewrite Hs; apply lookup_replicate_2; exact Hi|].
  split; [rewrite Hdim; apply lookup_replicate_2; exact Hi|].
  rewrite Qle_bool_iff.
  assert (E : 250 / 2 - 50 - (- 250 / 2 + 30 + x)
              == 170 - 10 * inject_Z (Z.of_nat i)) by (rewrite Ex; field).
  rewrite E. split.
  - intros H. assert (inject_Z 17 <= inject_Z (Z.of_nat i)).
    { change (inject_Z 17) with 17. lra. }
    rewrite <- Zle_Qle in H0. lia.
  - intros H. assert (inject_Z 17 <= inject_Z (Z.of_nat i)).
    { rewrite <- Zle_Qle. lia. }
    change (inject_Z 17) with 17 in H0. lra.
Qed.

Lemma X8_witness :
  exists e0 p, reset_own ex_draws ex_init = Ok e0 /\
               position (agent e0) !! 1%nat = Some p.
Proof.
  destruct (X8_reset_places_agents ex_draws ex_init 1) as (e0 & p & H & _ & Hp & _).
  - cbn. lia.
  - cbn. lia.
  - cbn. lia.
  - exists e0, p. split; [exact H | exact Hp].
Defined.

(** X9: [reset] of an environment without agents fails with a shape error,
    and [reset] with agents but a negative history length fails with a
    value error, in both variants and before the base class's [reset] is
    reached. *)
Theorem X9_reset_errors {A} (super_reset : Env -> result A)
    (rand : nat -> Q) (e : Env) :
  (nagents e = 0%nat ->
   reset super_reset rand e = Raise RuntimeError /\
   Spline.reset super_reset rand e = Raise RuntimeError) /\
  ((0 < nagents e)%nat -> (history_len e < 0)%Z ->
   reset super_reset rand e = Raise ValueError /\
   Spline.reset super_reset rand e = Raise ValueError).
Proof.
  split.
  - intros Hn.
    assert (H : forall e1, nagents e1 = 0%nat -> reset_own rand e1 = Raise RuntimeError).
    { intros e1 H1. unfold reset_own, add_vehicles_to_world. cbv beta zeta.
      cbn [nagents set_config]. rewrite H1. reflexivity. }
    unfold Spline.reset, reset. rewrite !H by assumption. split; reflexivity.
  - intros Hn Hh.
    assert (H : forall e1, nagents e1 = nagents e -> history_len e1 = history_len e ->
                           reset_own rand e1 = Raise ValueError).
    { intros e1 H1 H2. unfold reset_own, add_vehicles_to_world. cbv beta zeta.
      unfold cat_pair.
      destruct (decide _) as [E|E].
      2:{ exfalso. apply E. unfold cumsum. rewrite length_cumsum_from.
          cbn [length nagents set_config]. rewrite !length_replicate. lia. }
      cbn [mbind result_bind]. rewrite bcast_row_l.
  cbn [mbind result_bind mret result_ret].
      cbn [history_len set_config store_dynamics set_dynamics set_agent].
      rewrite H2.
      replace (history_len e <? 0)%Z with true by (symmetry; apply Z.ltb_lt; lia).
      reflexivity. }
    unfold Spline.reset, reset. rewrite !H by reflexivity. split; reflexivity.
Qed.

Lemma X9_witness :
  reset (base_reset (get_state 3 ex_lidar ex_noise)) ex_draws
    (env_init 2 3 10 0 0) = Raise RuntimeError.
Proof.
  apply (proj1 (X9_reset_errors (base_reset (get_state 3 ex_lidar ex_noise))
                  ex_draws (env_init 2 3 10 0 0))).
  reflexivity.
Defined.

(** ** The velocity limit of the binding *)

Lemma reachable_v_lim (e0 e : Env) :
  v_lim_of (dynamics e0) = (fun r => r * max_velocity e0) <$> vel_rating e0 ->
  reachable e0 e ->
  v_lim_of (dynamics e) = v_lim_of (dynamics e0).
Proof.
  intros H0. induction 1 as [| e nc e' r Hr IH H | e fuel l rnd e' o Hr IH H
                  | e fuel l rnd e' o Hr IH H
                  | e A super fuel l rnd a e' o Hr IH H
                  | e pos spd n c k Hr IH ].
  - reflexivity.
  - rewrite (get_reward_dynamics _ _ _ _ H). exact IH.
  - apply get_state_ratings in H as (_ & D & _). rewrite D. exact IH.
  - apply spline_get_state_ratings in H as (_ & D & _). rewrite D. exact IH.
  - apply stage0_inv in H as (path & o' & _ & _ & D & _).
    destruct (reachable_ratings e0 e Hr) as (_ & Rv & Rm & _).
    rewrite D. cbn [v_lim_of]. rewrite Rv, Rm. symmetry. exact H0.
  - exact IH.
Qed.

(** X10: the velocity limit of the active dynamics binding is
    [vel_rating * 16] in every state of an episode, whichever model is
    bound; for draws in [0, 1) it lies in the closed interval [8, 16] (the
    float32 sum of the largest draw and 1 rounds up to 2, which gives a
    limit of exactly 16) and is never zero, so the speed feature of
    [get_state] never divides by zero. *)
Theorem X10_velocity_limit_range (rand : nat -> Q) (e : Env) :
  (0 < nagents e)%nat -> (0 <= history_len e)%Z ->
  exists e0,
    reset_own rand e = Ok e0 /\
    forall e', reachable e0 e' ->
      length (v_lim_of (dynamics e')) = nagents e /\
      forall i v,
        v_lim_of (dynamics e') !! i = Some v ->
        v = f32_one_plus (rand i) * 0.5 * 16 /\
        (0 <= rand i /\ rand i < 1 -> 8 <= v /\ v <= 16 /\ ~ v == 0).
Proof.
  intros Hn Hh.
  destruct (reset_own_ok rand e Hn Hh)
    as (e0 & Hr & Ra & Rv & Rm & _ & _ & _ & _ & Rd & _).
  exists e0. split; [exact Hr|]. intros e' Hreach.
  assert (H0 : v_lim_of (dynamics e0)
               = (fun r => r * max_velocity e0) <$> vel_rating e0).
  { rewrite Rd, Rv, Rm. reflexivity. }
  rewrite (reachable_v_lim e0 e' H0 Hreach), Rd. cbn [v_lim_of].
  split.
  { unfold drawn_ratings. rewrite !length_fmap. apply length_seq. }
  intros i v Hv. rewrite list_lookup_fmap in Hv.
  destruct (drawn_ratings rand (nagents e) !! i) as [a|] eqn:Ea; [|discriminate Hv].
  cbn in Hv. apply (inj Some) in Hv. subst v.
  split.
  { apply drawn_ratings_lookup in Ea as (-> & _). reflexivity. }
  intros (H1 & H2).
  destruct (drawn_ratings_range rand _ i a H1 H2 Ea) as (B1 & B2).
  split; [lra|]. split; [lra|]. intros Hz. lra.
Qed.

Lemma X10_witness :
  exists e0, reset_own ex_draws ex_init = Ok e0.
Proof.
  destruct (X10_velocity_limit_range ex_draws ex_init) as (e0 & H & _).
  - cbn. lia.
  - cbn. lia.
  - exists e0. exact H.
Defined.

(** ** Observations lie in the declared spaces *)

Lemma in_box_app (l1 l2 : list Q) (h1 h2 : list (option Q)) (r1 r2 : list Q) :
  in_box {| box_low := l1; box_high := h1 |} r1 ->
  in_box {| box_low := l2; box_high := h2 |} r2 ->
  in_box {| box_low := l1 ++ l2; box_high := h1 ++ h2 |} (r1 ++ r2).
Proof.
  intros (La & Lb & Ha) (Lc & Ld & Hb). unfold in_box.
  cbn [box_low box_high] in *.
  split; [rewrite !length_app; lia|]. split; [rewrite !length_app; lia|].
  cbn [box_low box_high]. intros i x lo hi Hx Hlo Hhi.
  destruct (Nat.lt_ge_cases i (length r1)) as [Hlt | Hge].
  - rewrite lookup_app_l in Hx by exact Hlt.
    rewrite lookup_app_l in Hlo by lia. rewrite lookup_app_l in Hhi by lia.
    exact (Ha i x lo hi Hx Hlo Hhi).
  - rewrite lookup_app_r in Hx by exact Hge.
    rewrite lookup_app_r in Hlo by lia. rewrite lookup_app_r in Hhi by lia.
    replace (i - length l1)%nat with (i - length r1)%nat in Hlo by lia.
    replace (i - length h1)%nat with (i - length r1)%nat in Hhi by lia.
    exact (Hb _ x lo hi Hx Hlo Hhi).
Qed.

Lemma in_box_concat (low : list Q) (high : list (option Q)) (rows : list (list Q)) :
  Forall (in_box {| box_low := low; box_high := high |}) rows ->
  in_box {| box_low := concat (replicate (length rows) low);
            box_high := concat (replicate (length rows) high) |}
         (concat rows).
Proof.
  induction 1 as [|r rows Hr _ IH]; cbn [length replicate concat].
  - split; [reflexivity|]. split; [reflexivity|].
    intros i x lo hi Hx. destruct i; discriminate Hx.
  - apply in_box_app; assumption.
Qed.

(** A row of a concatenation is the concatenation of the entries' rows. *)
Lemma cat_last_row_inv (ts : list (list (list Q))) (out : list (list Q))
    (i : nat) (row : list Q) :
  cat_last ts = Ok out -> out !! i = Some row ->
  exists rows,
    Forall2 (fun u x => u !! i = Some x) ts rows /\ row = concat rows.
Proof.
  intros Hc Hrow.
  assert (Hlen : Forall (fun u : list (list Q) => length u = length out) ts).
  { unfold cat_last in Hc. destruct ts as [|t ts]; [discriminate Hc|].
    destruct (forallb _ ts) eqn:E; [|discriminate Hc].
    injection Hc as <-.
    assert (Hn : Forall (fun u : list (list Q) => length u = length t) ts).
    { apply Forall_forall. intros u Hu. rewrite forallb_forall in E.
      apply Nat.eqb_eq. apply E. apply list_elem_of_In. exact Hu. }
    destruct (foldl_zip_app_rows (length t) ts t eq_refl Hn) as (L & _).
    constructor; [symmetry; exact L|].
    eapply Forall_impl; [exact Hn|]. intros u Hu. simpl in Hu. congruence. }
  assert (Hi : (i < length out)%nat) by (eapply lookup_lt_Some; eauto).
  assert (Hrows : exists rows, Forall2 (fun u x => u !! i = Some x) ts rows).
  { clear Hc. induction Hlen as [|u ts Hu _ IH].
    - exists []. constructor.
    - destruct IH as (rows & F).
      destruct (lookup_lt_is_Some_2 u i) as [x Hx]; [lia|].
      exists (x :: rows). constructor; assumption. }
  destruct Hrows as (rows & F). exists rows. split; [exact F|].
  pose proof (cat_last_rows ts out Hc i rows F) as H.
  rewrite Hrow in H. apply (inj Some) in H. exact H.
Qed.

Lemma cat_last_rows_forall (P : list Q -> Prop) (ts : list (list (list Q)))
    (out : list (list Q)) (i : nat) (row : list Q) :
  Forall (Forall P) ts ->
  cat_last ts = Ok out -> out !! i = Some row ->
  exists rows, Forall P rows /\ length rows = length ts /\ row = concat rows.
Proof.
  intros HP Hc Hrow.
  destruct (cat_last_row_inv ts out i row Hc Hrow) as (rows & F & E).
  exists rows. split; [|split; [symmetry; eapply Forall2_length; eauto | exact E]].
  clear Hc E. induction F as [|u x ts rows Hx _ IH]; [constructor|].
  inversion HP as [|? ? Hu HP']; subst.
  constructor; [|apply IH; exact HP'].
  rewrite Forall_lookup in Hu. eapply Hu; eauto.
Qed.

Lemma read_lidar_nonneg lidar_data rand e :
  Forall (Forall (fun x => 0 <= x)) lidar_data ->
  Forall (Forall (fun x => 0 <= x)) (read_lidar lidar_data rand e).
Proof.
  intros H. unfold read_lidar. cbv zeta.
  assert (H1 : Forall (Forall (fun x => 0 <= x))
                 ((fun row : list Q => (fun x => 1 / x) <$> row) <$> lidar_data)).
  { apply Forall_fmap. eapply Forall_impl; [exact H|].
    intros row Hrow. simpl. apply Forall_fmap.
    eapply Forall_impl; [exact Hrow|]. intros x Hx. simpl.
    unfold Qdiv. rewrite Qmult_1_l. apply Qinv_le_0_compat. exact Hx. }
  destruct (negb (Qle_bool (lidar_noise e) 0)); [|exact H1].
  unfold lidar_mask. apply Forall_lookup. intros i row Hrow.
  rewrite list_lookup_imap in Hrow.
  destruct (_ !! i) as [row0|] eqn:E; [|discriminate Hrow].
  cbn in Hrow. apply (inj Some) in Hrow. subst row.
  rewrite Forall_lookup in H1. pose proof (H1 i row0 E) as Hr0.
  apply Forall_lookup. intros j x Hx.
  rewrite list_lookup_imap in Hx.
  destruct (row0 !! j) as [x0|] eqn:E0; [|discriminate Hx].
  cbn in Hx. apply (inj Some) in Hx. subst x.
  rewrite Forall_lookup in Hr0. pose proof (Hr0 j x0 E0) as Hx0.
  apply Qmult_le_0_compat; [exact Hx0 | apply b2q_nonneg].
Qed.

(** The raw state of one step lies in one step's slice of the declared
    box, given speeds within the limit and ratings in [0.5, 1]. *)
Lemma raw_state_in_box (n : nat) (e : Env) (obs : list (list Q)) :
  obs_shaped n e -> raw_state e = Ok obs ->
  (forall i x v, speed (agent e) !! i = Some x ->
                 v_lim_of (dynamics e) !! i = Some v ->
                 0 < v /\ - v <= x /\ x <= v) ->
  (forall i a, accln_rating e !! i = Some a -> 0.5 <= a /\ a <= 1) ->
  (forall i a, vel_rating e !! i = Some a -> 0.5 <= a /\ a <= 1) ->
  Forall (in_box state_box4) obs.
Proof.
  intros Hs Ho Hspeed Ha Hv.
  destruct (raw_state_rows n e Hs) as (obs' & Ho' & (Hl & _) & Hrows).
  rewrite Ho in Ho'. injection Ho' as <-.
  destruct Hs as (Lp & Ld & Ls & Lv & La & Lr).
  apply Forall_lookup. intros i row Hrow.
  assert (Hi : (i < n)%nat) by (apply lookup_lt_Some in Hrow; lia).
  destruct (lookup_lt_is_Some_2 (position (agent e)) i) as [p Ep]; [lia|].
  destruct (lookup_lt_is_Some_2 (destination (agent e)) i) as [d Ed]; [lia|].
  destruct (lookup_lt_is_Some_2 (speed (agent e)) i) as [s Es]; [lia|].
  destruct (lookup_lt_is_Some_2 (v_lim_of (dynamics e)) i) as [v Ev]; [lia|].
  destruct (lookup_lt_is_Some_2 (accln_rating e) i) as [a Ea]; [lia|].
  destruct (lookup_lt_is_Some_2 (vel_rating e) i) as [r Er]; [lia|].
  rewrite (Hrows i p d s v a r Ep Ed Es Ev Ea Er) in Hrow.
  apply (inj Some) in Hrow. subst row.
  destruct (Hspeed i s v Es Ev) as (Hv0 & Hs1 & Hs2).
  destruct (Ha i a Ea) as (Ha1 & Ha2). destruct (Hv i r Er) as (Hr1 & Hr2).
  destruct (inv_dist_bounds (Qabs (d.1 - p.1))) as (B1 & B2).
  unfold inv_dist_of in B1, B2.
  assert (R1 : -1 <= s / v).
  { apply Qle_shift_div_l; [exact Hv0 | lra]. }
  assert (R2 : s / v <= 1).
  { apply Qle_shift_div_r; [exact Hv0 | lra]. }
  remember (1 / clamp_min 1 (Qabs (d.1 - p.1))) as x0 eqn:E0.
  remember (s / v) as x1 eqn:E1. clear E0 E1.
  split; [reflexivity|]. split; [reflexivity|].
  intros j x lo hi Hx Hlo Hhi.
  destruct j as [|[|[|[|j]]]]; cbn in Hx, Hlo, Hhi; try discriminate Hx;
    apply (inj Some) in Hx; apply (inj Some) in Hlo; apply (inj Some) in Hhi;
    subst x lo hi; split; lra.
Qed.

Lemma tail_fill_forall {A} (P : A -> Prop) (l : list A) (m : nat) (x : A) :
  Forall P l -> P x -> Forall P (tail (l ++ replicate m x ++ [x])).
Proof.
  intros Hl Hx. apply tail_app_cons_shape. rewrite !Forall_app.
  split; [exact Hl|]. split; [apply Forall_replicate; exact Hx|].
  constructor; [exact Hx | constructor].
Qed.

Lemma in_box_nonneg (k : nat) (row : list Q) :
  length row = k -> Forall (fun x => 0 <= x) row ->
  in_box {| box_low := replicate k 0; box_high := replicate k None |} row.
Proof.
  intros Hl Hr. unfold in_box. cbn [box_low box_high].
  rewrite !length_replicate. split; [exact Hl|]. split; [exact Hl|].
  intros i x lo hi Hx Hlo Hhi.
  apply lookup_replicate in Hlo as (-> & _).
  apply lookup_replicate in Hhi as (-> & _).
  split; [|exact I]. rewrite Forall_lookup in Hr. eapply Hr; eauto.
Qed.

(** A sequence of reads from queues that hold in-box entries returns in-box
    observations. *)
Lemma observe_in_box (n w fuel : nat) (e0 : Env) (ss : list Scan) : forall (e : Env),
  hist_inv n w e ->
  history_len e = history_len e0 -> dynamics e = dynamics e0 ->
  accln_rating e = accln_rating e0 -> vel_rating e = vel_rating e0 ->
  (forall i v, v_lim_of (dynamics e0) !! i = Some v -> 0 < v) ->
  (forall i a, accln_rating e0 !! i = Some a -> 0.5 <= a /\ a <= 1) ->
  (forall i a, vel_rating e0 !! i = Some a -> 0.5 <= a /\ a <= 1) ->
  Forall (Forall (in_box state_box4)) (items (queue1 e)) ->
  Forall (Forall (Forall (fun x => 0 <= x))) (items (queue2 e)) ->
  Forall (scan_shaped n w) ss -> Forall (scan_bounded e0) ss ->
  (Z.to_nat (history_len e0) <= fuel)%nat ->
  exists outs,
    observe fuel e ss = Ok outs /\ length outs = length ss /\
    forall j ej o,
      outs !! j = Some (ej, o) ->
      exists s l,
        o = ObsHistory s l /\
        Forall (in_box
                  {| box_low := list_times [0; -1; 0.5; 0.5] (history_len e0);
                     box_high := list_times [Some 1; Some 1; Some 1; Some 1]
                                   (history_len e0) |}) s /\
        Forall (fun row => length row = (w * Z.to_nat (history_len e0))%nat /\
                           Forall (fun x => 0 <= x) row) l.
Proof.
  induction ss as [|sc ss IH];
    intros e He Hh Hd Ha Hv Hvpos Har Hvr Q1 Q2 Hss Hbs Hfuel.
  - exists []. split; [reflexivity|]. split; [reflexivity|].
    intros j ej o Hj. destruct j; discriminate Hj.
  - inversion Hss as [|? ? Hsc Hss']; subst.
    inversion Hbs as [|? ? Hbc Hbs']; subst.
    destruct (hist_inv_scan n w e sc He Hsc) as (Ho & Hq).
    pose proof He as (Hh1 & _ & Lv & La & Lr).
    pose proof Hsc as (_ & _ & _ & Hlid).
    assert (Hfuel' : (Z.to_nat (history_len (set_agent e (scan_agent sc))) <= fuel)%nat).
    { cbn. rewrite Hh. exact Hfuel. }
    destruct (get_state_spec n w fuel (scan_lidar sc) (scan_rand sc)
                (set_agent e (scan_agent sc)) Hh1 Ho Hq Hlid Hfuel')
      as (obs & q1 & q2 & s & l & Eo & Eg & M1 & M2 & I1 & I2 & L1 & L2 & Hq' & C1 & C2 & S1 & S2).
    cbn [history_len set_agent queue1 queue2] in I1, I2, L1, L2, S1, S2.
    rewrite Hh in L1, L2, S1, S2.
    (* the new observation is in the box *)
    destruct Hbc as (Hsp & Hln).
    assert (Bobs : Forall (in_box state_box4) obs).
    { apply (raw_state_in_box n (set_agent e (scan_agent sc)) obs Ho Eo).
      - intros i x v Hx Hvi. cbn in Hx, Hvi. rewrite Hd in Hvi.
        destruct (Hsp i x v Hx Hvi) as (B1 & B2).
        split; [eapply Hvpos; eauto | split; assumption].
      - intros i a Hai. cbn in Hai. rewrite Ha in Hai. eapply Har; eauto.
      - intros i a Hai. cbn in Hai. rewrite Hv in Hai. eapply Hvr; eauto. }
    pose proof (read_lidar_nonneg (scan_lidar sc) (scan_rand sc)
                  (set_agent e (scan_agent sc)) Hln) as Blid.
    assert (Q1' : Forall (Forall (in_box state_box4)) (items q1)).
    { rewrite I1. apply tail_fill_forall; assumption. }
    assert (Q2' : Forall (Forall (Forall (fun x => 0 <= x))) (items q2)).
    { rewrite I2. apply tail_fill_forall; assumption. }
    set (e' := set_queues (set_agent e (scan_agent sc)) q1 q2) in *.
    assert (He' : hist_inv n w e').
    { unfold hist_inv. split; [exact Hh1|]. split; [exact Hq'|].
      cbn. repeat split; assumption. }
    destruct (IH e' He' Hh Hd Ha Hv Hvpos Har Hvr Q1' Q2' Hss' Hbs' Hfuel)
      as (outs & Eobs & Hlen & Hall).
    exists ((e', ObsHistory s l) :: outs). split; [|split].
    + cbn [observe]. rewrite Eg. cbn [mbind result_bind]. rewrite Eobs. reflexivity.
    + simpl. congruence.
    + intros j ej o Hj. destruct j as [|j]; [|exact (Hall j ej o Hj)].
      injection Hj as <- <-. exists s, l. split; [reflexivity|]. split.
      * apply Forall_lookup. intros i row Hrow.
        destruct (cat_last_rows_forall _ (items q1) s i row Q1' C1 Hrow)
          as (rows & Frows & Lrows & ->).
        pose proof (in_box_concat _ _ rows Frows) as B.
        unfold list_times. replace (Z.to_nat (history_len e0)) with (length rows) by lia.
        exact B.
      * apply Forall_lookup. intros i row Hrow. split.
        -- destruct S2 as (_ & S2). rewrite Forall_lookup in S2. eapply S2; eauto.
        -- destruct (cat_last_rows_forall _ (items q2) l i row Q2' C2 Hrow)
             as (rows & Frows & _ & ->).
           apply Forall_concat. exact Frows.
Qed.

(** X11: in the bicycle variants with history length [H > 1], as long as
    the physics keeps every speed within the velocity limit of the binding
    and the lidar distances are not negative, every observation [get_state]
    returns over an episode lies in the declared observation space: each
    agent's state row in the box [[0, -1, 0.5, 0.5] * H .. [1, 1, 1, 1] * H],
    each lidar row in [[0, inf)] of length [npoints * H]. *)
Theorem X11_observation_in_declared_space
    (fuel : nat) (rand : nat -> Q) (e_init e0 : Env) (ss : list Scan) :
  (1 < history_len e_init)%Z -> (0 < nagents e_init)%nat ->
  (forall i, 0 <= rand i /\ rand i < 1) ->
  reset_own rand e_init = Ok e0 ->
  Forall (scan_shaped (nagents e_init) (Z.to_nat (npoints e_init))) ss ->
  Forall (scan_bounded e0) ss ->
  (Z.to_nat (history_len e_init) <= fuel)%nat ->
  exists outs,
    observe fuel e0 ss = Ok outs /\ length outs = length ss /\
    forall j ej o,
      outs !! j = Some (ej, o) ->
      exists s l,
        o = ObsHistory s l /\
        Forall (in_box (get_observation_space e_init).1) s /\
        Forall (in_box (get_observation_space e_init).2) l.
Proof.
  intros Hh Hn Hrand Hreset Hss Hbs Hfuel.
  destruct (reset_own_ok rand e_init Hn ltac:(lia))
    as (e0' & Hr' & Ha & Hv & _ & _ & Hhl & Hnp & _ & Hd & Hq1 & Hq2 & _).
  rewrite Hreset in Hr'. injection Hr' as <-.
  set (n := nagents e_init) in *. set (w := Z.to_nat (npoints e_init)) in *.
  assert (Hinv : hist_inv n w e0).
  { unfold hist_inv, queues_ok. rewrite Hq1, Hq2, Hhl, Hd, Ha, Hv.
    cbn [maxlen items deque_new v_lim_of length].
    unfold drawn_ratings. rewrite !length_fmap, length_seq.
    repeat split; try reflexivity; try lia; constructor. }
  assert (Hrat : forall i a, drawn_ratings rand n !! i = Some a -> 0.5 <= a /\ a <= 1).
  { intros i a Hai. destruct (Hrand i) as (R0 & R1).
    exact (drawn_ratings_range rand n i a R0 R1 Hai). }
  rewrite <- Hhl in Hfuel.
  destruct (observe_in_box n w fuel e0 ss e0 Hinv eq_refl eq_refl eq_refl eq_refl)
    as (outs & Eo & Hlen & Hall); try assumption.
  - intros i v Hvi. rewrite Hd in Hvi. cbn [v_lim_of] in Hvi.
    rewrite list_lookup_fmap in Hvi.
    destruct (drawn_ratings rand n !! i) as [a|] eqn:Ea; [|discriminate Hvi].
    cbn in Hvi. apply (inj Some) in Hvi. subst v.
    destruct (Hrat i a Ea). lra.
  - rewrite Ha. exact Hrat.
  - rewrite Hv. exact Hrat.
  - rewrite Hq1. constructor.
  - rewrite Hq2. constructor.
  - exists outs. split; [exact Eo|]. split; [exact Hlen|].
    intros j ej o Hj. destruct (Hall j ej o Hj) as (s & l & -> & Bs & Bl).
    exists s, l. split; [reflexivity|]. rewrite Hhl in Bs, Bl.
    split; [exact Bs|].
    eapply Forall_impl; [exact Bl|]. intros row (Lrow & Nrow).
    cbn [get_observation_space snd]. apply in_box_nonneg; [|exact Nrow].
    rewrite Lrow. unfold w.
    destruct (Z.le_gt_cases 0 (npoints e_init)) as [Hp | Hp].
    + rewrite Z2Nat.inj_mul by lia. reflexivity.
    + assert (E1 : Z.to_nat (npoints e_init) = 0%nat) by lia.
      assert (E2 : Z.to_nat (npoints e_init * history_len e_init) = 0%nat) by nia.
      rewrite E1, E2. reflexivity.
Qed.

Lemma ex_draws_unit (i : nat) : 0 <= ex_draws i /\ ex_draws i < 1.
Proof. unfold ex_draws. destruct (Nat.eqb i 0); split; lra. Qed.

Lemma ex_scans_bounded : Forall (scan_bounded ex_own) ex_scans.
Proof.
  assert (Hl : forall l : list (list Q),
             forallb (forallb (fun x => Qle_bool 0 x)) l = true ->
             Forall (Forall (fun x => 0 <= x)) l).
  { intros l Hl. apply Forall_forall. intros row Hrow.
    apply Forall_forall. intros x Hx.
    rewrite forallb_forall in Hl.
    apply list_elem_of_In in Hrow. apply list_elem_of_In in Hx.
    pose proof (Hl row Hrow) as Hr. rewrite forallb_forall in Hr.
    apply Qle_bool_iff. exact (Hr x Hx). }
  unfold ex_scans.
  apply Forall_cons; split; [|apply Forall_cons; split; [|apply Forall_nil_2]].
  all: split; [|apply Hl; reflexivity].
  all: intros i x v Hx Hv; destruct i as [|[|i]]; cbn in Hx, Hv;
       try discriminate Hx;
       apply (inj Some) in Hx; apply (inj Some) in Hv; subst x v; split; lra.
Qed.

Lemma X11_witness :
  reset_own ex_draws ex_init = Ok ex_own /\
  exists outs, observe 3 ex_own ex_scans = Ok outs /\ length outs = 2%nat.
Proof.
  split; [exact ex_own_runs|].
  destruct (X11_observation_in_declared_space 3 ex_draws ex_init ex_own ex_scans)
    as (outs & Ho & Hl & _).
  - cbn. lia.
  - cbn. lia.
  - exact ex_draws_unit.
  - exact ex_own_runs.
  - repeat constructor.
  - exact ex_scans_bounded.
  - cbn. lia.
  - exists outs. split; [exact Ho | exact Hl].
Defined.

(** ** [get_state] without a history *)

(** X12: with a history length of at most 1 [get_state] returns the raw
    per-step features and the lidar features as they are, touches neither
    queue and needs no turn of the fill loop; every state row has 4
    entries, which is the length of the declared state box exactly when the
    history length is 1 (for a history length of 0 the declared box is
    empty). *)
Theorem X12_no_history_returns_raw
    (n fuel : nat) (lidar_data : list (list Q)) (rand : nat -> nat -> Q) (e : Env) :
  (history_len e <= 1)%Z -> obs_shaped n e ->
  exists obs,
    raw_state e = Ok obs /\
    get_state fuel lidar_data rand e
      = Ok (e, ObsHistory obs (read_lidar lidar_data rand e)) /\
    length obs = n /\ Forall (fun row => length row = 4%nat) obs /\
    (length (box_low (get_observation_space e).1) = 4%nat <-> history_len e = 1%Z) /\
    ((history_len e <= 0)%Z ->
     forall row, row ∈ obs -> ~ in_box (get_observation_space e).1 row).
Proof.
  intros Hh Hs.
  destruct (raw_state_rows n e Hs) as (obs & Ho & (Hl & Hrows) & _).
  exists obs. split; [exact Ho|]. split.
  { unfold get_state. rewrite Ho. cbn [mbind result_bind]. unfold read_history.
    replace (1 <? history_len e)%Z with false by (symmetry; apply Z.ltb_ge; lia).
    reflexivity. }
  split; [exact Hl|]. split; [exact Hrows|].
  assert (Hbox : length (box_low (get_observation_space e).1)
                 = (Z.to_nat (history_len e) * 4)%nat).
  { cbn [get_observation_space fst box_low]. unfold list_times.
    induction (Z.to_nat (history_len e)) as [|k IH]; [reflexivity|].
    cbn [replicate concat]. rewrite length_app, IH. reflexivity. }
  split.
  - rewrite Hbox. lia.
  - intros H0 row Hrow (Hlen & _).
    rewrite Forall_forall in Hrows. specialize (Hrows row Hrow).
    rewrite Hbox in Hlen. lia.
Qed.

Lemma X12_witness :
  obs_shaped 2 ex_own_flat /\
  exists obs, raw_state ex_own_flat = Ok obs /\ length obs = 2%nat.
Proof.
  assert (Hs : obs_shaped 2 ex_own_flat) by (repeat split).
  split; [exact Hs|].
  destruct (X12_no_history_returns_raw 2 0 ex_lidar ex_noise ex_own_flat)
    as (obs & Ho & _ & Hl & _).
  - cbn. lia.
  - exact Hs.
  - exists obs. split; [exact Ho | exact Hl].
Defined.

(** ** The action resolvers *)

Lemma Qred_inject_Z (k : Z) : Qred (inject_Z k) = inject_Z k.
Proof.
  unfold Qred, inject_Z.
  generalize (Z.ggcd_gcd k 1) (Z.ggcd_correct_divisors k 1).
  destruct (Z.ggcd k 1) as (g & a & b). cbn [fst snd].
  intros Hg (Ha & Hb). rewrite Z.gcd_1_r in Hg. subst g.
  assert (a = k) by lia. assert (b = 1%Z) by lia. subst a b. reflexivity.
Qed.

Lemma mapM_result_ok {A B} (f : A -> result B) (g : A -> B) (l : list A) :
  Forall (fun x => f x = Ok (g x)) l -> mapM f l = Ok (g <$> l).
Proof.
  induction 1 as [|x l Hx _ IH]; [reflexivity|].
  cbn [mapM]. rewrite Hx. cbn [mbind result_bind]. rewrite IH. reflexivity.
Qed.

Lemma mapM_result_raise {A B} (f : A -> result B) (err : error) (l : list A) :
  (forall x, x ∈ l -> f x = Raise err \/ exists y, f x = Ok y) ->
  (exists x, x ∈ l /\ f x = Raise err) ->
  mapM f l = Raise err.
Proof.
  induction l as [|x l IH]; intros Hall (x0 & Hin & Hx0).
  - inversion Hin.
  - cbn [mapM]. destruct (Hall x ltac:(left)) as [E | (y & E)]; rewrite E.
    + reflexivity.
    + cbn [mbind result_bind]. rewrite IH; [reflexivity | |].
      * intros z Hz. apply Hall. right. exact Hz.
      * apply elem_of_cons in Hin as [-> | Hin]; [congruence|].
        exists x0. split; assumption.
Qed.

(** Indexing depends on the value of the index only. *)
Lemma spline_index_proper (l : list Q) (a b : Q) :
  a == b -> Spline.index l a = Spline.index l b.
Proof. intros H. unfold Spline.index. rewrite (Qred_complete a b H). reflexivity. Qed.

Lemma spline_index_cases (l : list Q) (a : Q) :
  Spline.index l a = Raise IndexError \/ exists x, Spline.index l a = Ok x.
Proof.
  unfold Spline.index. cbv zeta.
  destruct (negb _); [left; reflexivity|].
  destruct (_ && _)%bool; [|left; reflexivity].
  destruct (l !! _); [right; eauto | left; reflexivity].
Qed.

Lemma spline_index_in_range (l : list Q) (k : Z) :
  (- Z.of_nat (length l) <= k < Z.of_nat (length l))%Z ->
  exists x,
    l !! Z.to_nat (k mod Z.of_nat (length l)) = Some x /\
    Spline.index l (inject_Z k) = Ok x.
Proof.
  intros Hk. unfold Spline.index. cbv zeta. rewrite Qred_inject_Z.
  cbn [inject_Z Qden Qnum]. rewrite Pos.eqb_refl. cbn [negb].
  set (n := Z.of_nat (length l)) in *.
  assert (Hi : (if (k <? 0)%Z then (k + n)%Z else k) = (k mod n)%Z).
  { destruct (Z.ltb_spec k 0).
    - apply Z.mod_unique with (q := (-1)%Z); lia.
    - symmetry. apply Z.mod_small. lia. }
  rewrite Hi.
  assert (Hm : (0 <= k mod n < n)%Z) by (apply Z.mod_pos_bound; lia).
  replace ((0 <=? k mod n)%Z && (k mod n <? n)%Z)%bool with true
    by (symmetry; apply andb_true_iff; split; [apply Z.leb_le | apply Z.ltb_lt]; lia).
  destruct (lookup_lt_is_Some_2 l (Z.to_nat (k mod n))) as [x Ex]; [unfold n in *; lia|].
  exists x. rewrite Ex. split; reflexivity.
Qed.

Lemma spline_index_out_of_range (l : list Q) (k : Z) :
  (k < - Z.of_nat (length l) \/ Z.of_nat (length l) <= k)%Z ->
  Spline.index l (inject_Z k) = Raise IndexError.
Proof.
  intros Hk. unfold Spline.index. cbv zeta. rewrite Qred_inject_Z.
  cbn [inject_Z Qden Qnum]. rewrite Pos.eqb_refl. cbn [negb].
  set (n := Z.of_nat (length l)) in *.
  destruct (Z.ltb_spec k 0).
  - replace ((0 <=? k + n)%Z) with false by (symmetry; apply Z.leb_gt; lia).
    reflexivity.
  - replace ((k <? n)%Z) with false by (symmetry; apply Z.ltb_ge; lia).
    rewrite andb_false_r. reflexivity.
Qed.

Lemma spline_index_fraction (l : list Q) (a : Q) :
  Qden (Qred a) <> 1%positive -> Spline.index l a = Raise IndexError.
Proof.
  intros Ha. unfold Spline.index. cbv zeta.
  replace (Qden (Qred a) =? 1)%positive with false
    by (symmetry; apply Pos.eqb_neq; exact Ha).
  reflexivity.
Qed.

Lemma spline_action_list_eq :
  Spline.action_list = (fun k => - 3 + inject_Z (Z.of_nat k) * 0.25) <$> seq 0 25.
Proof. reflexivity. Qed.

Lemma spline_action_list_length : length Spline.action_list = 25%nat.
Proof. reflexivity. Qed.

(** X13: the spline variant's resolver on index entries [k] of the
    declared [Discrete(25)] (negative ones, down to [-25], counting from
    the end):
    it returns, and agent [i] gets [(-3 + 0.25 * (k mod 25)) * max_accln *
    rating_i]; the table already spans [-3 .. 3], so with [max_accln = 3]
    and a rating in [[0.5, 1]] the value lies in [[-9, 9]]. *)
Theorem X13_spline_actions_resolve (e : Env) (ks : list Z) :
  Forall (fun k => (- 25 <= k < 25)%Z) ks ->
  length (accln_rating e) = length ks ->
  exists out,
    Spline.discrete_to_continuous_actions (inject_Z <$> ks) e = Ok out /\
    length out = length ks /\
    spline_action_space.2 = 25%nat /\
    forall i k r,
      ks !! i = Some k -> accln_rating e !! i = Some r ->
      exists x,
        out !! i = Some x /\
        x == (- 3 + inject_Z (k mod 25) * 0.25) * max_accln e * r /\
        (max_accln e == 3 -> 0.5 <= r /\ r <= 1 -> - 9 <= x /\ x <= 9).
Proof.
  intros Hks Hlen.
  set (g := fun a : Q => - 3 + inject_Z (Z.of_nat (Z.to_nat (Qnum a mod 25))) * 0.25).
  assert (Hmap : mapM (Spline.index Spline.action_list) (inject_Z <$> ks)
                 = Ok (g <$> (inject_Z <$> ks))).
  { apply mapM_result_ok. apply Forall_fmap.
    eapply Forall_impl; [exact Hks|]. intros k Hk. cbn beta in Hk.
    change (Spline.index Spline.action_list (inject_Z k) = Ok (g (inject_Z k))).
    destruct (spline_index_in_range Spline.action_list k) as (x & Ex & Ei).
    { rewrite spline_action_list_length. lia. }
    rewrite Ei. f_equal.
    rewrite spline_action_list_length in Ex. change (Z.of_nat 25) with 25%Z in Ex.
    rewrite spline_action_list_eq, list_lookup_fmap in Ex.
    assert (Hm : (0 <= k mod 25 < 25)%Z) by (apply Z.mod_pos_bound; lia).
    rewrite (lookup_seq_lt 0 25 (Z.to_nat (k mod 25))) in Ex by lia.
    cbn in Ex. apply (inj Some) in Ex. subst x. reflexivity. }
  unfold Spline.discrete_to_continuous_actions. rewrite Hmap.
  cbn [mbind result_bind].
  rewrite bcast_same by (rewrite !length_fmap; lia).
  eexists. split; [reflexivity|].
  split; [rewrite length_zip_with, !length_fmap; lia|].
  split; [reflexivity|].
  intros i k r Hk Hr. eexists. split.
  { apply lookup_zip_with_Some. exists (g (inject_Z k)), r.
    split; [reflexivity|]. split; [|exact Hr].
    rewrite !list_lookup_fmap, Hk. reflexivity. }
  rewrite Forall_lookup in Hks. pose proof (Hks i k Hk) as Hrange.
  assert (Hm : (0 <= k mod 25 < 25)%Z) by (apply Z.mod_pos_bound; lia).
  unfold g. cbn [inject_Z Qnum]. rewrite Z2Nat.id by lia.
  split; [reflexivity|].
  intros HA (Hr1 & Hr2).
  assert (B1 : 0 <= inject_Z (k mod 25)).
  { change 0 with (inject_Z 0). rewrite <- Zle_Qle. lia. }
  assert (B2 : inject_Z (k mod 25) <= 24).
  { change 24 with (inject_Z 24). rewrite <- Zle_Qle. lia. }
  remember (inject_Z (k mod 25)) as m eqn:Em. clear Em.
  rewrite HA.
  assert (P1 : 0 <= (m * 0.25) * r) by (apply Qmult_le_0_compat; lra).
  assert (P2 : 0 <= (6 - m * 0.25) * r) by (apply Qmult_le_0_compat; lra).
  split; nra.
Qed.

Lemma X13_witness :
  exists out,
    Spline.discrete_to_continuous_actions (inject_Z <$> [0; -1]%Z) ex_own = Ok out /\
    length out = 2%nat.
Proof.
  destruct (X13_spline_actions_resolve ex_own [0; -1]%Z) as (out & Ho & Hl & _).
  - repeat constructor; lia.
  - reflexivity.
  - exists out. split; [exact Ho | exact Hl].
Defined.

(** X14: an index entry that is not an integer, or an integer outside
    [[-25, 25)], makes the spline variant's resolver raise [IndexError],
    whatever the other entries and the shape of the ratings are: the table
    look-up comes before the product. *)
Theorem X14_spline_bad_index (e : Env) (action : list Q) (a : Q) :
  a ∈ action ->
  (Qden (Qred a) <> 1%positive \/
   exists k, a == inject_Z k /\ (k < - 25 \/ 25 <= k)%Z) ->
  Spline.discrete_to_continuous_actions action e = Raise IndexError.
Proof.
  intros Hin Hbad. unfold Spline.discrete_to_continuous_actions.
  rewrite (mapM_result_raise (Spline.index Spline.action_list) IndexError action).
  - reflexivity.
  - intros x _. apply spline_index_cases.
  - exists a. split; [exact Hin|].
    destruct Hbad as [Hd | (k & Ek & Hk)].
    + apply spline_index_fraction. exact Hd.
    + rewrite (spline_index_proper _ a (inject_Z k) Ek).
      apply spline_index_out_of_range. rewrite spline_action_list_length. lia.
Qed.

Lemma X14_witness :
  Spline.discrete_to_continuous_actions [0; 25] ex_own = Raise IndexError.
Proof.
  apply (X14_spline_bad_index ex_own [0; 25] 25).
  - right. left.
  - right. exists 25%Z. split; [reflexivity | lia].
Defined.

(** ** The resolvers of the bicycle variants *)

Lemma bicycle_index_in_range (l : list (Q * Q)) (k : Z) :
  (- Z.of_nat (length l) <= k < Z.of_nat (length l))%Z ->
  exists x,
    l !! Z.to_nat (k mod Z.of_nat (length l)) = Some x /\
    DiscreteBicycle.index l (inject_Z k) = Ok x.
Proof.
  intros Hk. unfold DiscreteBicycle.index. cbv zeta. rewrite Qred_inject_Z.
  cbn [inject_Z Qden Qnum]. rewrite Pos.eqb_refl. cbn [negb].
  set (n := Z.of_nat (length l)) in *.
  assert (Hi : (if (k <? 0)%Z then (k + n)%Z else k) = (k mod n)%Z).
  { destruct (Z.ltb_spec k 0).
    - apply Z.mod_unique with (q := (-1)%Z); lia.
    - symmetry. apply Z.mod_small. lia. }
  rewrite Hi.
  assert (Hm : (0 <= k mod n < n)%Z) by (apply Z.mod_pos_bound; lia).
  replace ((0 <=? k mod n)%Z && (k mod n <? n)%Z)%bool with true
    by (symmetry; apply andb_true_iff; split; [apply Z.leb_le | apply Z.ltb_lt]; lia).
  destruct (lookup_lt_is_Some_2 l (Z.to_nat (k mod n))) as [x Ex]; [unfold n in *; lia|].
  exists x. rewrite Ex. split; reflexivity.
Qed.

Lemma bicycle_action_list_eq :
  DiscreteBicycle.action_list
  = (fun j => (- 0.1 + inject_Z (Z.of_nat (j / 9)) * 0.05,
               - 1 + inject_Z (Z.of_nat (j mod 9)) * 0.25)) <$> seq 0 45.
Proof. vm_compute. reflexivity. Qed.

Lemma bicycle_action_list_length : length DiscreteBicycle.action_list = 45%nat.
Proof. reflexivity. Qed.

(** X15: the discrete bicycle variant's resolver on index entries [k] of
    its [Discrete(45)] space: it returns, agent [i] gets the steering
    [-0.1 + 0.05 * (k' / 9)] and the acceleration
    [(-1 + 0.25 * (k' mod 9)) * max_accln * rating_i] for [k' = k mod 45];
    the steering lies in [[-0.1, 0.1]] and, for a rating in [[0, 1]], the
    acceleration within [max_accln]. *)
Theorem X15_discrete_bicycle_grid (e : Env) (ks : list Z) :
  Forall (fun k => (- 45 <= k < 45)%Z) ks ->
  length (accln_rating e) = length ks ->
  exists out,
    DiscreteBicycle.discrete_to_continuous_actions (inject_Z <$> ks) e = Ok out /\
    length out = length ks /\
    Z.of_nat DiscreteBicycle.get_action_space = 45%Z /\
    forall i k r,
      ks !! i = Some k -> accln_rating e !! i = Some r ->
      exists s a,
        out !! i = Some (s, a) /\
        s == - 0.1 + inject_Z ((k mod 45) / 9) * 0.05 /\
        a == (- 1 + inject_Z ((k mod 45) mod 9) * 0.25) * max_accln e * r /\
        (- 0.1 <= s /\ s <= 0.1) /\
        (0 <= max_accln e -> 0 <= r /\ r <= 1 ->
         - max_accln e <= a /\ a <= max_accln e).
Proof.
  intros Hks Hlen.
  set (g := fun a : Q =>
              let j := Z.to_nat (Qnum a mod 45) in
              (- 0.1 + inject_Z (Z.of_nat (j / 9)) * 0.05,
               - 1 + inject_Z (Z.of_nat (j mod 9)) * 0.25)).
  assert (Hmap : mapM (DiscreteBicycle.index DiscreteBicycle.action_list)
                   (inject_Z <$> ks)
                 = Ok (g <$> (inject_Z <$> ks))).
  { apply mapM_result_ok. apply Forall_fmap.
    eapply Forall_impl; [exact Hks|]. intros k Hk. cbn beta in Hk.
    change (DiscreteBicycle.index DiscreteBicycle.action_list (inject_Z k)
            = Ok (g (inject_Z k))).
    destruct (bicycle_index_in_range DiscreteBicycle.action_list k) as (x & Ex & Ei).
    { rewrite bicycle_action_list_length. lia. }
    rewrite Ei. f_equal.
    rewrite bicycle_action_list_length in Ex. change (Z.of_nat 45) with 45%Z in Ex.
    rewrite bicycle_action_list_eq, list_lookup_fmap in Ex.
    assert (Hm : (0 <= k mod 45 < 45)%Z) by (apply Z.mod_pos_bound; lia).
    rewrite (lookup_seq_lt 0 45 (Z.to_nat (k mod 45))) in Ex by lia.
    cbn [fmap option_fmap option_map Nat.add] in Ex.
    apply (inj Some) in Ex. subst x. reflexivity. }
  unfold DiscreteBicycle.discrete_to_continuous_actions. rewrite Hmap.
  cbn [mbind result_bind].
  rewrite bcast_same by (rewrite !length_fmap; lia).
  cbn [mbind result_bind].
  rewrite bcast_into_same by (rewrite length_zip_with, !length_fmap; lia).
  eexists. split; [reflexivity|].
  split; [rewrite !length_zip_with, !length_fmap; lia|].
  split; [reflexivity|].
  intros i k r Hk Hr.
  rewrite Forall_lookup in Hks. pose proof (Hks i k Hk) as Hrange.
  cbn beta in Hrange.
  assert (Hm : (0 <= k mod 45 < 45)%Z) by (apply Z.mod_pos_bound; lia).
  exists (g (inject_Z k)).1, ((g (inject_Z k)).2 * max_accln e * r). split.
  { apply lookup_zip_with_Some. exists (g (inject_Z k)), ((g (inject_Z k)).2 * max_accln e * r).
    split; [reflexivity|].
    split; [rewrite !list_lookup_fmap, Hk; reflexivity|].
    apply lookup_zip_with_Some. exists (g (inject_Z k)), r.
    split; [reflexivity|]. split; [|exact Hr].
    rewrite !list_lookup_fmap, Hk. reflexivity. }
  unfold g. cbv zeta. cbn [inject_Z Qnum fst snd].
  rewrite Nat2Z.inj_div, Nat2Z.inj_mod, Z2Nat.id by lia.
  change (Z.of_nat 9) with 9%Z.
  assert (Hq : (0 <= (k mod 45) / 9 <= 4)%Z).
  { split; [apply Z.div_pos; lia|].
    assert ((k mod 45) / 9 < 5)%Z by (apply Z.div_lt_upper_bound; lia). lia. }
  assert (Hr9 : (0 <= (k mod 45) mod 9 < 9)%Z) by (apply Z.mod_pos_bound; lia).
  assert (B1 : 0 <= inject_Z ((k mod 45) / 9)).
  { change 0 with (inject_Z 0). rewrite <- Zle_Qle. lia. }
  assert (B2 : inject_Z ((k mod 45) / 9) <= 4).
  { change 4 with (inject_Z 4). rewrite <- Zle_Qle. lia. }
  assert (B3 : 0 <= inject_Z ((k mod 45) mod 9)).
  { change 0 with (inject_Z 0). rewrite <- Zle_Qle. lia. }
  assert (B4 : inject_Z ((k mod 45) mod 9) <= 8).
  { change 8 with (inject_Z 8). rewrite <- Zle_Qle. lia. }
  remember (inject_Z ((k mod 45) / 9)) as qs eqn:E1.
  remember (inject_Z ((k mod 45) mod 9)) as qa eqn:E2. clear E1 E2.
  split; [reflexivity|]. split; [reflexivity|].
  split; [split; lra|].
  intros HA (Hr1 & Hr2).
  remember (max_accln e) as A eqn:EA. clear EA.
  assert (P0 : 0 <= A * r) by (apply Qmult_le_0_compat; lra).
  assert (P1 : 0 <= A * (1 - r)) by (apply Qmult_le_0_compat; lra).
  assert (P2 : 0 <= (qa * 0.25) * (A * r)) by (apply Qmult_le_0_compat; lra).
  assert (P3 : 0 <= (2 - qa * 0.25) * (A * r)) by (apply Qmult_le_0_compat; lra).
  split; nra.
Qed.

Lemma X15_witness :
  exists out,
    DiscreteBicycle.discrete_to_continuous_actions (inject_Z <$> [0; -1]%Z) ex_own
    = Ok out /\ length out = 2%nat.
Proof.
  destruct (X15_discrete_bicycle_grid ex_own [0; -1]%Z) as (out & Ho & Hl & _).
  - repeat constructor; lia.
  - reflexivity.
  - exists out. split; [exact Ho | exact Hl].
Defined.

(** X16: the continuous variant's resolver, given one rating per action
    row, keeps the first (steering) column of every row and multiplies the
    other entries by [max_accln * rating_i]; a row of the declared action
    space comes back with the same steering, within [[-0.1, 0.1]], and an
    acceleration within [max_accln] when the rating lies in [[0, 1]]. *)
Theorem X16_continuous_actions_scaled (e : Env) (actions : list (list Q)) :
  length (accln_rating e) = length actions ->
  exists out,
    discrete_to_continuous_actions actions e = Ok out /\
    length out = length actions /\
    forall i row r,
      actions !! i = Some row -> accln_rating e !! i = Some r ->
      out !! i
      = Some (take 1 row ++ ((fun a => a * max_accln e * r) <$> drop 1 row)) /\
      (in_box get_action_space row -> 0 <= max_accln e -> 0 <= r /\ r <= 1 ->
       exists s a,
         out !! i = Some [s; a] /\ row !! 0%nat = Some s /\
         (- 0.1 <= s /\ s <= 0.1) /\
         (- max_accln e <= a /\ a <= max_accln e)).
Proof.
  intros Hlen. unfold discrete_to_continuous_actions.
  rewrite bcast_same by (rewrite length_fmap; lia).
  cbn [mbind result_bind].
  rewrite bcast_into_same by (rewrite length_zip_with, length_fmap; lia).
  eexists. split; [reflexivity|].
  split; [rewrite !length_zip_with, length_fmap; lia|].
  intros i row r Hrow Hr.
  assert (Hout : zip_with (fun (row0 : list Q) t => take 1 row0 ++ t) actions
                   (zip_with (fun (row0 : list Q) r0 =>
                                (fun a => a * max_accln e * r0) <$> row0)
                      (drop 1 <$> actions) (accln_rating e)) !! i
                 = Some (take 1 row ++ ((fun a => a * max_accln e * r) <$> drop 1 row))).
  { apply lookup_zip_with_Some. eexists row, _. split; [reflexivity|].
    split; [exact Hrow|].
    apply lookup_zip_with_Some. exists (drop 1 row), r.
    split; [reflexivity|]. split; [|exact Hr].
    rewrite list_lookup_fmap, Hrow. reflexivity. }
  split; [exact Hout|].
  intros (L1 & _ & Hb) HA (Hr1 & Hr2).
  cbn [get_action_space box_low box_high length] in L1, Hb.
  destruct row as [|s [|a [|? ?]]]; try discriminate L1.
  exists s, (a * max_accln e * r). split; [exact Hout|]. split; [reflexivity|].
  destruct (Hb 0%nat s (- 0.1) (Some 0.1) eq_refl eq_refl eq_refl) as (S1 & S2).
  destruct (Hb 1%nat a (- 1) (Some 1) eq_refl eq_refl eq_refl) as (A1 & A2).
  split; [split; assumption|].
  remember (max_accln e) as A eqn:EA. clear EA Hout Hb.
  assert (P0 : 0 <= A * r) by (apply Qmult_le_0_compat; lra).
  assert (P1 : 0 <= A * (1 - r)) by (apply Qmult_le_0_compat; lra).
  assert (P2 : 0 <= (a + 1) * (A * r)) by (apply Qmult_le_0_compat; lra).
  assert (P3 : 0 <= (1 - a) * (A * r)) by (apply Qmult_le_0_compat; lra).
  split; nra.
Qed.

Lemma X16_witness :
  exists out,
    discrete_to_continuous_actions [[0.05; 1]; [- 0.1; - 0.5]] ex_own = Ok out /\
    length out = 2%nat.
Proof.
  destruct (X16_continuous_actions_scaled ex_own [[0.05; 1]; [- 0.1; - 0.5]])
    as (out & Ho & Hl & _).
  - reflexivity.
  - exists out. split; [exact Ho | exact Hl].
Defined.

(** X17: the continuous variant's resolver writes into the caller's
    tensor, so the product must fit it: when the number of action rows
    differs from the number of ratings, and there is not exactly one
    rating, the call raises [RuntimeError]. *)
Theorem X17_continuous_actions_shape_error (e : Env) (actions : list (list Q)) :
  length actions <> length (accln_rating e) ->
  length (accln_rating e) <> 1%nat ->
  discrete_to_continuous_actions actions e = Raise RuntimeError.
Proof.
  intros Hne H1. unfold discrete_to_continuous_actions, bcast.
  destruct (decide _) as [E|_]; [rewrite length_fmap in E; contradiction|].
  destruct actions as [|row [|row' actions]].
  - cbn [fmap list_fmap].
    destruct (accln_rating e) as [|r [|r' rs]]; try reflexivity; contradiction.
  - cbn [fmap list_fmap mbind result_bind]. unfold bcast_into.
    destruct (decide _) as [E|_].
    { rewrite length_fmap in E. cbn in E. cbn in Hne. congruence. }
    destruct (accln_rating e) as [|r [|r' rs]]; try reflexivity; contradiction.
  - cbn [fmap list_fmap].
    destruct (accln_rating e) as [|r [|r' rs]]; try reflexivity; contradiction.
Qed.

Lemma X17_witness :
  discrete_to_continuous_actions [[0.05; 1]] ex_own = Raise RuntimeError.
Proof.
  apply (X17_continuous_actions_shape_error ex_own [[0.05; 1]]).
  - cbn. lia.
  - cbn. lia.
Defined.

(** ** Spline variant: observations against the declared spaces *)

(** The raw state of the spline variant, row by row. *)
Lemma spline_raw_state_rows (n : nat) (e : Env) :
  obs_shaped n e ->
  exists obs,
    Spline.raw_state e = Ok obs /\ tensor_shape n 2 obs /\
    forall i p d s v,
      position (agent e) !! i = Some p ->
      destination (agent e) !! i = Some d ->
      speed (agent e) !! i = Some s ->
      v_lim_of (dynamics e) !! i = Some v ->
      obs !! i = Some [1 / clamp_min 1 (Qabs (d.1 - p.1)); s / v].
Proof.
  intros Hs.
  destruct (spline_raw_state_ok n e Hs) as (obs & Eo & So).
  exists obs. split; [exact Eo|]. split; [exact So|].
  destruct Hs as (Hp & Hd & Hs & Hv & Ha & Hr).
  revert Eo. unfold Spline.raw_state. run_bcast.
  rewrite cat_last_cols2 by shape_tac.
  intros Eo. injection Eo as <-.
  intros i p d s v Ep Ed Es Ev.
  unfold col. change point with (Q * Q)%type in *.
  repeat rewrite ?lookup_zip_with, ?list_lookup_fmap, ?Ep, ?Ed, ?Es, ?Ev; simpl.
  reflexivity.
Qed.

Lemma spline_raw_state_in_box (n : nat) (e : Env) (obs : list (list Q)) :
  obs_shaped n e -> Spline.raw_state e = Ok obs ->
  (forall i x v, speed (agent e) !! i = Some x ->
                 v_lim_of (dynamics e) !! i = Some v ->
                 0 < v /\ - v <= x /\ x <= v) ->
  Forall (in_box state_box2) obs.
Proof.
  intros Hs Ho Hspeed.
  destruct (spline_raw_state_rows n e Hs) as (obs' & Ho' & (Hl & _) & Hrows).
  rewrite Ho in Ho'. injection Ho' as <-.
  destruct Hs as (Lp & Ld & Ls & Lv & La & Lr).
  apply Forall_lookup. intros i row Hrow.
  assert (Hi : (i < n)%nat) by (apply lookup_lt_Some in Hrow; lia).
  destruct (lookup_lt_is_Some_2 (position (agent e)) i) as [p Ep]; [lia|].
  destruct (lookup_lt_is_Some_2 (destination (agent e)) i) as [d Ed]; [lia|].
  destruct (lookup_lt_is_Some_2 (speed (agent e)) i) as [s Es]; [lia|].
  destruct (lookup_lt_is_Some_2 (v_lim_of (dynamics e)) i) as [v Ev]; [lia|].
  rewrite (Hrows i p d s v Ep Ed Es Ev) in Hrow.
  apply (inj Some) in Hrow. subst row.
  destruct (Hspeed i s v Es Ev) as (Hv0 & Hs1 & Hs2).
  destruct (inv_dist_bounds (Qabs (d.1 - p.1))) as (B1 & B2).
  unfold inv_dist_of in B1, B2.
  assert (R1 : -1 <= s / v).
  { apply Qle_shift_div_l; [exact Hv0 | lra]. }
  assert (R2 : s / v <= 1).
  { apply Qle_shift_div_r; [exact Hv0 | lra]. }
  remember (1 / clamp_min 1 (Qabs (d.1 - p.1))) as x0 eqn:E0.
  remember (s / v) as x1 eqn:E1. clear E0 E1.
  split; [reflexivity|]. split; [reflexivity|].
  intros j x lo hi Hx Hlo Hhi.
  destruct j as [|[|j]]; cbn in Hx, Hlo, Hhi; try discriminate Hx;
    apply (inj Some) in Hx; apply (inj Some) in Hlo; apply (inj Some) in Hhi;
    subst x lo hi; split; lra.
Qed.

(** What presenting a scan leaves as it is. *)
Lemma spline_present_fields (e : Env) (s : SplineScan) :
  history_len (spline_present e s) = history_len e /\
  npoints (spline_present e s) = npoints e /\
  got_spline_state (spline_present e s) = got_spline_state e /\
  accln_rating (spline_present e s) = accln_rating e /\
  vel_rating (spline_present e s) = vel_rating e /\
  max_velocity (spline_present e s) = max_velocity e /\
  queue1 (spline_present e s) = queue1 e /\
  queue2 (spline_present e s) = queue2 e /\
  agent (spline_present e s) = scan_agent (sscan s) /\
  (v_lim_of (dynamics e) = (fun r => r * max_velocity e) <$> vel_rating e ->
   v_lim_of (dynamics (spline_present e s)) = v_lim_of (dynamics e)).
Proof.
  unfold spline_present. cbv zeta.
  destruct (sscan_path s) as [path|]; cbn; repeat split; try reflexivity.
  intros H. symmetry. exact H.
Qed.

(** Reads of the history, from queues that hold in-box entries, return
    in-box observations. *)
Lemma spline_observe_in_box (n w fuel : nat) (e0 : Env) (ss : list SplineScan) :
  forall (e : Env),
  got_spline_state e = true ->
  (1 < history_len e0)%Z -> history_len e = history_len e0 ->
  vel_rating e = vel_rating e0 -> max_velocity e = max_velocity e0 ->
  v_lim_of (dynamics e) = v_lim_of (dynamics e0) ->
  v_lim_of (dynamics e0) = (fun r => r * max_velocity e0) <$> vel_rating e0 ->
  length (vel_rating e0) = n -> length (accln_rating e) = n ->
  (forall i v, v_lim_of (dynamics e0) !! i = Some v -> 0 < v) ->
  queues_ok n 2 w e ->
  Forall (Forall (in_box state_box2)) (items (queue1 e)) ->
  Forall (Forall (Forall (fun x => 0 <= x))) (items (queue2 e)) ->
  Forall (fun s => scan_shaped n w (sscan s)) ss ->
  Forall (fun s => scan_bounded e0 (sscan s)) ss ->
  (Z.to_nat (history_len e0) <= fuel)%nat ->
  exists outs,
    spline_observe fuel e ss = Ok outs /\ length outs = length ss /\
    forall j ej o,
      outs !! j = Some (ej, o) ->
      exists s l,
        o = ObsHistory s l /\
        Forall (in_box
                  {| box_low := list_times [0; -1] (history_len e0);
                     box_high := list_times [Some 1; Some 1] (history_len e0) |}) s /\
        Forall (fun row => length row = (w * Z.to_nat (history_len e0))%nat /\
                           Forall (fun x => 0 <= x) row) l.
Proof.
  induction ss as [|sc ss IH];
    intros e Hg Hh1 Hh Hv Hm Hd Hd0 Lv La Hvpos Hq Q1 Q2 Hss Hbs Hfuel.
  - exists []. split; [reflexivity|]. split; [reflexivity|].
    intros j ej o Hj. destruct j; discriminate Hj.
  - apply Forall_cons in Hss as (Hsc & Hss').
    apply Forall_cons in Hbs as (Hbc & Hbs').
    destruct (spline_present_fields e sc)
      as (Ph & _ & Pg & Pa & Pv & Pm & P1 & P2 & Pag & Pd).
    assert (Hde : v_lim_of (dynamics e)
                  = (fun r => r * max_velocity e) <$> vel_rating e).
    { rewrite Hd, Hm, Hv. exact Hd0. }
    specialize (Pd Hde).
    set (e1 := spline_present e sc) in *.
    destruct Hsc as (Sp & Sd & Ss & Hlid).
    assert (Ho : obs_shaped n e1).
    { unfold obs_shaped. rewrite Pag, Pd, Hd, Hd0, Pa, Pv, Hv, length_fmap.
      repeat split; assumption. }
    assert (Hq1 : queues_ok n 2 w e1).
    { unfold queues_ok. rewrite Ph, P1, P2. exact Hq. }
    assert (Hh1' : (1 < history_len e1)%Z) by (rewrite Ph, Hh; exact Hh1).
    assert (Hfuel' : (Z.to_nat (history_len e1) <= fuel)%nat).
    { rewrite Ph, Hh. exact Hfuel. }
    destruct (spline_raw_state_rows _ e1 Ho) as (obs & Eo & So & _).
    destruct (read_history_spec _ 2 w fuel obs
                (read_lidar (scan_lidar (sscan sc)) (scan_rand (sscan sc)) e1) e1
                Hh1' Hq1 So
                (read_lidar_shape _ w (scan_lidar (sscan sc)) (scan_rand (sscan sc)) e1 Hlid)
                Hfuel')
      as (q1 & q2 & s & l & Eg & M1 & M2 & I1 & I2 & L1 & L2 & Hq' & C1 & C2 & S1 & S2).
    rewrite Ph, Hh in L1, L2, S1, S2.
    rewrite P1 in I1. rewrite P2 in I2.
    destruct Hbc as (Hsp & Hln).
    assert (Bobs : Forall (in_box state_box2) obs).
    { apply (spline_raw_state_in_box _ e1 obs Ho Eo).
      intros i x v Hx Hvi. rewrite Pag in Hx. rewrite Pd, Hd in Hvi.
      destruct (Hsp i x v Hx Hvi) as (B1 & B2).
      split; [eapply Hvpos; eauto | split; assumption]. }
    pose proof (read_lidar_nonneg (scan_lidar (sscan sc)) (scan_rand (sscan sc))
                  e1 Hln) as Blid.
    assert (Q1' : Forall (Forall (in_box state_box2)) (items q1)).
    { rewrite I1. apply tail_fill_forall; assumption. }
    assert (Q2' : Forall (Forall (Forall (fun x => 0 <= x))) (items q2)).
    { rewrite I2. apply tail_fill_forall; assumption. }
    set (e' := set_queues e1 q1 q2) in *.
    destruct (IH e') as (outs & Eobs & Hlen & Hall); try assumption.
    { cbn. rewrite Pg. exact Hg. }
    { cbn. rewrite Ph. exact Hh. }
    { cbn. rewrite Pv. exact Hv. }
    { cbn. rewrite Pm. exact Hm. }
    { cbn. rewrite Pd. exact Hd. }
    { cbn. rewrite Pa. exact La. }
    exists ((e', ObsHistory s l) :: outs). split; [|split].
    + cbn [spline_observe]. fold e1. unfold Spline.get_state.
      rewrite Pg, Hg. cbn [negb]. rewrite Eo. cbn [mbind result_bind].
      rewrite Eg. cbn [mbind result_bind]. rewrite Eobs. reflexivity.
    + simpl. congruence.
    + intros j ej o Hj. destruct j as [|j]; [|exact (Hall j ej o Hj)].
      injection Hj as <- <-. exists s, l. split; [reflexivity|]. split.
      * apply Forall_lookup. intros i row Hrow.
        destruct (cat_last_rows_forall _ (items q1) s i row Q1' C1 Hrow)
          as (rows & Frows & Lrows & ->).
        pose proof (in_box_concat _ _ rows Frows) as B.
        unfold list_times. replace (Z.to_nat (history_len e0)) with (length rows) by lia.
        exact B.
      * apply Forall_lookup. intros i row Hrow. split.
        -- destruct S2 as (_ & S2). rewrite Forall_lookup in S2. eapply S2; eauto.
        -- destruct (cat_last_rows_forall _ (items q2) l i row Q2' C2 Hrow)
             as (rows & Frows & _ & ->).
           apply Forall_concat. exact Frows.
Qed.

Lemma reset_own_flag rand e e0 :
  reset_own rand e = Ok e0 -> got_spline_state e0 = got_spline_state e.
Proof.
  unfold reset_own. intros H. inv_binds H.
  unfold add_vehicles_to_world in E. inv_binds E.
  cbn [mret result_ret] in E. injection E as <-.
  cbn [history_len store_dynamics set_dynamics set_agent set_config] in H.
  destruct (history_len e <? 0)%Z; [discriminate H|].
  cbn [mret result_ret] in H. injection H as <-. reflexivity.
Qed.

(** X18: in the spline variant with history length [H > 1], the first read
    after [reset] returns the rating channel, every rating in the declared
    box [[0.5, 1]], and leaves the queues empty; every later read, made by
    a stage-0 step that has bound a new path or after a physics step,
    returns the history, and as long as the speeds stay within the
    velocity limit and the lidar distances are not negative each state row
    lies in [[0, -1] * H .. [1, 1] * H] and each lidar row in [[0, inf)] of
    length [npoints * H], as declared. *)
Theorem X18_spline_observations_in_declared_space
    (fuel : nat) (rand : nat -> Q) (e_init e0 : Env)
    (sc : SplineScan) (ss : list SplineScan) :
  (1 < history_len e_init)%Z -> (0 < nagents e_init)%nat ->
  (forall i, 0 <= rand i /\ rand i < 1) ->
  reset_own rand (set_got_spline_state e_init false) = Ok e0 ->
  Forall (fun s => scan_shaped (nagents e_init) (Z.to_nat (npoints e_init)) (sscan s)) ss ->
  Forall (fun s => scan_bounded e0 (sscan s)) ss ->
  (Z.to_nat (history_len e_init) <= fuel)%nat ->
  exists e1 outs,
    spline_observe fuel e0 (sc :: ss)
    = Ok ((e1, ObsRating (accln_rating e0)) :: outs) /\
    length (accln_rating e0) = nagents e_init /\
    Forall (fun x => in_box (spline_observation_space e_init).1 [x])
      (accln_rating e0) /\
    items (queue1 e1) = [] /\ items (queue2 e1) = [] /\
    length outs = length ss /\
    forall j ej o,
      outs !! j = Some (ej, o) ->
      exists s l,
        o = ObsHistory s l /\
        Forall (in_box (spline_observation_space e_init).2.1) s /\
        Forall (in_box (spline_observation_space e_init).2.2) l.
Proof.
  intros Hh Hn Hrand Hreset Hss Hbs Hfuel.
  pose proof (reset_own_flag _ _ _ Hreset) as Hflag. cbn in Hflag.
  destruct (reset_own_ok rand (set_got_spline_state e_init false) Hn ltac:(cbn; lia))
    as (e0' & Hr' & Ha & Hv & Hm & _ & Hhl & Hnp & _ & Hd & Hq1 & Hq2 & _).
  rewrite Hreset in Hr'. injection Hr' as <-.
  cbn [nagents history_len npoints set_got_spline_state] in Ha, Hv, Hhl, Hnp, Hd, Hq1, Hq2.
  set (n := nagents e_init) in *. set (w := Z.to_nat (npoints e_init)) in *.
  assert (Hrat : forall i a, drawn_ratings rand n !! i = Some a -> 0.5 <= a /\ a <= 1).
  { intros i a Hai. destruct (Hrand i) as (R0 & R1).
    exact (drawn_ratings_range rand n i a R0 R1 Hai). }
  assert (Hln : length (drawn_ratings rand n) = n).
  { unfold drawn_ratings. rewrite length_fmap. apply length_seq. }
  destruct (spline_present_fields e0 sc)
    as (Ph & _ & Pg & Pa & Pv & Pm & P1 & P2 & _ & Pd).
  assert (Hd0 : v_lim_of (dynamics e0)
                = (fun r => r * max_velocity e0) <$> vel_rating e0).
  { rewrite Hd, Hm, Hv. reflexivity. }
  specialize (Pd Hd0).
  set (e1 := set_got_spline_state (spline_present e0 sc) true).
  rewrite <- Hhl in Hfuel, Hh.
  destruct (spline_observe_in_box n w fuel e0 ss e1) as (outs & Eo & Hlen & Hall);
    try assumption; try reflexivity.
  - rewrite Hv. exact Hln.
  - cbn. rewrite Pa, Ha. exact Hln.
  - intros i v Hvi. rewrite Hd in Hvi. cbn [v_lim_of] in Hvi.
    rewrite list_lookup_fmap in Hvi.
    destruct (drawn_ratings rand n !! i) as [a|] eqn:Ea; [|discriminate Hvi].
    cbn in Hvi. apply (inj Some) in Hvi. subst v.
    destruct (Hrat i a Ea). lra.
  - unfold queues_ok. cbn. rewrite Ph, P1, P2, Hq1, Hq2, Hhl.
    cbn [maxlen items deque_new length].
    repeat split; try reflexivity; try lia; constructor.
  - cbn. rewrite P1, Hq1. constructor.
  - cbn. rewrite P2, Hq2. constructor.
  - exists e1, outs. split.
    { cbn [spline_observe]. unfold Spline.get_state. rewrite Pg, Hflag.
      cbn [negb mbind result_bind mret result_ret]. fold e1. rewrite Pa, Eo.
      reflexivity. }
    split; [rewrite Ha; exact Hln|]. split.
    { apply Forall_lookup. intros i a Hai. rewrite Ha in Hai.
      destruct (Hrat i a Hai) as (R1 & R2).
      split; [reflexivity|]. split; [reflexivity|].
      intros j x lo hi Hx Hlo Hhi.
      destruct j as [|j]; cbn in Hx, Hlo, Hhi; try discriminate Hx.
      apply (inj Some) in Hx; apply (inj Some) in Hlo; apply (inj Some) in Hhi.
      subst x lo hi. split; assumption. }
    split; [cbn; rewrite P1, Hq1; reflexivity|].
    split; [cbn; rewrite P2, Hq2; reflexivity|].
    split; [exact Hlen|].
    intros j ej o Hj. destruct (Hall j ej o Hj) as (s & l & -> & Bs & Bl).
    exists s, l. split; [reflexivity|]. rewrite Hhl in Bs, Bl.
    split; [exact Bs|].
    eapply Forall_impl; [exact Bl|]. intros row (Lrow & Nrow).
    cbn [spline_observation_space snd]. apply in_box_nonneg; [|exact Nrow].
    rewrite Lrow. unfold w.
    destruct (Z.le_gt_cases 0 (npoints e_init)) as [Hp | Hp].
    + rewrite Z2Nat.inj_mul by lia. reflexivity.
    + assert (E1 : Z.to_nat (npoints e_init) = 0%nat) by lia.
      assert (E2 : Z.to_nat (npoints e_init * history_len e_init) = 0%nat) by nia.
      rewrite E1, E2. reflexivity.
Qed.

Lemma ex_spline_own_runs :
  reset_own ex_draws (set_got_spline_state ex_init false) = Ok ex_spline_own.
Proof. vm_compute. reflexivity. Qed.

Lemma ex_spline_scans_bounded :
  Forall (fun s => scan_bounded ex_spline_own (sscan s)) (tail ex_spline_scans).
Proof.
  assert (Hl : forall l : list (list Q),
             forallb (forallb (fun x => Qle_bool 0 x)) l = true ->
             Forall (Forall (fun x => 0 <= x)) l).
  { intros l Hl. apply Forall_forall. intros row Hrow.
    apply Forall_forall. intros x Hx.
    rewrite forallb_forall in Hl.
    apply list_elem_of_In in Hrow. apply list_elem_of_In in Hx.
    pose proof (Hl row Hrow) as Hr. rewrite forallb_forall in Hr.
    apply Qle_bool_iff. exact (Hr x Hx). }
  unfold ex_spline_scans. cbn [tail].
  apply Forall_cons; split; [|apply Forall_cons; split; [|apply Forall_nil_2]].
  all: split; [|apply Hl; reflexivity].
  all: intros i x v Hx Hv; destruct i as [|[|i]]; cbn in Hx, Hv;
       try discriminate Hx;
       apply (inj Some) in Hx; apply (inj Some) in Hv; subst x v; split; lra.
Qed.

Lemma X18_witness :
  reset_own ex_draws (set_got_spline_state ex_init false) = Ok ex_spline_own /\
  exists e1 outs,
    spline_observe 3 ex_spline_own ex_spline_scans
    = Ok ((e1, ObsRating (accln_rating ex_spline_own)) :: outs) /\
    length outs = 2%nat.
Proof.
  split; [exact ex_spline_own_runs|].
  destruct (X18_spline_observations_in_declared_space 3 ex_draws ex_init
              ex_spline_own
              {| sscan := {| scan_agent := agent ex_spline_own;
                             scan_lidar := ex_lidar; scan_rand := ex_noise |};
                 sscan_path := None |}
              (tail ex_spline_scans))
    as (e1 & outs & Ho & _ & _ & _ & _ & Hl & _).
  - cbn. lia.
  - cbn. lia.
  - exact ex_draws_unit.
  - exact ex_spline_own_runs.
  - repeat constructor.
  - exact ex_spline_scans_bounded.
  - cbn. lia.
  - exists e1, outs. split; [exact Ho | exact Hl].
Defined.

(** ** Spline variant: a stage-0 call that does not fit *)

(** X19: a stage-0 [step] whose offsets do not come one per agent fails
    before anything is bound: with [IndexError] when there is no vehicle
    position to read the anchor from, with [RuntimeError] otherwise, also
    for a single offset, which the midpoint sum would broadcast but the
    far anchor, repeated once per offset, does not stack with the
    positions. *)
Theorem X19_stage0_offsets_must_fit {A}
    (super_step : list Q -> Env -> result (Env * A))
    (fuel : nat) (lidar_data : list (list Q)) (rand : nat -> nat -> Q)
    (action : list Q) (e : Env) :
  length action <> length (position (agent e)) ->
  Spline.step super_step fuel lidar_data rand 0 action e
  = Raise (match position (agent e) with
           | [] => IndexError
           | _ :: _ => RuntimeError
           end).
Proof.
  intros Hne. unfold Spline.step.
  rewrite bool_decide_eq_true_2 by (apply list_elem_of_here).
  cbn [negb Z.eqb]. unfold Spline.discrete_to_continuous_actions_v2.
  unfold Spline.spline_path. cbv zeta.
  destruct (position (agent e)) as [|p0 rest] eqn:Epos; [reflexivity|].
  cbn [mbind result_bind]. unfold bcast.
  destruct (decide _) as [E|_]; [congruence|].
  destruct rest as [|p1 rest].
  - cbn [mbind result_bind]. unfold cat_pair.
    destruct (decide _) as [E|_]; [|reflexivity].
    rewrite !length_fmap in E. cbn in E. exfalso. apply Hne. cbn. congruence.
  - destruct action as [|a [|a' action]]; try reflexivity.
    cbn [mbind result_bind].
    rewrite cat_pair_same by (rewrite ?length_replicate, ?length_fmap; reflexivity).
    cbn [mbind result_bind].
    rewrite cat_pair_same by (rewrite ?length_replicate, ?length_fmap; reflexivity).
    cbn [mbind result_bind]. unfold Spline.stack4.
    destruct (decide _) as [(_ & _ & E)|_]; [|reflexivity].
    cbn in E. discriminate E.
Qed.

Lemma X19_witness :
  Spline.step ex_super_step 3 ex_lidar ex_noise 0 [1 # 2] ex_spline_start
  = Raise RuntimeError.
Proof.
  apply (X19_stage0_offsets_must_fit ex_super_step 3 ex_lidar ex_noise
           [1 # 2] ex_spline_start).
  cbn. lia.
Defined.

(** ** The permutation-invariant critic *)

Import PPOWaypointPermutationInvariantCentralizedCritic.

Lemma sum_permutation (l l' : list Q) :
  l ≡ₚ l' -> foldr Qplus 0 l == foldr Qplus 0 l'.
Proof.
  induction 1 as [|x l l' _ IH|x y l|l l' l'' _ IH1 _ IH2]; cbn [foldr].
  - reflexivity.
  - rewrite IH. reflexivity.
  - ring.
  - rewrite IH1. exact IH2.
Qed.

Lemma Forall2_fmap_pointwise {A B} (R : B -> B -> Prop) (f g : A -> B) (l : list A) :
  (forall x, R (f x) (g x)) -> Forall2 R (f <$> l) (g <$> l).
Proof.
  intros H. induction l as [|x l IH]; cbn [fmap list_fmap]; constructor; auto.
Qed.

(** The column means do not depend on the order of the rows. *)
Lemma mean0_permutation (h : nat) (rows rows' : list (list Q)) :
  rows ≡ₚ rows' -> Forall (fun r => length r = h) rows ->
  Forall2 Qeq (mean0 rows) (mean0 rows').
Proof.
  intros Hp Hw.
  assert (Hw' : Forall (fun r => length r = h) rows') by (rewrite <- Hp; exact Hw).
  destruct rows as [|r rows].
  { apply Permutation_nil_l in Hp. subst rows'. constructor. }
  destruct rows' as [|r' rows'].
  { apply Permutation_nil_r in Hp. discriminate Hp. }
  unfold mean0.
  replace (length r') with (length r).
  2:{ apply Forall_cons in Hw as (-> & _). apply Forall_cons in Hw' as (-> & _).
      reflexivity. }
  rewrite (Permutation_length Hp).
  apply Forall2_fmap_pointwise. intros j.
  rewrite (sum_permutation _ _ (fmap_Permutation (fun row : list Q => default 0 (row !! j)) _ _ Hp)).
  reflexivity.
Qed.

Lemma mean0_length (h : nat) (r : list Q) (rows : list (list Q)) :
  length r = h -> length (mean0 (r :: rows)) = h.
Proof. intros H. unfold mean0. rewrite length_fmap, length_seq. exact H. Qed.

Lemma apply_row_cases (net : Net) (row : list Q) :
  apply_row net row = Raise RuntimeError \/ exists y, apply_row net row = Ok y.
Proof. unfold apply_row. destruct (Nat.eqb _ _); eauto. Qed.

Lemma cat_rows_cases (vs : list (list Q)) :
  cat_rows vs = Raise RuntimeError \/ cat_rows vs = Ok vs.
Proof.
  unfold cat_rows. destruct vs as [|v vs]; [left; reflexivity|].
  destruct (forallb _ vs); eauto.
Qed.

Lemma cat_rows_same (h : nat) (vs : list (list Q)) :
  vs <> [] -> Forall (fun r => length r = h) vs -> cat_rows vs = Ok vs.
Proof.
  intros Hne Hw. unfold cat_rows. destruct vs as [|v vs]; [contradiction|].
  apply Forall_cons in Hw as (Hv & Hw).
  replace (forallb _ vs) with true; [reflexivity|].
  symmetry. apply forallb_forall. intros u Hu. apply Nat.eqb_eq.
  rewrite Forall_forall in Hw. rewrite Hv. apply Hw.
  apply list_elem_of_In. exact Hu.
Qed.

(** With every observation of the feature network's input width the
    forward pass is the value head on the mean feature. *)
Lemma forward_fits (f_net v_net : Net) (obs_list : list (list Q)) :
  obs_list <> [] ->
  Forall (fun r => length r = net_in f_net) obs_list ->
  forward f_net v_net obs_list
  = apply_row v_net (mean0 (net_fn f_net <$> obs_list)).
Proof.
  intros Hne Hw. unfold forward. destruct obs_list as [|o obs]; [contradiction|].
  rewrite (cat_rows_same (net_in f_net)) by assumption.
  cbn [mbind result_bind]. unfold apply_net.
  rewrite (mapM_result_ok (apply_row f_net) (net_fn f_net)).
  - reflexivity.
  - eapply Forall_impl; [exact Hw|]. intros r Hr. cbn beta in Hr.
    unfold apply_row. rewrite Hr, Nat.eqb_refl. reflexivity.
Qed.

(** An observation of another width makes the forward pass raise. *)
Lemma forward_misfit (f_net v_net : Net) (obs_list : list (list Q)) :
  obs_list <> [] ->
  ~ Forall (fun r => length r = net_in f_net) obs_list ->
  forward f_net v_net obs_list = Raise RuntimeError.
Proof.
  intros Hne Hw. unfold forward. destruct obs_list as [|o obs]; [contradiction|].
  destruct (cat_rows_cases (o :: obs)) as [E | E]; rewrite E; [reflexivity|].
  cbn [mbind result_bind]. unfold apply_net.
  rewrite (mapM_result_raise (apply_row f_net) RuntimeError (o :: obs)).
  - reflexivity.
  - intros x _. apply apply_row_cases.
  - apply not_Forall_Exists in Hw; [|intros x; apply Nat.eq_dec].
    apply Exists_exists in Hw as (x & Hin & Hx).
    exists x. split; [exact Hin|]. unfold apply_row.
    replace (length x =? net_in f_net)%nat with false; [reflexivity|].
    symmetry. apply Nat.eqb_neq. exact Hx.
Qed.

(** X20: the permutation-invariant waypoint critic, on one observation
    vector per agent, gives the same value estimate for every order of the
    agents: the features are computed per agent and averaged, and the value
    head sees only the average.  When the pass fails, it fails with the
    same error for every order; it returns whenever every observation has
    the feature network's input width and the feature width is the value
    head's input width. *)
Theorem X20_critic_permutation_invariant
    (f_net v_net : Net) (obs obs' : list (list Q)) :
  obs ≡ₚ obs' ->
  (forall row, length row = net_in f_net ->
               length (net_fn f_net row) = net_out f_net) ->
  (forall a b, Forall2 Qeq a b -> Forall2 Qeq (net_fn v_net a) (net_fn v_net b)) ->
  match forward f_net v_net obs, forward f_net v_net obs' with
  | Ok a, Ok b => Forall2 Qeq a b
  | Raise x, Raise y => x = y
  | _, _ => False
  end /\
  (obs <> [] -> Forall (fun r => length r = net_in f_net) obs ->
   net_out f_net = net_in v_net ->
   exists a, forward f_net v_net obs = Ok a).
Proof.
  intros Hp Hf Hv. split.
  - destruct obs as [|o obs].
    { apply Permutation_nil_l in Hp. subst obs'. reflexivity. }
    assert (Hne : o :: obs <> []) by discriminate.
    assert (Hne' : obs' <> []).
    { intros ->. apply Permutation_nil_r in Hp. discriminate Hp. }
    destruct (decide (Forall (fun r : list Q => length r = net_in f_net) (o :: obs)))
      as [Hw | Hw].
    + assert (Hw' : Forall (fun r => length r = net_in f_net) obs')
        by (rewrite <- Hp; exact Hw).
      rewrite (forward_fits f_net v_net (o :: obs) Hne Hw).
      rewrite (forward_fits f_net v_net obs' Hne' Hw').
      assert (Hm : Forall2 Qeq (mean0 (net_fn f_net <$> (o :: obs)))
                     (mean0 (net_fn f_net <$> obs'))).
      { apply (mean0_permutation (net_out f_net)).
        - apply fmap_Permutation. exact Hp.
        - apply Forall_fmap. eapply Forall_impl; [exact Hw|].
          intros r Hr. apply Hf. exact Hr. }
      unfold apply_row. rewrite <- (Forall2_length _ _ _ Hm).
      destruct (Nat.eqb _ _); [|reflexivity].
      apply Hv. exact Hm.
    + assert (Hw' : ~ Forall (fun r => length r = net_in f_net) obs').
      { intros H. apply Hw. rewrite Hp. exact H. }
      rewrite (forward_misfit f_net v_net (o :: obs) Hne Hw).
      rewrite (forward_misfit f_net v_net obs' Hne' Hw').
      reflexivity.
  - intros Hne Hw Hio.
    rewrite (forward_fits f_net v_net obs Hne Hw).
    destruct obs as [|o obs]; [contradiction|].
    unfold apply_row. cbn [fmap list_fmap].
    rewrite (mean0_length (net_out f_net)).
    + rewrite Hio, Nat.eqb_refl. eauto.
    + apply Hf. apply Forall_cons in Hw as (Ho & _). exact Ho.
Qed.

Lemma X20_witness :
  exists a b,
    forward ex_f_net ex_v_net [[1; 2]; [3; 5]] = Ok a /\
    forward ex_f_net ex_v_net [[3; 5]; [1; 2]] = Ok b /\
    Forall2 Qeq a b.
Proof.
  destruct (X20_critic_permutation_invariant ex_f_net ex_v_net
              [[1; 2]; [3; 5]] [[3; 5]; [1; 2]]) as (H & _).
  - apply Permutation_swap.
  - intros row Hrow. cbn in Hrow |- *. rewrite length_fmap. exact Hrow.
  - intros a b Hab. cbn. apply Forall2_take. exact Hab.
  - destruct (forward ex_f_net ex_v_net [[1; 2]; [3; 5]]) as [a|] eqn:Ea;
      [|vm_compute in Ea; discriminate Ea].
    destruct (forward ex_f_net ex_v_net [[3; 5]; [1; 2]]) as [b|] eqn:Eb;
      [|vm_compute in Eb; discriminate Eb].
    exists a, b. split; [reflexivity|]. split; [reflexivity | exact H].
Defined.

(** ** Spline variant: committing twice *)

Lemma spline_get_state_geometry fuel lidar_data rand e e' o :
  Spline.get_state fuel lidar_data rand e = Ok (e', o) ->
  length_ e' = length_ e /\ width e' = width e.
Proof.
  unfold Spline.get_state. intros H.
  destruct (negb (got_spline_state e)).
  - injection H as <- <-. split; reflexivity.
  - apply bind_Ok_inv in H. destruct H as (obs & E & H). cbv beta zeta in H.
    unfold read_history in H.
    destruct (1 <? history_len e)%Z.
    + destruct (fill_queues _ _ _ _ _ _) as [[q1 q2]|]; [|discriminate].
      inv_binds H. injection H as <- <-. split; reflexivity.
    + injection H as <- <-. split; reflexivity.
Qed.

Lemma stage0_geometry {A} (super_step : list Q -> Env -> result (Env * A))
    fuel lidar_data rand action e e' r :
  Spline.step super_step fuel lidar_data rand 0 action e = Ok (e', r) ->
  length_ e' = length_ e /\ width e' = width e.
Proof.
  unfold Spline.step. intros H.
  rewrite bool_decide_eq_true_2 in H by (apply list_elem_of_here).
  cbn [negb Z.eqb] in H. unfold Spline.discrete_to_continuous_actions_v2 in H.
  apply bind_Ok_inv in H. destruct H as (path & Ep & H). cbv beta zeta in H.
  apply bind_Ok_inv in H. destruct H as ([e1 o] & Es & H).
  injection H as <- <-.
  apply spline_get_state_geometry in Es. exact Es.
Qed.

Lemma spline_path_ext (action : list Q) (e e' : Env) :
  agent e' = agent e -> length_ e' = length_ e -> width e' = width e ->
  Spline.spline_path action e' = Spline.spline_path action e.
Proof. intros Ha Hl Hw. unfold Spline.spline_path. rewrite Ha, Hl, Hw. reflexivity. Qed.

(** X21: a stage-0 [step] can be repeated, and the last offsets win: after
    two stage-0 calls in a row the bound model is the one a single call
    with the second offsets would have bound in the first place; nothing
    of the first offsets is left in it, and the vehicles and the step
    counter are as before the first call. *)
Theorem X21_stage0_last_offsets_win {A B}
    (super1 : list Q -> Env -> result (Env * A))
    (super2 : list Q -> Env -> result (Env * B))
    (fuel1 fuel2 : nat) (lidar1 lidar2 : list (list Q))
    (rand1 rand2 : nat -> nat -> Q) (a1 a2 : list Q)
    (e e1 e2 : Env) (r1 : A + Observation) (r2 : B + Observation) :
  Spline.step super1 fuel1 lidar1 rand1 0 a1 e = Ok (e1, r1) ->
  Spline.step super2 fuel2 lidar2 rand2 0 a2 e1 = Ok (e2, r2) ->
  exists path,
    Spline.spline_path a2 e = Ok path /\
    dynamics e2
    = SplineModel path ((fun r => r * max_velocity e) <$> vel_rating e) /\
    agent e2 = agent e /\ nsteps e2 = nsteps e.
Proof.
  intros H1 H2.
  destruct (stage0_geometry _ _ _ _ _ _ _ _ H1) as (G1 & G2).
  destruct (stage0_inv _ _ _ _ _ _ _ _ H1)
    as (path1 & o1 & _ & _ & _ & (_ & Rv & Rm & _) & N1 & Ag1).
  destruct (stage0_inv _ _ _ _ _ _ _ _ H2)
    as (path2 & o2 & P2 & _ & D2 & _ & N2 & Ag2).
  exists path2. split.
  { rewrite <- (spline_path_ext a2 e e1 Ag1 G1 G2). exact P2. }
  split; [rewrite D2, Rv, Rm; reflexivity|].
  split; [rewrite Ag2; exact Ag1 | rewrite N2; exact N1].
Qed.

Lemma X21_witness :
  exists path,
    Spline.spline_path [0; 1 # 4] ex_spline_start = Ok path /\
    dynamics ex_stage0_second.1
    = SplineModel path
        ((fun r => r * max_velocity ex_spline_start) <$> vel_rating ex_spline_start).
Proof.
  destruct (X21_stage0_last_offsets_win ex_super_step ex_super_step 3 3
              ex_lidar ex_lidar ex_noise ex_noise [1 # 2; - (1 # 2)] [0; 1 # 4]
              ex_spline_start ex_stage0_first.1 ex_stage0_second.1
              ex_stage0_first.2 ex_stage0_second.2)
    as (path & Hp & Hd & _).
  - vm_compute. reflexivity.
  - vm_compute. reflexivity.
  - exists path. split; [exact Hp | exact Hd].
Defined.

(** ** Spline variant: paths and the road *)

Lemma reset_own_geometry rand e e0 :
  reset_own rand e = Ok e0 -> length_ e0 = 250 /\ width e0 = 25.
Proof.
  unfold reset_own. intros H. inv_binds H.
  unfold add_vehicles_to_world in E. inv_binds E.
  cbn [mret result_ret] in E. injection E as <-.
  cbn [history_len store_dynamics set_dynamics set_agent set_config] in H.
  destruct (history_len e <? 0)%Z; [discriminate H|].
  cbn [mret result_ret] in H. injection H as <-. split; reflexivity.
Qed.

Lemma reset_own_centre_line rand e e0 i p :
  (0 < nagents e)%nat -> (0 <= history_len e)%Z ->
  reset_own rand e = Ok e0 ->
  position (agent e0) !! i = Some p -> p.2 == 0.
Proof.
  intros Hn Hh Hr Hp.
  destruct (reset_own_agent rand e Hn Hh) as (e0' & Hr' & Hpos & _).
  rewrite Hr in Hr'. injection Hr' as <-.
  rewrite Hpos, list_lookup_fmap in Hp.
  change point with (Q * Q)%type in *.
  destruct (zip (cumsum (0 :: replicate (nagents e - 1) 10))
              (replicate (nagents e) 0) !! i) as [[x y]|] eqn:Ez;
    [|discriminate Hp].
  cbn [fmap option_fmap option_map] in Hp. apply (inj Some) in Hp. subst p.
  change point with (Q * Q)%type in *.
  apply lookup_zip_Some in Ez as (_ & Ey).
  apply lookup_replicate in Ey as (-> & _).
  unfold pt_add. cbn [fst snd]. ring.
Qed.

Lemma reset_own_spacing rand e e0 i p :
  (0 < nagents e)%nat -> (0 <= history_len e)%Z ->
  reset_own rand e = Ok e0 ->
  position (agent e0) !! i = Some p ->
  p.1 == - 95 + 10 * inject_Z (Z.of_nat i) /\ (i < nagents e)%nat.
Proof.
  intros Hn Hh Hr Hp.
  destruct (reset_own_agent rand e Hn Hh) as (e0' & Hr' & Hpos & _).
  rewrite Hr in Hr'. injection Hr' as <-.
  rewrite Hpos, list_lookup_fmap in Hp.
  change point with (Q * Q)%type in *.
  destruct (zip (cumsum (0 :: replicate (nagents e - 1) 10))
              (replicate (nagents e) 0) !! i) as [[x y]|] eqn:Ez;
    [|discriminate Hp].
  cbn [fmap option_fmap option_map] in Hp. apply (inj Some) in Hp. subst p.
  apply lookup_zip_Some in Ez as (Ex & Ey).
  apply lookup_replicate in Ey as (_ & Hi).
  destruct (cumsum_spacing (nagents e) i Hi) as (x' & Ex' & Hx').
  rewrite Ex in Ex'. apply (inj Some) in Ex'. subst x'.
  split; [|exact Hi].
  unfold pt_add. cbn [fst snd]. rewrite Hx'. field.
Qed.

(** X22: right after [reset], a stage-0 call with one offset per agent
    from the declared offset box [[-0.75, 0.75]] binds paths whose points
    are all at most [0.75 * width / 2] off the centre line the agents start
    on, inside the road's width of 25.  Along the road, the points lie
    between the road's ends [- length / 2] and [length / 2] as long as
    there are at most 18 agents; the midpoint of agent [i] is at
    [x = -45 + 10 * i], past the end at 125 from agent 18 on. *)
Theorem X22_stage0_paths_lateral_bound
    (rand : nat -> Q) (e e0 : Env) (action : list Q) :
  (0 < nagents e)%nat -> (0 <= history_len e)%Z ->
  reset_own rand e = Ok e0 ->
  length action = nagents e ->
  Forall (fun a => in_box spline_action_space.1 [a]) action ->
  exists path,
    Spline.spline_path action e0 = Ok path /\ length path = nagents e /\
    width e0 = 25 /\ length_ e0 = 250 /\
    forall i pts,
      path !! i = Some pts ->
      Forall (fun q : point =>
                - (0.75 * (width e0 / 2)) <= q.2 /\ q.2 <= 0.75 * (width e0 / 2))
        pts /\
      (exists m, pts !! 1%nat = Some m /\
                 m.1 == - 45 + 10 * inject_Z (Z.of_nat i)) /\
      ((nagents e <= 18)%nat ->
       Forall (fun q : point =>
                 - (length_ e0 / 2) <= q.1 /\ q.1 <= length_ e0 / 2) pts).
Proof.
  intros Hn Hh Hr Hla Hbox.
  destruct (reset_own_ok rand e Hn Hh) as (e0' & Hr' & Hrest).
  rewrite Hr in Hr'. injection Hr' as <-.
  destruct Hrest as (_ & _ & _ & _ & _ & _ & _ & _ & _ & _ & Lp & _).
  destruct (reset_own_geometry rand e e0 Hr) as (Gl & Gw).
  destruct (spline_path_rows (nagents e) action e0 Lp Hla Hn)
    as (path & p0 & E0 & Ep & Hl & Hrows).
  exists path. split; [exact Ep|]. split; [exact Hl|]. split; [exact Gw|].
  split; [exact Gl|].
  intros i pts Hi.
  assert (Hlt : (i < nagents e)%nat) by (apply lookup_lt_Some in Hi; lia).
  destruct (lookup_lt_is_Some_2 (position (agent e0)) i) as [p Ei]; [lia|].
  destruct (lookup_lt_is_Some_2 action i) as [a Eai]; [lia|].
  pose proof (Hrows i p a Ei Eai) as Hrow.
  assert (E : Some pts = Some [p; (p.1 + 50, p.2 + a * width e0 / 2);
                               (length_ e0 / 2, p.2 + a * width e0 / 2);
                               (- length_ e0 / 2, p0.2)]).
  { transitivity (path !! i); [symmetry; exact Hi | exact Hrow]. }
  apply (inj Some) in E. subst pts. clear Hi Hrow.
  pose proof (reset_own_centre_line rand e e0 i p Hn Hh Hr Ei) as Hy.
  pose proof (reset_own_centre_line rand e e0 0 p0 Hn Hh Hr E0) as Hy0.
  destruct (reset_own_spacing rand e e0 i p Hn Hh Hr Ei) as (Hx & _).
  rewrite Forall_lookup in Hbox. destruct (Hbox i a Eai) as (_ & _ & Hb).
  destruct (Hb 0%nat a (- 0.75) (Some 0.75) eq_refl eq_refl eq_refl) as (A1 & A2).
  rewrite Gw, Gl. cbn [fst snd].
  change point with (Q * Q)%type in *.
  split; [|split].
  - repeat (apply Forall_cons; split); [ | | | | apply Forall_nil_2];
      cbn [fst snd]; unfold Qdiv;
      (setoid_replace (/ 2) with 0.5 using relation Qeq by reflexivity);
      split; lra.
  - eexists. split; [reflexivity|]. cbn [fst]. rewrite Hx. ring.
  - intros H18.
    assert (I0 : 0 <= inject_Z (Z.of_nat i)).
    { change 0 with (inject_Z 0). rewrite <- Zle_Qle. lia. }
    assert (I1 : inject_Z (Z.of_nat i) <= 17).
    { change 17 with (inject_Z 17). rewrite <- Zle_Qle. lia. }
    repeat (apply Forall_cons; split); [ | | | | apply Forall_nil_2];
      cbn [fst snd]; unfold Qdiv;
      (setoid_replace (/ 2) with 0.5 using relation Qeq by reflexivity);
      split; lra.
Qed.

Lemma X22_witness :
  exists path,
    Spline.spline_path [1 # 2; - (3 # 4)] ex_own = Ok path /\
    length path = 2%nat.
Proof.
  destruct (X22_stage0_paths_lateral_bound ex_draws ex_init ex_own [1 # 2; - (3 # 4)])
    as (path & Hp & Hl & _).
  - cbn. lia.
  - cbn. lia.
  - exact ex_own_runs.
  - reflexivity.
  - apply Forall_cons; split; [|apply Forall_cons; split; [|apply Forall_nil_2]];
      (split; [reflexivity|]; split; [reflexivity|];
       intros i x lo hi Hx Hlo Hhi; destruct i as [|i]; cbn in Hx, Hlo, Hhi;
       try discriminate Hx;
       apply (inj Some) in Hx; apply (inj Some) in Hlo; apply (inj Some) in Hhi;
       subst x lo hi; split; lra).
  - exists path. split; [exact Hp | exact Hl].
Defined.
